(** * The account ledger of bank.c

    A shallow embedding of the banking program [src/bank.c]: the account
    registry, the balance-mutating operations, the snapshot file and the two
    menu loops, followed by the properties of the ledger.

    Conventions of the embedding.
    - A C [float] is an IEEE 754 binary32 value: [spec_float] with
      [prec = 24] and [emax = 128], every operation correctly rounded to
      nearest-even, as on a platform that evaluates [float] expressions in
      [float].
    - A C [int] is a [Z].
    - The globals and the outside world (console, data file, [rand]) are
      the fields of [World]; a C function is a computation in the monad
      [M], whose result [None] stands for undefined behaviour (an array
      index out of bounds) or for a loop that never exits. *)

From Stdlib Require Import ZArith String Ascii Bool Lia DecimalString.
From Stdlib Require Import Floats.SpecFloat.
From stdpp Require Import base list.

Local Open Scope Z_scope.

(** ** Single-precision arithmetic *)

Module F32.

Definition prec : Z := 24.
Definition emax : Z := 128.

Definition float := spec_float.

Definition add : float -> float -> float := SFadd prec emax.
Definition sub : float -> float -> float := SFsub prec emax.
Definition mul : float -> float -> float := SFmul prec emax.
Definition div : float -> float -> float := SFdiv prec emax.

(** The C comparisons [==], [<], [<=]; [x > y] is [ltb y x] and
    [x >= y] is [leb y x].  Each is false when an operand is NaN. *)
Definition eqb : float -> float -> bool := SFeqb.
Definition ltb : float -> float -> bool := SFltb.
Definition leb : float -> float -> bool := SFleb.

(** Conversion of an [int] to [float]. *)
Definition of_int (n : Z) : float := binary_normalize prec emax n 0 false.

Definition zero : float := S754_zero false.

End F32.

Abbreviation float := F32.float.

(** ** Constants *)

Definition MAX_ACCOUNTS : Z := 100.
Definition MAX_NAME_LENGTH : Z := 50.
Definition MIN_PIN : Z := 1000.
Definition MAX_PIN : Z := 9999.
(** [0.05f] is the binary32 value 0x3D4CCCCD. *)
Definition INTEREST_RATE : float := S754_finite false 13421773 (-28).
Definition STARTING_BALANCE : float := F32.of_int 1000.
Definition LOAN_AMOUNT : float := F32.of_int 500.
Definition ASSET_PURCHASE_AMOUNT : float := F32.of_int 100.

(** ** Enumerations *)

Inductive ErrorCode :=
| SUCCESS
| ERROR_INSUFFICIENT_FUNDS
| ERROR_INVALID_PIN
| ERROR_ACCOUNT_EXISTS
| ERROR_FILE_IO
| ERROR_INVALID_INPUT.

Definition ErrorCode_eqb (a b : ErrorCode) : bool :=
  match a, b with
  | SUCCESS, SUCCESS
  | ERROR_INSUFFICIENT_FUNDS, ERROR_INSUFFICIENT_FUNDS
  | ERROR_INVALID_PIN, ERROR_INVALID_PIN
  | ERROR_ACCOUNT_EXISTS, ERROR_ACCOUNT_EXISTS
  | ERROR_FILE_IO, ERROR_FILE_IO
  | ERROR_INVALID_INPUT, ERROR_INVALID_INPUT => true
  | _, _ => false
  end.

(** ** Structures *)

Record MarketPrices := mkMarketPrices {
  crypto : float;
  gold : float;
  silver : float
}.

Record ExchangeRates := mkExchangeRates {
  eur : float;
  gbp : float;
  inr : float
}.

(** The two anonymous member structs of [Account] have the field lists of
    [MarketPrices] and [ExchangeRates]; their records are reused.  [name]
    is the C string held in the [char\[50\]] buffer. *)
Record Account := mkAccount {
  name : string;
  pin : Z;
  balance : float;
  loan : float;
  assets : MarketPrices;
  currencies : ExchangeRates
}.

Definition set_balance (v : float) (a : Account) : Account :=
  mkAccount (name a) (pin a) v (loan a) (assets a) (currencies a).
Definition set_loan (v : float) (a : Account) : Account :=
  mkAccount (name a) (pin a) (balance a) v (assets a) (currencies a).
Definition set_assets (v : MarketPrices) (a : Account) : Account :=
  mkAccount (name a) (pin a) (balance a) (loan a) v (currencies a).
Definition set_currencies (v : ExchangeRates) (a : Account) : Account :=
  mkAccount (name a) (pin a) (balance a) (loan a) (assets a) v.

(** ** The outside world *)

(** One non-blank line of console input, given by what each [scanf]
    conversion used by the program stores when applied to it: [%d], [%f]
    ([None] on a matching failure) and [%s].  After every conversion the
    program discards the rest of the line ([clearInputBuffer]). *)
Record Line := mkLine {
  scan_d : option Z;
  scan_f : option float;
  scan_s : string
}.

(** What the program writes to the console.  Only the lines that report an
    outcome are recorded; menus, prompts and echoed values are not. *)
Inductive Output :=
| OutError (e : ErrorCode)   (* displayError(e) *)
| OutErrorText               (* another "[ERROR] ..." line *)
| OutSuccess                 (* a "[SUCCESS] ..." line *)
| OutInfo                    (* an "[INFO] ..." line *)
| OutWarning                 (* a "[WARNING] ..." line *)
| OutCancelled.              (* "... cancelled." *)

(** Bytes at the end of a file that stop inside an item.  [fread] copies
    them over the first bytes of the object it is filling and leaves the
    rest of the object as it was, so a cut item is given by what it makes
    of the [int], or of the record, that it is read into. *)
Inductive Cut :=
| CutCount (bytes : Z -> Z)
| CutRecord (bytes : Account -> Account).

(** The data file: the leading [int], if the file is long enough to hold
    one, the whole account records after it, and the cut item after
    these when the file does not end on an item. *)
Record FileData := mkFile {
  f_count : option Z;
  f_records : list Account;
  f_cut : option Cut
}.

(** A file that ends on an item. *)
Definition mkFileData (count : option Z) (records : list Account) : FileData :=
  mkFile count records None.

(** What a device that fills up inside an item keeps of it: the leading
    bytes of the value written, given by what they make of the object they
    are later read into. *)
Record Split := mkSplit {
  split_count : Z -> Z -> Z;
  split_record : Account -> Account -> Account
}.

(** The file system and the stream as far as the program sees them: the
    data file, if it exists; whether [fopen] succeeds; how many whole
    items (the count, then the records) the device has room for; how many
    items beyond these the stream takes into its buffer, which [fwrite]
    counts as written and which are lost when [fclose] flushes the buffer;
    and the part that fits of the item after the last whole one, if any
    does. *)
Record Disk := mkDevice {
  d_file : option FileData;
  d_openable : bool;
  d_room : nat;
  d_buffer : nat;
  d_split : option Split
}.

(** A device that writes through, whole items only. *)
Definition mkDisk (file : option FileData) (openable : bool) (room : nat) : Disk :=
  mkDevice file openable room 0 None.

(** ** Global state *)

Record World := mkWorld {
  accounts : list Account;
  accountCount : Z;
  currentUserIndex : Z;
  marketPrices : MarketPrices;
  exchangeRates : ExchangeRates;
  stdin : list Line;
  stdout : list Output;
  disk : Disk;
  rand_values : list Z
}.

Definition set_accounts (v : list Account) (w : World) : World :=
  mkWorld v (accountCount w) (currentUserIndex w) (marketPrices w)
          (exchangeRates w) (stdin w) (stdout w) (disk w) (rand_values w).
Definition set_accountCount (v : Z) (w : World) : World :=
  mkWorld (accounts w) v (currentUserIndex w) (marketPrices w)
          (exchangeRates w) (stdin w) (stdout w) (disk w) (rand_values w).
Definition set_currentUserIndex (v : Z) (w : World) : World :=
  mkWorld (accounts w) (accountCount w) v (marketPrices w)
          (exchangeRates w) (stdin w) (stdout w) (disk w) (rand_values w).
Definition set_marketPrices (v : MarketPrices) (w : World) : World :=
  mkWorld (accounts w) (accountCount w) (currentUserIndex w) v
          (exchangeRates w) (stdin w) (stdout w) (disk w) (rand_values w).
Definition set_stdin (v : list Line) (w : World) : World :=
  mkWorld (accounts w) (accountCount w) (currentUserIndex w) (marketPrices w)
          (exchangeRates w) v (stdout w) (disk w) (rand_values w).
Definition set_stdout (v : list Output) (w : World) : World :=
  mkWorld (accounts w) (accountCount w) (currentUserIndex w) (marketPrices w)
          (exchangeRates w) (stdin w) v (disk w) (rand_values w).
Definition set_disk (v : Disk) (w : World) : World :=
  mkWorld (accounts w) (accountCount w) (currentUserIndex w) (marketPrices w)
          (exchangeRates w) (stdin w) (stdout w) v (rand_values w).
Definition set_rand_values (v : list Z) (w : World) : World :=
  mkWorld (accounts w) (accountCount w) (currentUserIndex w) (marketPrices w)
          (exchangeRates w) (stdin w) (stdout w) (disk w) v.

(** ** The monad of C functions *)

Definition M (A : Type) : Type := World -> option (A * World).

Definition ret {A} (a : A) : M A := fun w => Some (a, w).

Definition bind {A B} (c : M A) (k : A -> M B) : M B :=
  fun w => match c w with
           | Some (a, w') => k a w'
           | None => None
           end.

Declare Scope c_scope.
Delimit Scope c_scope with C.
Notation "'let*' x := c 'in' k" := (bind c (fun x => k))
  (at level 10, x name, c at level 100, k at level 200) : c_scope.
Notation "c >> k" := (bind c (fun _ => k))
  (at level 100, k at level 200, right associativity) : c_scope.
Local Open Scope c_scope.

Definition get {A} (f : World -> A) : M A := fun w => Some (f w, w).
Definition update (f : World -> World) : M unit := fun w => Some (tt, f w).

(** [printf] of a recorded line. *)
Definition print (o : Output) : M unit :=
  update (fun w => set_stdout (stdout w ++ [o]) w).

(** [accounts\[i\]] as an rvalue and as the target of an assignment. *)
Definition read_account (i : Z) : M Account :=
  fun w => if 0 <=? i
           then match accounts w !! Z.to_nat i with
                | Some a => Some (a, w)
                | None => None
                end
           else None.

Definition write_account (i : Z) (a : Account) : M unit :=
  fun w => if (0 <=? i) && (i <? Z.of_nat (length (accounts w)))
           then Some (tt, set_accounts (<[Z.to_nat i := a]> (accounts w)) w)
           else None.

(** [user->field op= e] with [user = &accounts\[currentUserIndex\]]. *)
Definition current_user : M Account :=
  let* i := get currentUserIndex in read_account i.

Definition modify_user (f : Account -> Account) : M unit :=
  let* i := get currentUserIndex in
  let* a := read_account i in
  write_account i (f a).

(** ** Utility functions *)

(** [isalpha] in the "C" locale, the only one the program runs in. *)
Definition isalpha (c : ascii) : bool :=
  let n := Z.of_nat (nat_of_ascii c) in
  ((65 <=? n) && (n <=? 90)) || ((97 <=? n) && (n <=? 122)).

Fixpoint all_alpha (str : string) : bool :=
  match str with
  | EmptyString => true
  | String c rest => if isalpha c then all_alpha rest else false
  end.

Definition isAlphaString (str : string) : bool :=
  match str with
  | EmptyString => false
  | _ => all_alpha str
  end.

Definition isValidPIN (pin : Z) : bool := (MIN_PIN <=? pin) && (pin <=? MAX_PIN).

(** What [scanf("%49s", name)] stores on a line: at most 49 characters. *)
Definition scan_49s (l : Line) : string :=
  String.substring 0 (Z.to_nat (MAX_NAME_LENGTH - 1)) (scan_s l).

(** [scanf("%49s", name)] followed by [clearInputBuffer()]; [None] when
    [scanf] does not return 1, which for [%s] is end of input. *)
Definition scanf_49s : M (option string) :=
  fun w => match stdin w with
           | [] => Some (None, w)
           | l :: rest => Some (Some (scan_49s l), set_stdin rest w)
           end.

(** [getFloatInput] and [getIntInput]: the value stored through the
    pointer when the function returns [true], [None] when it returns
    [false].  Either way the line is consumed; at end of input there is
    nothing to consume. *)
Definition getFloatInput : M (option float) :=
  fun w => match stdin w with
           | [] => Some (None, w)
           | l :: rest => Some (scan_f l, set_stdin rest w)
           end.

Definition getIntInput : M (option Z) :=
  fun w => match stdin w with
           | [] => Some (None, w)
           | l :: rest => Some (scan_d l, set_stdin rest w)
           end.

Definition displayError (error : ErrorCode) : M unit := print (OutError error).

(** ** File operations *)

(** The file that [fclose] leaves on the device [d] once the count [n]
    and the records [records] have gone to the stream: the whole items
    there is room for and, if the device splits items, the part that fits
    of the next one. *)
Definition written (d : Disk) (n : Z) (records : list Account) : FileData :=
  match d_room d with
  | O =>
      mkFile None []
             (match d_split d with
              | Some s => Some (CutCount (split_count s n))
              | None => None
              end)
  | S room =>
      mkFile (Some n) (take room records)
             (match records !! room, d_split d with
              | Some a, Some s => Some (CutRecord (split_record s a))
              | _, _ => None
              end)
  end.

(** [fopen(DATA_FILE, "wb")] truncates the file.  Each [fwrite] returns
    the number of items the stream has taken, on the device or in its
    buffer: the first is asked for the count, the second for
    [(size_t)accountCount] records, so a count that is negative or beyond
    the array makes it read past [accounts].  The result of [fclose],
    which writes out what is still in the buffer, is not looked at:
    [SUCCESS] says that the stream took every item, not that the device
    did. *)
Definition saveAccounts : M ErrorCode :=
  fun w =>
    let d := disk w in
    if negb (d_openable d) then Some (ERROR_FILE_IO, w)
    else
      let n := accountCount w in
      let closed file :=
        set_disk (mkDevice (Some file) true (d_room d) (d_buffer d) (d_split d)) w in
      match (d_room d + d_buffer d)%nat with
      | O => Some (ERROR_FILE_IO, closed (written d n []))
      | S taken =>
          if (n <? 0) || (Z.of_nat (length (accounts w)) <? n) then None
          else
            let records := take (Z.to_nat n) (accounts w) in
            if Z.of_nat (Nat.min (Z.to_nat n) taken) =? n
            then Some (SUCCESS, closed (written d n records))
            else Some (ERROR_FILE_IO, closed (written d n records))
      end.

(** [size_t] is taken to be 64 bits wide. *)
Definition size_t_of_int (n : Z) : Z := n mod 2 ^ 64.

(** [fopen(DATA_FILE, "rb")] returns [NULL] when the file does not exist
    or cannot be opened.  [fread] stores the count into [accountCount],
    then the records, as many as requested and present, into [accounts]
    from index 0; more than the array holds is a buffer overflow.  When
    the file ends inside the item being read, the bytes that are there
    have been stored into [accountCount], or into the next slot of
    [accounts], by the time [fread] reports the item as missing. *)
Definition loadAccounts : M ErrorCode :=
  fun w =>
    let d := disk w in
    match d_file d with
    | None => Some (SUCCESS, w)
    | Some fd =>
        if negb (d_openable d) then Some (SUCCESS, w)
        else
          match f_count fd with
          | None =>
              Some (ERROR_FILE_IO,
                    match f_cut fd with
                    | Some (CutCount bytes) =>
                        set_accountCount (bytes (accountCount w)) w
                    | _ => w
                    end)
          | Some n =>
              let nmemb := size_t_of_int n in
              let got :=
                if nmemb <? Z.of_nat (length (f_records fd))
                then take (Z.to_nat nmemb) (f_records fd)
                else f_records fd in
              if (length (accounts w) <? length got)%nat then None
              else
                let w' :=
                  set_accounts (got ++ drop (length got) (accounts w))
                               (set_accountCount n w) in
                if Z.of_nat (length got) =? nmemb
                then Some (SUCCESS, w')
                else
                  match f_cut fd, drop (length got) (accounts w) with
                  | Some (CutRecord bytes), [] => None
                  | Some (CutRecord bytes), old :: rest =>
                      Some (ERROR_FILE_IO,
                            set_accounts (got ++ bytes old :: rest)
                                         (set_accountCount n w))
                  | _, _ => Some (ERROR_FILE_IO, w')
                  end
          end
    end.

(** ** Account management *)

(** The loop of [accountExists] from index [i], with [n] iterations left. *)
Fixpoint accountExists_loop (n : nat) (i : Z) (nm : string) (p : Z) : M bool :=
  match n with
  | O => ret false
  | S n' =>
      let* a := read_account i in
      if String.eqb (name a) nm || (pin a =? p)
      then ret true
      else accountExists_loop n' (i + 1) nm p
  end.

Definition accountExists (nm : string) (p : Z) : M bool :=
  let* count := get accountCount in
  accountExists_loop (Z.to_nat count) 0 nm p.

(** The value [initializeAccount] stores through its pointer: [strncpy]
    keeps at most [MAX_NAME_LENGTH - 1] characters of the name. *)
Definition initializeAccount (nm : string) (p : Z) : Account :=
  mkAccount (String.substring 0 (Z.to_nat (MAX_NAME_LENGTH - 1)) nm)
            p
            STARTING_BALANCE
            F32.zero
            (mkMarketPrices F32.zero F32.zero F32.zero)
            (mkExchangeRates F32.zero F32.zero F32.zero).

(** The two input loops of [createAccount], by recursion on the lines
    still to be read: each iteration consumes one line.  At end of input
    [scanf] fails on every iteration and the loop never exits. *)
Fixpoint name_loop (lines : list Line) (out : list Output)
  : option (string * list Line * list Output) :=
  match lines with
  | [] => None
  | l :: rest =>
      if isAlphaString (scan_49s l)
      then Some (scan_49s l, rest, out)
      else name_loop rest (out ++ [OutErrorText])
  end.

Fixpoint pin_loop (lines : list Line) (out : list Output)
  : option (Z * list Line * list Output) :=
  match lines with
  | [] => None
  | l :: rest =>
      match scan_d l with
      | None => pin_loop rest (out ++ [OutErrorText])
      | Some p =>
          if isValidPIN p
          then Some (p, rest, out)
          else pin_loop rest (out ++ [OutErrorText])
      end
  end.

Definition read_name : M string :=
  fun w => match name_loop (stdin w) [] with
           | Some (nm, rest, out) =>
               Some (nm, set_stdout (stdout w ++ out) (set_stdin rest w))
           | None => None
           end.

Definition read_pin : M Z :=
  fun w => match pin_loop (stdin w) [] with
           | Some (p, rest, out) =>
               Some (p, set_stdout (stdout w ++ out) (set_stdin rest w))
           | None => None
           end.

(** The last part of [createAccount], from "Check for duplicates" on: the
    registration proper, once a name and a PIN have been read. *)
Definition register (nm : string) (p : Z) : M ErrorCode :=
  let* dup := accountExists nm p in
  if dup then ret ERROR_ACCOUNT_EXISTS
  else
    let* count := get accountCount in
    write_account count (initializeAccount nm p) >>
    update (set_accountCount (count + 1)) >>
    let* result := saveAccounts in
    (if ErrorCode_eqb result SUCCESS then print OutSuccess else ret tt) >>
    ret result.

Definition createAccount : M ErrorCode :=
  let* count := get accountCount in
  if MAX_ACCOUNTS <=? count
  then print OutErrorText >> ret ERROR_INVALID_INPUT
  else
    let* nm := read_name in
    let* p := read_pin in
    register nm p.

(** The search loop of [loginAccount] from index [i], [n] iterations left. *)
Fixpoint login_loop (n : nat) (i : Z) (nm : string) (p : Z) : M ErrorCode :=
  match n with
  | O => print OutErrorText >> ret ERROR_INVALID_PIN
  | S n' =>
      let* a := read_account i in
      if String.eqb (name a) nm && (pin a =? p)
      then update (set_currentUserIndex i) >> print OutSuccess >> ret SUCCESS
      else login_loop n' (i + 1) nm p
  end.

Definition loginAccount : M ErrorCode :=
  let* r := scanf_49s in
  match r with
  | None => ret ERROR_INVALID_INPUT
  | Some nm =>
      let* r := getIntInput in
      match r with
      | None => ret ERROR_INVALID_INPUT
      | Some p =>
          let* count := get accountCount in
          login_loop (Z.to_nat count) 0 nm p
      end
  end.

Definition verifyPIN : M bool :=
  let* r := getIntInput in
  match r with
  | None => ret false
  | Some p =>
      let* user := current_user in
      ret (p =? pin user)
  end.

(** ** Market operations *)

(** [rand()]: the next value of the generator's sequence (0 once the
    recorded sequence is used up). *)
Definition rand : M Z :=
  fun w => match rand_values w with
           | [] => Some (0, w)
           | r :: rest => Some (r, set_rand_values rest w)
           end.

(** [((rand() % k) - d) / 100.0f] *)
Definition price_change (r k d : Z) : float :=
  F32.div (F32.of_int (Z.rem r k - d)) (F32.of_int 100).

Definition apply_change (price change : float) : float :=
  F32.mul price (F32.add (F32.of_int 1) change).

Definition updateMarketPrices : M unit :=
  let* r1 := rand in
  update (fun w => let mp := marketPrices w in
                   set_marketPrices
                     (mkMarketPrices (apply_change (crypto mp) (price_change r1 35 15))
                                     (gold mp) (silver mp)) w) >>
  let* r2 := rand in
  update (fun w => let mp := marketPrices w in
                   set_marketPrices
                     (mkMarketPrices (crypto mp)
                                     (apply_change (gold mp) (price_change r2 15 5))
                                     (silver mp)) w) >>
  let* r3 := rand in
  update (fun w => let mp := marketPrices w in
                   set_marketPrices
                     (mkMarketPrices (crypto mp) (gold mp)
                                     (apply_change (silver mp) (price_change r3 25 10))) w).

(** ** Banking operations *)

Definition depositCash (amount : float) : M ErrorCode :=
  if F32.leb amount F32.zero then ret ERROR_INVALID_INPUT
  else
    modify_user (fun u => set_balance (F32.add (balance u) amount) u) >>
    print OutSuccess >>
    saveAccounts.

Definition withdrawCash (amount : float) : M ErrorCode :=
  if F32.leb amount F32.zero then ret ERROR_INVALID_INPUT
  else
    let* user := current_user in
    if F32.ltb (balance user) amount then ret ERROR_INSUFFICIENT_FUNDS
    else
      let* ok := verifyPIN in
      if negb ok then ret ERROR_INVALID_PIN
      else
        modify_user (fun u => set_balance (F32.sub (balance u) amount) u) >>
        print OutSuccess >>
        saveAccounts.

Definition processCashTransaction : M unit :=
  let* r := getIntInput in
  match r with
  | None => displayError ERROR_INVALID_INPUT
  | Some choice =>
      let* r := getFloatInput in
      match r with
      | None => displayError ERROR_INVALID_INPUT
      | Some amount =>
          if choice =? 1 then
            let* result := depositCash amount in
            if ErrorCode_eqb result SUCCESS then ret tt else displayError result
          else if choice =? 2 then
            let* result := withdrawCash amount in
            if ErrorCode_eqb result SUCCESS then ret tt else displayError result
          else displayError ERROR_INVALID_INPUT
      end
  end.

(** [user->assets.X += units] for the three assets. *)
Definition add_crypto (units : float) (u : Account) : Account :=
  let a := assets u in
  set_assets (mkMarketPrices (F32.add (crypto a) units) (gold a) (silver a)) u.
Definition add_gold (units : float) (u : Account) : Account :=
  let a := assets u in
  set_assets (mkMarketPrices (crypto a) (F32.add (gold a) units) (silver a)) u.
Definition add_silver (units : float) (u : Account) : Account :=
  let a := assets u in
  set_assets (mkMarketPrices (crypto a) (gold a) (F32.add (silver a) units)) u.

Definition purchaseAsset : M unit :=
  let* user := current_user in
  if F32.ltb (balance user) ASSET_PURCHASE_AMOUNT
  then displayError ERROR_INSUFFICIENT_FUNDS
  else
    let* ok := verifyPIN in
    if negb ok then displayError ERROR_INVALID_PIN
    else
      let* r := getIntInput in
      match r with
      | None => displayError ERROR_INVALID_INPUT
      | Some choice =>
          modify_user (fun u => set_balance (F32.sub (balance u) ASSET_PURCHASE_AMOUNT) u) >>
          let units := ASSET_PURCHASE_AMOUNT in
          let* mp := get marketPrices in
          match choice with
          | 1 =>
              modify_user (add_crypto (F32.div units (crypto mp))) >>
              print OutSuccess >> saveAccounts >> ret tt
          | 2 =>
              modify_user (add_gold (F32.div units (gold mp))) >>
              print OutSuccess >> saveAccounts >> ret tt
          | 3 =>
              modify_user (add_silver (F32.div units (silver mp))) >>
              print OutSuccess >> saveAccounts >> ret tt
          | _ =>
              modify_user (fun u => set_balance (F32.add (balance u) ASSET_PURCHASE_AMOUNT) u) >>
              displayError ERROR_INVALID_INPUT
          end
      end.

(** [!getIntInput("", &confirm) || confirm != 1] is false exactly when the
    line read converts to 1. *)
Definition confirmed (r : option Z) : bool :=
  match r with
  | Some c => c =? 1
  | None => false
  end.

Definition manageLoan : M unit :=
  let* ok := verifyPIN in
  if negb ok then displayError ERROR_INVALID_PIN
  else
    let* user := current_user in
    if F32.eqb (loan user) F32.zero then
      let* r := getIntInput in
      if negb (confirmed r) then print OutCancelled
      else
        modify_user (set_loan LOAN_AMOUNT) >>
        modify_user (fun u => set_balance (F32.add (balance u) LOAN_AMOUNT) u) >>
        print OutSuccess >> saveAccounts >> ret tt
    else
      if F32.leb (loan user) (balance user) then
        let* r := getIntInput in
        if negb (confirmed r) then print OutCancelled
        else
          modify_user (fun u => set_balance (F32.sub (balance u) (loan u)) u) >>
          modify_user (set_loan F32.zero) >>
          print OutSuccess >> saveAccounts >> ret tt
      else print OutInfo.

Definition addInterest : M unit :=
  let* user := current_user in
  let interest := F32.mul (balance user) INTEREST_RATE in
  modify_user (fun u => set_balance (F32.add (balance u) interest) u) >>
  saveAccounts >> ret tt.

(** The net worth computed by [displayAccountStatus]. *)
Definition netWorth (user : Account) (mp : MarketPrices) (er : ExchangeRates) : float :=
  let cryptoValue := F32.mul (crypto (assets user)) (crypto mp) in
  let goldValue := F32.mul (gold (assets user)) (gold mp) in
  let silverValue := F32.mul (silver (assets user)) (silver mp) in
  let totalAssets := F32.add (F32.add cryptoValue goldValue) silverValue in
  let eurValue := F32.mul (eur (currencies user)) (eur er) in
  let gbpValue := F32.mul (gbp (currencies user)) (gbp er) in
  let inrValue := F32.mul (inr (currencies user)) (inr er) in
  let totalForex := F32.add (F32.add eurValue gbpValue) inrValue in
  F32.sub (F32.add (F32.add (balance user) totalAssets) totalForex) (loan user).

Definition displayAccountStatus : M unit :=
  let* user := current_user in ret tt.

(** [user->currencies.X = v] for the three currencies. *)
Definition set_eur (v : float) (u : Account) : Account :=
  let c := currencies u in set_currencies (mkExchangeRates v (gbp c) (inr c)) u.
Definition set_gbp (v : float) (u : Account) : Account :=
  let c := currencies u in set_currencies (mkExchangeRates (eur c) v (inr c)) u.
Definition set_inr (v : float) (u : Account) : Account :=
  let c := currencies u in set_currencies (mkExchangeRates (eur c) (gbp c) v) u.

(** One case of the inner [switch] of the choice "Foreign -> USD". *)
Definition convert_back (holding : Account -> float)
           (set_holding : float -> Account -> Account)
           (rate amount : float) : M bool :=
  let* user := current_user in
  if F32.leb amount (holding user) then
    modify_user (fun u => set_holding (F32.sub (holding u) amount) u) >>
    let usdAmount := F32.mul amount rate in
    modify_user (fun u => set_balance (F32.add (balance u) usdAmount) u) >>
    print OutSuccess >>
    ret true
  else ret false.

Definition manageForexWallet : M unit :=
  let* user := current_user in
  let* r := getIntInput in
  match r with
  | None => displayError ERROR_INVALID_INPUT
  | Some choice =>
      if (1 <=? choice) && (choice <=? 3) then
        let* r := getFloatInput in
        match r with
        | None => displayError ERROR_INVALID_INPUT
        | Some amount =>
            let* user := current_user in
            if F32.ltb (balance user) amount
            then displayError ERROR_INSUFFICIENT_FUNDS
            else
              modify_user (fun u => set_balance (F32.sub (balance u) amount) u) >>
              let* er := get exchangeRates in
              match choice with
              | 1 =>
                  modify_user (fun u => set_eur (F32.add (eur (currencies u))
                                                   (F32.div amount (eur er))) u) >>
                  print OutSuccess
              | 2 =>
                  modify_user (fun u => set_gbp (F32.add (gbp (currencies u))
                                                   (F32.div amount (gbp er))) u) >>
                  print OutSuccess
              | 3 =>
                  modify_user (fun u => set_inr (F32.add (inr (currencies u))
                                                   (F32.div amount (inr er))) u) >>
                  print OutSuccess
              | _ => ret tt
              end >>
              saveAccounts >> ret tt
        end
      else if choice =? 4 then
        let* r := getIntInput in
        match r with
        | None => displayError ERROR_INVALID_INPUT
        | Some currencyChoice =>
            let* r := getFloatInput in
            match r with
            | None => displayError ERROR_INVALID_INPUT
            | Some amount =>
                let* er := get exchangeRates in
                let* success :=
                  match currencyChoice with
                  | 1 => convert_back (fun u => eur (currencies u)) set_eur (eur er) amount
                  | 2 => convert_back (fun u => gbp (currencies u)) set_gbp (gbp er) amount
                  | 3 => convert_back (fun u => inr (currencies u)) set_inr (inr er) amount
                  | _ => ret false
                  end in
                if success then saveAccounts >> ret tt
                else displayError ERROR_INSUFFICIENT_FUNDS
            end
        end
      else ret tt
  end.

(** ** Main program *)

(** Where [main] is: in the loop before login, in the loop after login,
    or returned. *)
Inductive Phase := MainMenu | UserMenu | Exited.

(** [main] up to its first loop. *)
Definition main_start : M Phase :=
  let* loadResult := loadAccounts in
  (if ErrorCode_eqb loadResult ERROR_FILE_IO
   then print OutWarning else print OutInfo) >>
  ret MainMenu.

(** One iteration of the loop before login. *)
Definition main_menu : M Phase :=
  let* r := getIntInput in
  match r with
  | None => displayError ERROR_INVALID_INPUT >> ret MainMenu
  | Some choice =>
      match choice with
      | 1 => createAccount >> ret MainMenu
      | 2 =>
          let* result := loginAccount in
          ret (if ErrorCode_eqb result SUCCESS then UserMenu else MainMenu)
      | 3 => print OutInfo >> ret Exited
      | _ => displayError ERROR_INVALID_INPUT >> ret MainMenu
      end
  end.

(** One iteration of the loop after login. *)
Definition user_menu : M Phase :=
  let* r := getIntInput in
  match r with
  | None => displayError ERROR_INVALID_INPUT >> ret UserMenu
  | Some choice =>
      match choice with
      | 1 => processCashTransaction >> ret UserMenu
      | 2 => purchaseAsset >> ret UserMenu
      | 3 => manageLoan >> ret UserMenu
      | 4 => displayAccountStatus >> ret UserMenu
      | 5 => ret UserMenu
      | 6 => updateMarketPrices >> ret UserMenu
      | 7 => addInterest >> ret UserMenu
      | 8 => manageForexWallet >> ret UserMenu
      | 9 =>
          current_user >> print OutInfo >>
          update (set_currentUserIndex (-1)) >> ret Exited
      | _ => displayError ERROR_INVALID_INPUT >> ret UserMenu
      end
  end.

Definition step (ph : Phase) : M Phase :=
  match ph with
  | MainMenu => main_menu
  | UserMenu => user_menu
  | Exited => ret Exited
  end.

(** [n] loop iterations from phase [ph]. *)
Fixpoint steps (n : nat) (ph : Phase) : M Phase :=
  match n with
  | O => ret ph
  | S n' => let* ph' := step ph in steps n' ph'
  end.

(** [main] run for [n] loop iterations. *)
Definition main (n : nat) : M Phase :=
  let* ph := main_start in steps n ph.

(** The state in which [main] starts: the globals as initialised, the
    statically allocated array zeroed. *)
Definition zero_account : Account :=
  mkAccount EmptyString 0 F32.zero F32.zero
            (mkMarketPrices F32.zero F32.zero F32.zero)
            (mkExchangeRates F32.zero F32.zero F32.zero).

(** [1.10f], [1.27f] and [0.012f] are 0x3F8CCCCD, 0x3FA28F5C and
    0x3C449BA6. *)
Definition initial_exchangeRates : ExchangeRates :=
  mkExchangeRates (S754_finite false 9227469 (-23))
                  (S754_finite false 10653532 (-23))
                  (S754_finite false 12884902 (-30)).

Definition initial_marketPrices : MarketPrices :=
  mkMarketPrices (F32.of_int 150) (F32.of_int 60) (F32.of_int 25).

Definition initial_world (input : list Line) (d : Disk) (rs : list Z) : World :=
  mkWorld (replicate (Z.to_nat MAX_ACCOUNTS) zero_account) 0 (-1)
          initial_marketPrices initial_exchangeRates input [] d rs.

(** * Vocabulary of the properties *)

(** ** States *)

(** A state whose session and registry are in the bounds of the array. *)
Definition well_formed (w : World) : Prop :=
  0 <= currentUserIndex w < Z.of_nat (length (accounts w)) /\
  0 <= accountCount w <= Z.of_nat (length (accounts w)).

(** The index of the selected account, and what identifies an account. *)
Definition selected (w : World) : nat := Z.to_nat (currentUserIndex w).

Definition identity (a : Account) : string * Z := (name a, pin a).

(** [w'] differs from [w] in the array at most in the selected account,
    and there not in the name or the PIN. *)
Record frame (w w' : World) : Prop := mkFrame {
  frame_length : length (accounts w') = length (accounts w);
  frame_count : accountCount w' = accountCount w;
  frame_index : currentUserIndex w' = currentUserIndex w;
  frame_others :
    forall j : nat, j <> selected w -> accounts w' !! j = accounts w !! j;
  frame_identity :
    identity <$> (accounts w' !! selected w) = identity <$> (accounts w !! selected w)
}.

(** A computation that is defined on every well-formed state and stays
    within the frame. *)
Definition keeps_frame {A} (c : M A) : Prop :=
  forall w, well_formed w -> exists a w', c w = Some (a, w') /\ frame w w'.

(** The accounts that exist: the first [accountCount] slots of the array. *)
Definition registry (w : World) : list Account :=
  take (Z.to_nat (accountCount w)) (accounts w).

(** [a] has the name [nm] or the PIN [p]. *)
Definition shares_identity (nm : string) (p : Z) (a : Account) : Prop :=
  name a = nm \/ pin a = p.

(** The session of [w] is on the account [user]. *)
Definition logged_in (w : World) (user : Account) : Prop :=
  0 <= currentUserIndex w /\ accounts w !! selected w = Some user.

(** [w] with the selected account replaced by [a]. *)
Definition put_user (a : Account) (w : World) : World :=
  set_accounts (<[selected w := a]> (accounts w)) w.

(** What the next [getIntInput] reads, and the state it leaves. *)
Definition entered (w : World) : option Z :=
  match stdin w with
  | l :: _ => scan_d l
  | [] => None
  end.

Definition entered_float (w : World) : option float :=
  match stdin w with
  | l :: _ => scan_f l
  | [] => None
  end.

Definition consume_line (w : World) : World :=
  match stdin w with
  | _ :: rest => set_stdin rest w
  | [] => w
  end.

(** [verifyPIN] succeeds exactly when the line read converts to the PIN
    of the selected account. *)
Definition pin_ok (w : World) (user : Account) : bool :=
  match entered w with
  | Some p => p =? pin user
  | None => false
  end.

(** ** Effects on the selected account *)

(** The account after the loan is granted, and after it is repaid. *)
Definition loan_taken (user : Account) : Account :=
  set_balance (F32.add (balance user) LOAN_AMOUNT) (set_loan LOAN_AMOUNT user).

Definition loan_repaid (user : Account) : Account :=
  set_loan F32.zero (set_balance (F32.sub (balance user) (loan user)) user).

(** The account after USD -> EUR of [usd] at rate [rate]. *)
Definition to_eur (rate usd : float) (user : Account) : Account :=
  set_eur (F32.add (eur (currencies user)) (F32.div usd rate))
          (set_balance (F32.sub (balance user) usd) user).

(** The account after EUR -> USD of [units] at rate [rate]. *)
Definition from_eur (rate units : float) (user : Account) : Account :=
  set_balance (F32.add (balance user) (F32.mul units rate))
              (set_eur (F32.sub (eur (currencies user)) units) user).

(** The ledger operations, as the user menu reaches them. *)
Inductive Operation :=
| Deposit (amount : float)
| Withdraw (amount : float)
| PurchaseAsset
| ManageLoan
| AddInterest
| ManageForexWallet.

Definition perform (op : Operation) : M unit :=
  match op with
  | Deposit amount => depositCash amount >> ret tt
  | Withdraw amount => withdrawCash amount >> ret tt
  | PurchaseAsset => purchaseAsset
  | ManageLoan => manageLoan
  | AddInterest => addInterest
  | ManageForexWallet => manageForexWallet
  end.

(** ** Sessions at the console *)

(** The line on which the user types the integer [n], a word, or a
    decimal number of integer part [whole] whose nearest [float] is [x]. *)
Definition number (n : Z) : Line :=
  mkLine (Some n) (Some (F32.of_int n)) (NilZero.string_of_int (Z.to_int n)).

Definition word (text : string) : Line := mkLine None None text.

Definition decimal (text : string) (whole : Z) (x : float) : Line :=
  mkLine (Some whole) (Some x) text.

(** No data file yet, and room for any registry. *)
Definition first_run : Disk := mkDisk None true 200.

(** The state of [main] after [n] loop iterations on the input [input]
    (the initial state if [main] is undefined there). *)
Definition state_after (n : nat) (input : list Line) : World :=
  match main n (initial_world input first_run []) with
  | Some (_, w) => w
  | None => initial_world input first_run []
  end.

(** Alice registers and logs in. *)
Definition alice : list Line :=
  [number 1; word "alice"%string; number 1234;
   number 2; word "alice"%string; number 1234].

Definition alice_account : Account := initializeAccount "alice"%string 1234.

(** "Foreign -> USD" of -1000 EUR on a new account. *)
Definition overdraw : list Line :=
  alice ++ [number 8; number 4; number 1; number (-1000)].

(** One hundred customers register: "aa" with PIN 1000, "ab" with PIN
    1001, and so on. *)
Definition customer (i : nat) : string :=
  String (ascii_of_nat (97 + i / 10))
         (String (ascii_of_nat (97 + i mod 10)) EmptyString).

Definition sign_up (i : nat) : list Line :=
  [number 1; word (customer i); number (1000 + Z.of_nat i)].

Definition crowd : list Line :=
  flat_map sign_up (seq 0 100) ++ [word "zed"%string; number 9999].

(** Alice takes the loan, then chooses the loan menu again. *)
Definition borrow_twice : list Line :=
  alice ++ [number 3; number 1234; number 1; number 3; number 1234; number 1].

(** Alice deposits 67107968 dollars, then takes the loan. *)
Definition rich_borrower : list Line :=
  alice ++ [number 1; number 1; number 67107968;
            number 3; number 1234; number 1].

(** No data file yet and no room left on the device, with a stream that
    buffers up to eight items. *)
Definition full_device : Disk := mkDevice None true 0 8 None.

(** USD -> EUR of -50 dollars on a new account. *)
Definition convert_negative : list Line :=
  alice ++ [number 8; number 1; number (-50)].

(** Alice deposits 67107968 dollars, then asks for asset number 7. *)
Definition bad_selection : list Line :=
  alice ++ [number 1; number 1; number 67107968;
            number 2; number 1234; number 7].

(** 35.47 dollars to EUR and the credited units back. *)
Definition there_and_back : list Line :=
  alice ++ [number 8; number 1;
            decimal "35.47" 35 (F32.div (F32.of_int 3547) (F32.of_int 100));
            number 8; number 4; number 1;
            decimal "32.245457" 32
                    (F32.div (F32.div (F32.of_int 3547) (F32.of_int 100))
                             (eur initial_exchangeRates))].

(** Alice deposits the largest binary32 number, converts
    16147573 * 2^104 dollars of it to EUR, and the credited units back. *)
Definition overflowing_trip : list Line :=
  alice ++ [number 1; number 1;
            decimal "340282346638528859811704183484516925440" 2147483647
                    (S754_finite false 16777215 104);
            number 8; number 1;
            decimal "327511689690866414742629188290287239168" 2147483647
                    (S754_finite false 16147573 104);
            number 8; number 4; number 1;
            decimal "297737903406680304975421157345215905792" 2147483647
                    (F32.div (S754_finite false 16147573 104)
                             (eur initial_exchangeRates))].

(** 50 dollars to EUR and the credited units back. *)
Definition fifty_there_and_back : list Line :=
  alice ++ [number 1; number 50; number 4; number 1;
            decimal "45.454544" 45
                    (F32.div (F32.of_int 50) (eur initial_exchangeRates))].

(** ** Signs and sizes of floats *)

(** [0 <= x], which a NaN does not satisfy. *)
Definition nonneg (x : float) : bool := F32.leb F32.zero x.

Definition is_nan (x : float) : bool :=
  match x with
  | S754_nan => true
  | _ => false
  end.

Definition is_infinity (x : float) : bool :=
  match x with
  | S754_infinity _ => true
  | _ => false
  end.

(** [x] is a binary32 value: its mantissa and exponent are in range. *)
Definition valid (x : float) : bool := valid_binary F32.prec F32.emax x.

(** [x] is a zero, an infinity or a finite number of sign [s]. *)
Definition signed (s : bool) (x : float) : Prop :=
  match x with
  | S754_zero s' | S754_infinity s' | S754_finite s' _ _ => s' = s
  | S754_nan => False
  end.

(** A number that can stand for an amount of money: a binary32 value
    that is not a NaN. *)
Definition is_number (x : float) : bool := valid x && negb (is_nan x).

(** ** Sessions *)

(** The session of [w] is on [user], within the bounds of the array. *)
Definition session (w : World) (user : Account) : Prop :=
  well_formed w /\ logged_in w user.

(** The computation result [r] is a value and a state that satisfy [Q]. *)
Definition returns {A} (r : option (A * World)) (Q : A -> World -> Prop) : Prop :=
  exists a w', r = Some (a, w') /\ Q a w'.

(** ** The registry as the program keeps it *)

(** A name and a PIN that [createAccount] accepts. *)
Definition well_named (a : Account) : Prop :=
  isAlphaString (name a) = true /\
  (String.length (name a) <= 49)%nat /\
  isValidPIN (pin a) = true.

(** The array has [MAX_ACCOUNTS] slots, the count is within it, and the
    accounts of the registry have accepted names and PINs, no name and no
    PIN twice. *)
Record registry_ok (w : World) : Prop := mkRegistryOk {
  ok_length : Z.of_nat (length (accounts w)) = MAX_ACCOUNTS;
  ok_count : 0 <= accountCount w <= MAX_ACCOUNTS;
  ok_names : NoDup (name <$> registry w);
  ok_pins : NoDup (pin <$> registry w);
  ok_well_named : Forall well_named (registry w)
}.

(** What holds of the state wherever [main] is: in the user menu the
    session is on an account of the registry, and the exchange rates are
    the initial ones. *)
Definition program_invariant (ph : Phase) (w : World) : Prop :=
  registry_ok w /\
  exchangeRates w = initial_exchangeRates /\
  (ph = UserMenu -> 0 <= currentUserIndex w < accountCount w).

(** [w'] has the array, the count, the names and PINs, the session and
    the exchange rates of [w]. *)
Record unchanged (w w' : World) : Prop := mkUnchanged {
  same_length : length (accounts w') = length (accounts w);
  same_count : accountCount w' = accountCount w;
  same_identities : identity <$> accounts w' = identity <$> accounts w;
  same_index : currentUserIndex w' = currentUserIndex w;
  same_rates : exchangeRates w' = exchangeRates w
}.

(** Every result of [c] is related to the state [c] started in. *)
Definition respects {A} (R : World -> World -> Prop) (c : M A) : Prop :=
  forall w a w', c w = Some (a, w') -> R w w'.

(** [login_loop] and [accountExists] test these on an account. *)
Definition credentials (nm : string) (p : Z) (a : Account) : bool :=
  String.eqb (name a) nm && (pin a =? p).

(** The factor [1.0f + k / 100.0f] by which [updateMarketPrices]
    multiplies a price when the drawn percentage is [k]. *)
Definition growth (k : Z) : float :=
  F32.add (F32.of_int 1) (F32.div (F32.of_int k) (F32.of_int 100)).

Definition positive_finite (x : float) : bool :=
  match x with
  | S754_finite false _ _ => true
  | _ => false
  end.

(** The percentages from [lo] upwards, [n] of them. *)
Definition percentages (lo : Z) (n : nat) : list Z :=
  (fun i => lo + Z.of_nat i) <$> seq 0 n.

(** ** Values of floats *)

(** A finite float in quanta of [2^-149], the smallest positive binary32
    number: every finite binary32 number is a whole number of them. *)
Definition quanta (x : float) : Z :=
  match x with
  | S754_finite s m e => cond_Zopp s (Z.pos m * 2 ^ (e + 149))
  | _ => 0
  end.

(** The float of sign [+], mantissa [m] and exponent [e], as rounding
    returns it. *)
Definition result_of (m e : Z) : float :=
  match m with
  | Z0 => S754_zero false
  | Zpos p => if e <=? 104 then S754_finite false p e else S754_infinity false
  | Zneg _ => S754_nan
  end.

(** [r] is a binary32 rounding of the quotient [num / den], counted in
    quanta: one of the two binary32 numbers around it. *)
Definition near (r : float) (num den : Z) : Prop :=
  exists m e,
    r = result_of m e /\
    0 <= m < 2 ^ 24 /\ -149 <= e /\ (e = -149 \/ 2 ^ 23 <= m) /\
    (m - 1) * 2 ^ (e + 149) * den <= num <= (m + 1) * 2 ^ (e + 149) * den.

(** A float that is [+0] or finite and positive, in canonical form. *)
Definition ordinary (x : float) : Prop :=
  x = S754_zero false \/
  exists m e, x = S754_finite false m e /\ bounded F32.prec F32.emax m e = true.

(** ** Files that end early *)

(** What reading a cut count makes of [accountCount]. *)
Definition read_cut_count (cut : option Cut) (count : Z) : Z :=
  match cut with
  | Some (CutCount bytes) => bytes count
  | _ => count
  end.

(** What reading a cut record makes of the slots it is read into, and how
    many slots it needs. *)
Definition read_cut (cut : option Cut) (slots : list Account) : list Account :=
  match cut, slots with
  | Some (CutRecord bytes), old :: rest => bytes old :: rest
  | _, _ => slots
  end.

Definition cut_slots (cut : option Cut) : nat :=
  match cut with
  | Some (CutRecord _) => 1
  | _ => 0
  end.

(** The record [a] cut after its PIN: the name and the PIN, over an
    object that keeps its other fields. *)
Definition name_and_pin (a old : Account) : Account :=
  mkAccount (name a) (pin a) (balance old) (loan old) (assets old) (currencies old).

(** * Properties *)

(** ** Running computations *)

Lemma bind_Some {A B} (c : M A) (k : A -> M B) (w w' : World) (a : A) :
  c w = Some (a, w') -> bind c k w = k a w'.
Proof. intros H. unfold bind. now rewrite H. Qed.

(** ** The frame of a ledger operation *)

Lemma frame_refl (w : World) : frame w w.
Proof. now constructor. Qed.

Lemma frame_trans (w1 w2 w3 : World) : frame w1 w2 -> frame w2 w3 -> frame w1 w3.
Proof.
  intros [L1 C1 I1 O1 N1] [L2 C2 I2 O2 N2].
  assert (S : selected w2 = selected w1) by (unfold selected; now rewrite I1).
  rewrite S in *.
  constructor; try congruence.
  intros j Hj. rewrite O2, O1; auto.
Qed.

Lemma frame_well_formed (w w' : World) : frame w w' -> well_formed w -> well_formed w'.
Proof.
  intros [L C I _ _] [H1 H2]. unfold well_formed. rewrite L, C, I. auto.
Qed.

Lemma keeps_ret {A} (a : A) : keeps_frame (ret a).
Proof. intros w _. exists a, w. split; [reflexivity | apply frame_refl]. Qed.

Lemma keeps_bind {A B} (c : M A) (k : A -> M B) :
  keeps_frame c -> (forall a, keeps_frame (k a)) -> keeps_frame (bind c k).
Proof.
  intros Hc Hk w Hw.
  destruct (Hc w Hw) as (a & w1 & E1 & F1).
  destruct (Hk a w1 (frame_well_formed _ _ F1 Hw)) as (b & w2 & E2 & F2).
  exists b, w2. split.
  - now rewrite (bind_Some _ _ _ _ _ E1).
  - eapply frame_trans; eauto.
Qed.

Lemma keeps_get {A} (f : World -> A) : keeps_frame (get f).
Proof. intros w _. exists (f w), w. split; [reflexivity | apply frame_refl]. Qed.

Lemma keeps_print (o : Output) : keeps_frame (print o).
Proof. intros w _. eexists _, _. split; [reflexivity | now constructor]. Qed.

Lemma keeps_displayError (e : ErrorCode) : keeps_frame (displayError e).
Proof. apply keeps_print. Qed.

Lemma keeps_getIntInput : keeps_frame getIntInput.
Proof.
  intros w _. unfold getIntInput.
  destruct (stdin w); eexists _, _; (split; [reflexivity | now constructor]).
Qed.

Lemma keeps_getFloatInput : keeps_frame getFloatInput.
Proof.
  intros w _. unfold getFloatInput.
  destruct (stdin w); eexists _, _; (split; [reflexivity | now constructor]).
Qed.

Lemma keeps_saveAccounts : keeps_frame saveAccounts.
Proof.
  intros w [_ [H1 H2]]. unfold saveAccounts.
  destruct (negb _); [eexists _, _; split; [reflexivity | apply frame_refl] |].
  destruct (_ + _)%nat; [eexists _, _; split; [reflexivity | now constructor] |].
  replace (_ || _) with false by (symmetry; apply orb_false_iff; split; lia).
  destruct (_ =? _); eexists _, _; (split; [reflexivity | now constructor]).
Qed.

Lemma read_account_Some (i : Z) (w : World) :
  0 <= i < Z.of_nat (length (accounts w)) ->
  exists a, accounts w !! Z.to_nat i = Some a /\ read_account i w = Some (a, w).
Proof.
  intros H. unfold read_account.
  destruct (accounts w !! Z.to_nat i) as [a|] eqn:E.
  - exists a. split; [reflexivity|]. now replace (0 <=? i) with true by lia.
  - apply lookup_ge_None in E. lia.
Qed.

Lemma current_user_Some (w : World) :
  well_formed w ->
  exists a, accounts w !! selected w = Some a /\ current_user w = Some (a, w).
Proof.
  intros [H _]. destruct (read_account_Some _ _ H) as (a & E1 & E2).
  exists a. split; [exact E1 | exact E2].
Qed.

Lemma keeps_current_user : keeps_frame current_user.
Proof.
  intros w Hw. destruct (current_user_Some w Hw) as (a & _ & E).
  exists a, w. split; [exact E | apply frame_refl].
Qed.

Lemma modify_user_Some (f : Account -> Account) (w : World) :
  well_formed w ->
  exists a, accounts w !! selected w = Some a /\
            modify_user f w
            = Some (tt, set_accounts (<[selected w := f a]> (accounts w)) w).
Proof.
  intros [H _]. destruct (read_account_Some _ _ H) as (a & E1 & E2).
  exists a. split; [exact E1|].
  unfold modify_user, bind, get. rewrite E2.
  unfold write_account.
  now replace (_ && _) with true by (symmetry; apply andb_true_iff; split; lia).
Qed.

Lemma keeps_modify_user (f : Account -> Account) :
  (forall a, identity (f a) = identity a) -> keeps_frame (modify_user f).
Proof.
  intros Hf w Hw. destruct (modify_user_Some f w Hw) as (a & E1 & E2).
  eexists _, _. split; [exact E2|].
  constructor; simpl; try reflexivity.
  - apply length_insert.
  - intros j Hj. now apply list_lookup_insert_ne.
  - rewrite list_lookup_insert_eq by (eapply lookup_lt_Some; eauto).
    rewrite E1. simpl. now rewrite Hf.
Qed.

Lemma keeps_verifyPIN : keeps_frame verifyPIN.
Proof.
  apply keeps_bind; [apply keeps_getIntInput |].
  intros [p|]; [| apply keeps_ret].
  apply keeps_bind; [apply keeps_current_user | intros; apply keeps_ret].
Qed.

Create HintDb frame.
#[local] Hint Resolve keeps_ret keeps_get keeps_print keeps_displayError
  keeps_getIntInput keeps_getFloatInput keeps_saveAccounts keeps_current_user
  keeps_verifyPIN : frame.

(** Decompose a computation along its binds and branches. *)
Ltac frame_step :=
  match goal with
  | |- keeps_frame (bind _ _) => apply keeps_bind; [| intros ?]
  | |- keeps_frame (modify_user _) => apply keeps_modify_user; intros []; reflexivity
  | |- keeps_frame (if ?b then _ else _) => destruct b
  | |- keeps_frame (match ?x with _ => _ end) => destruct x
  | |- keeps_frame _ => solve [auto with frame]
  end.

Lemma keeps_depositCash (amount : float) : keeps_frame (depositCash amount).
Proof. unfold depositCash. repeat frame_step. Qed.

Lemma keeps_withdrawCash (amount : float) : keeps_frame (withdrawCash amount).
Proof. unfold withdrawCash. repeat frame_step. Qed.

Lemma keeps_purchaseAsset : keeps_frame purchaseAsset.
Proof. unfold purchaseAsset. repeat frame_step. Qed.

Lemma keeps_manageLoan : keeps_frame manageLoan.
Proof. unfold manageLoan. repeat frame_step. Qed.

Lemma keeps_addInterest : keeps_frame addInterest.
Proof. unfold addInterest. repeat frame_step. Qed.

Lemma keeps_convert_back holding set_holding rate amount :
  (forall v a, identity (set_holding v a) = identity a) ->
  keeps_frame (convert_back holding set_holding rate amount).
Proof.
  intros H. unfold convert_back.
  apply keeps_bind; [auto with frame | intros u].
  destruct (F32.leb _ _); [| auto with frame].
  apply keeps_bind; [apply keeps_modify_user; intros; apply H | intros _].
  repeat frame_step.
Qed.

Lemma keeps_manageForexWallet : keeps_frame manageForexWallet.
Proof.
  unfold manageForexWallet.
  repeat first
    [ apply keeps_convert_back; intros ? []; reflexivity
    | frame_step ].
Qed.
(** ** The registry *)

Lemma shares_identity_test (nm : string) (p : Z) (a : Account) :
  String.eqb (name a) nm || (pin a =? p) = true <-> shares_identity nm p a.
Proof.
  unfold shares_identity.
  rewrite orb_true_iff, String.eqb_eq, Z.eqb_eq. reflexivity.
Qed.

(** The loop of [accountExists] scans the slots [i .. i + n - 1]. *)
Lemma accountExists_loop_scan (n : nat) (nm : string) (p : Z) (w : World) :
  forall i : Z,
    0 <= i ->
    (Z.to_nat i + n <= length (accounts w))%nat ->
    exists b, accountExists_loop n i nm p w = Some (b, w) /\
              (b = true <->
               Exists (shares_identity nm p) (take n (drop (Z.to_nat i) (accounts w)))).
Proof.
  induction n as [|n IH]; intros i Hi Hlen.
  - exists false. split; [reflexivity|]. simpl.
    rewrite Exists_nil. split; [discriminate | tauto].
  - destruct (read_account_Some i w ltac:(lia)) as (a & Ea & Er).
    cbn [accountExists_loop]. rewrite (bind_Some _ _ _ _ _ Er).
    assert (Ed : drop (Z.to_nat i) (accounts w)
                 = a :: drop (Z.to_nat (i + 1)) (accounts w)).
    { replace (Z.to_nat (i + 1)) with (S (Z.to_nat i)) by lia.
      now apply drop_S. }
    rewrite Ed. cbn [take]. 
    destruct (String.eqb (name a) nm || (pin a =? p)) eqn:T.
    + exists true. split; [reflexivity|]. split; [| reflexivity].
      intros _. apply Exists_cons_hd. now apply shares_identity_test.
    + destruct (IH (i + 1) ltac:(lia) ltac:(lia)) as (b & Eb & Hb).
      exists b. split; [exact Eb|]. rewrite Hb, Exists_cons.
      split; [tauto|]. intros [H|H]; [| exact H].
      apply shares_identity_test in H. congruence.
Qed.

Lemma accountExists_registry (nm : string) (p : Z) (w : World) :
  0 <= accountCount w <= Z.of_nat (length (accounts w)) ->
  exists b, accountExists nm p w = Some (b, w) /\
            (b = true <-> Exists (shares_identity nm p) (registry w)).
Proof.
  intros H. unfold accountExists, bind, get.
  destruct (accountExists_loop_scan (Z.to_nat (accountCount w)) nm p w 0
              ltac:(lia) ltac:(lia)) as (b & Eb & Hb).
  exists b. split; [exact Eb|]. now rewrite drop_0 in Hb.
Qed.

(** With room on the device for the count and the records, the file
    written holds them all and ends there. *)
Lemma written_whole (d : Disk) (n : Z) (records : list Account) :
  (length records < d_room d)%nat ->
  written d n records = mkFileData (Some n) records.
Proof.
  intros H. unfold written. destruct (d_room d) as [|room]; [lia|].
  rewrite take_ge by lia. rewrite lookup_ge_None_2 by lia. reflexivity.
Qed.

(** [saveAccounts] is defined whenever the count is within the array, and
    touches nothing but the disk; with room on the device it succeeds and
    the file holds the registry. *)
Lemma saveAccounts_returns (w : World) :
  0 <= accountCount w <= Z.of_nat (length (accounts w)) ->
  exists result d,
    saveAccounts w = Some (result, set_disk d w) /\
    (result = SUCCESS \/ result = ERROR_FILE_IO) /\
    (d_openable (disk w) = false -> result = ERROR_FILE_IO /\ d = disk w) /\
    (d_openable (disk w) = true ->
     (Z.to_nat (accountCount w) < d_room (disk w))%nat ->
     result = SUCCESS /\
     d_file d = Some (mkFileData (Some (accountCount w)) (registry w)) /\
     d_openable d = true).
Proof.
  intros H. unfold saveAccounts.
  destruct (d_openable (disk w)) eqn:Eo; cbn [negb].
  2:{ exists ERROR_FILE_IO, (disk w). split; [now destruct w|].
      repeat split; try discriminate; auto. }
  destruct (d_room (disk w) + d_buffer (disk w))%nat as [|taken] eqn:Er.
  { eexists ERROR_FILE_IO, _. split; [reflexivity|].
    repeat split; try discriminate; auto; lia. }
  replace (_ || _) with false by (symmetry; apply orb_false_iff; split; lia).
  assert (Hlr : length (registry w) = Z.to_nat (accountCount w))
    by (unfold registry; rewrite length_take; lia).
  fold (registry w).
  destruct (_ =? _) eqn:El.
  - eexists SUCCESS, _. split; [reflexivity|].
    repeat split; auto; try discriminate.
    cbn [d_file]. now rewrite written_whole by lia.
  - eexists ERROR_FILE_IO, _. split; [reflexivity|].
    split; [auto|]. split; [discriminate|].
    intros _ Hroom. apply Z.eqb_neq in El. lia.
Qed.

(** [register] is the part of [createAccount] that follows the reading
    of the name and the PIN.  Whenever an account of the registry has the
    same name or the same PIN it returns [ERROR_ACCOUNT_EXISTS] and
    changes nothing.  Otherwise, the array having a free slot, it appends
    the account built by [initializeAccount], whose balance is
    [STARTING_BALANCE] = 1000 and whose loan and six holdings are zero, and
    returns what [saveAccounts] returns: whenever the file can be opened
    and the device has room, that is [SUCCESS] and the data file holds the
    new count and the whole registry. *)
Lemma register_spec (w : World) (nm : string) (p : Z) :
  0 <= accountCount w <= Z.of_nat (length (accounts w)) ->
  (Exists (shares_identity nm p) (registry w) ->
   register nm p w = Some (ERROR_ACCOUNT_EXISTS, w)) /\
  (~ Exists (shares_identity nm p) (registry w) ->
   accountCount w < Z.of_nat (length (accounts w)) ->
   exists result w',
     register nm p w = Some (result, w') /\
     accountCount w' = accountCount w + 1 /\
     registry w' = registry w ++ [initializeAccount nm p] /\
     pin (initializeAccount nm p) = p /\
     balance (initializeAccount nm p) = STARTING_BALANCE /\
     STARTING_BALANCE = F32.of_int 1000 /\
     loan (initializeAccount nm p) = F32.zero /\
     assets (initializeAccount nm p) = mkMarketPrices F32.zero F32.zero F32.zero /\
     currencies (initializeAccount nm p) = mkExchangeRates F32.zero F32.zero F32.zero /\
     (result = SUCCESS \/ result = ERROR_FILE_IO) /\
     (d_openable (disk w) = true ->
      (Z.to_nat (accountCount w) + 1 < d_room (disk w))%nat ->
      result = SUCCESS /\
      d_file (disk w')
      = Some (mkFileData (Some (accountCount w')) (registry w')))).
Proof.
  intros Hc.
  destruct (accountExists_registry nm p w Hc) as (b & Eb & Hb).
  unfold register. rewrite (bind_Some _ _ _ _ _ Eb).
  split; [intros Hdup | intros Hdup Hfree].
  - apply Hb in Hdup. now subst b.
  - destruct b; [exfalso; apply Hdup, Hb; reflexivity |].
    unfold bind at 1, get. unfold bind at 1, write_account.
    replace (_ && _) with true by (symmetry; apply andb_true_iff; split; lia).
    unfold bind at 1, update.
    set (new := initializeAccount nm p).
    set (w1 := set_accountCount _ _).
    assert (Hreg : registry w1 = registry w ++ [new]).
    { unfold registry, w1. cbn.
      replace (Z.to_nat (accountCount w + 1)) with (S (Z.to_nat (accountCount w))) by lia.
      assert (Hl : (Z.to_nat (accountCount w) < length (accounts w))%nat) by lia.
      destruct (lookup_lt_is_Some_2 _ _ Hl) as [old Hold].
      rewrite (take_S_r _ _ new).
      - rewrite take_insert_ge by lia. reflexivity.
      - apply list_lookup_insert_eq. exact Hl. }
    destruct (saveAccounts_returns w1) as (result & d & Es & Hr & _ & Hroom).
    { unfold w1. cbn. rewrite length_insert. lia. }
    rewrite (bind_Some _ _ _ _ _ Es).
    assert (Hfin : exists w',
               ((let* _ := if ErrorCode_eqb result SUCCESS then print OutSuccess else ret tt
                 in ret result) (set_disk d w1)) = Some (result, w') /\
               accountCount w' = accountCount w1 /\ accounts w' = accounts w1 /\
               disk w' = d).
    { destruct (ErrorCode_eqb result SUCCESS); eexists; (split; [reflexivity|]); auto. }
    destruct Hfin as (w' & Ew' & Hcount & Hacc & Hdisk).
    exists result, w'. split; [exact Ew'|].
    assert (Hreg' : registry w' = registry w1)
      by (unfold registry; now rewrite Hcount, Hacc).
    rewrite Hreg', Hreg, Hcount, Hdisk.
    repeat split; auto.
    + apply Hroom; [exact H | unfold w1; cbn; lia].
    + destruct Hroom as (_ & -> & _); [exact H | unfold w1; cbn; lia |].
      now rewrite Hreg.
Qed.

(** Through [createAccount]: when the registry is not full and the two
    input loops read [nm] and [p], the outcome is that of [register]. *)
Lemma createAccount_register (w : World) nm p rest1 out1 rest2 out2 :
  accountCount w < MAX_ACCOUNTS ->
  name_loop (stdin w) [] = Some (nm, rest1, out1) ->
  pin_loop rest1 [] = Some (p, rest2, out2) ->
  createAccount w
  = register nm p (set_stdout ((stdout w ++ out1) ++ out2) (set_stdin rest2 w)).
Proof.
  intros Hc Hn Hp. unfold createAccount, bind at 1, get.
  replace (MAX_ACCOUNTS <=? accountCount w) with false by lia.
  unfold bind at 1, read_name. rewrite Hn.
  unfold bind at 1, read_pin. cbn. rewrite Hp. reflexivity.
Qed.

(** Claim C3, amended.  On a full registry ([accountCount] at least
    [MAX_ACCOUNTS]) [createAccount] returns [ERROR_INVALID_INPUT], the code
    of every invalid input, after printing a line about the limit; it reads
    no input and leaves the registry, the session and the data file as they
    were. *)
Theorem createAccount_full (w : World) :
  MAX_ACCOUNTS <= accountCount w ->
  createAccount w
  = Some (ERROR_INVALID_INPUT, set_stdout (stdout w ++ [OutErrorText]) w).
Proof.
  intros H. unfold createAccount, bind, get.
  now replace (MAX_ACCOUNTS <=? accountCount w) with true by lia.
Qed.

(** Claim C9.  A registry of [accountCount w] accounts, between 0 and
    [MAX_ACCOUNTS], is saved successfully when the file can be opened and
    has room; [loadAccounts], run afterwards on that file from any state
    [v] of the array, succeeds and yields a registry with the same count
    and the same accounts, field for field.  The registry with no account
    is the case [accountCount w = 0]. *)
Theorem save_load_round_trip (w v : World) :
  0 <= accountCount w <= MAX_ACCOUNTS ->
  Z.of_nat (length (accounts w)) = MAX_ACCOUNTS ->
  Z.of_nat (length (accounts v)) = MAX_ACCOUNTS ->
  d_openable (disk w) = true ->
  (Z.to_nat (accountCount w) < d_room (disk w))%nat ->
  exists w',
    saveAccounts w = Some (SUCCESS, w') /\
    accounts w' = accounts w /\ accountCount w' = accountCount w /\
    exists v',
      loadAccounts (set_disk (disk w') v) = Some (SUCCESS, v') /\
      accountCount v' = accountCount w /\
      registry v' = registry w /\
      length (registry v') = Z.to_nat (accountCount w).
Proof.
  intros Hc Hlw Hlv Ho Hroom.
  destruct (saveAccounts_returns w ltac:(lia)) as (r & d & Es & _ & _ & Hs).
  destruct (Hs Ho Hroom) as (-> & Hf & Hod).
  exists (set_disk d w). split; [exact Es|]. split; [reflexivity|].
  split; [reflexivity|].
  assert (Hlr : length (registry w) = Z.to_nat (accountCount w))
    by (unfold registry; rewrite length_take; lia).
  unfold loadAccounts. cbn [disk set_disk]. rewrite Hf, Hod.
  unfold mkFileData. cbn [negb f_count f_records].
  assert (Hn : size_t_of_int (accountCount w) = accountCount w).
  { unfold size_t_of_int. apply Z.mod_small. unfold MAX_ACCOUNTS in *. lia. }
  rewrite Hn, Hlr, Z2Nat.id, Z.ltb_irrefl, Hlr by lia.
  cbn [accounts set_disk].
  replace (length (accounts v) <? Z.to_nat (accountCount w))%nat with false
    by (symmetry; apply Nat.ltb_ge; lia).
  rewrite Z2Nat.id, Z.eqb_refl by lia.
  eexists. split; [reflexivity|]. split; [reflexivity|].
  assert (Hreg : forall k u,
             registry (set_accounts (registry w ++ k)
                                    (set_accountCount (accountCount w) u))
             = registry w).
  { intros k u. unfold registry at 1. cbn [accounts accountCount set_accounts set_accountCount].
    rewrite <- Hlr. apply take_app_length. }
  rewrite Hreg. split; [reflexivity | exact Hlr].
Qed.

(** ** The selected account *)

Lemma current_user_run (w : World) (user : Account) :
  logged_in w user -> current_user w = Some (user, w).
Proof.
  intros [H0 E]. unfold current_user, bind, get, read_account.
  fold (selected w). rewrite E. now replace (0 <=? _) with true by lia.
Qed.

Lemma modify_user_run (f : Account -> Account) (w : World) (user : Account) :
  logged_in w user -> modify_user f w = Some (tt, put_user (f user) w).
Proof.
  intros [H0 E]. unfold modify_user, bind, get, read_account, write_account.
  fold (selected w). rewrite E.
  pose proof (lookup_lt_Some _ _ _ E) as Hlt. unfold selected in Hlt.
  replace (0 <=? _) with true by lia.
  now replace (_ <? _) with true by lia.
Qed.

Lemma logged_in_put_user (w : World) (user a : Account) :
  logged_in w user -> logged_in (put_user a w) a.
Proof.
  intros [H0 E]. split; [exact H0|]. unfold put_user, selected. cbn.
  apply list_lookup_insert_eq. eapply lookup_lt_Some. exact E.
Qed.

Lemma put_user_put_user (a b : Account) (w : World) :
  put_user b (put_user a w) = put_user b w.
Proof.
  unfold put_user, selected. cbn. unfold set_accounts. cbn.
  now rewrite list_insert_insert_eq.
Qed.

Lemma getIntInput_run (w : World) :
  getIntInput w = Some (entered w, consume_line w).
Proof. unfold getIntInput, entered, consume_line. now destruct (stdin w). Qed.

Lemma getFloatInput_run (w : World) :
  getFloatInput w = Some (entered_float w, consume_line w).
Proof. unfold getFloatInput, entered_float, consume_line. now destruct (stdin w). Qed.

Lemma accounts_consume_line (w : World) : accounts (consume_line w) = accounts w.
Proof. unfold consume_line. now destruct (stdin w). Qed.

Lemma logged_in_consume_line (w : World) (user : Account) :
  logged_in w user -> logged_in (consume_line w) user.
Proof. unfold consume_line. now destruct (stdin w). Qed.

Lemma verifyPIN_run (w : World) (user : Account) :
  logged_in w user -> verifyPIN w = Some (pin_ok w user, consume_line w).
Proof.
  intros H. unfold verifyPIN. rewrite (bind_Some _ _ _ _ _ (getIntInput_run w)).
  unfold pin_ok. destruct (entered w) as [p|]; [| reflexivity].
  now rewrite (bind_Some _ _ _ _ _ (current_user_run _ _ (logged_in_consume_line _ _ H))).
Qed.

Lemma pin_ok_false (w : World) (user : Account) :
  entered w <> Some (pin user) -> pin_ok w user = false.
Proof.
  unfold pin_ok. destruct (entered w) as [p|]; [| reflexivity].
  intros H. apply Z.eqb_neq. congruence.
Qed.

Lemma print_run (o : Output) (w : World) :
  print o w = Some (tt, set_stdout (stdout w ++ [o]) w).
Proof. reflexivity. Qed.

(** ** Withdrawal *)

(** On a balance that is not negative an amount above the balance is
    positive, so the first guard does not intercept it. *)
Lemma above_nonnegative_balance (b amount : float) :
  F32.leb F32.zero b = true -> F32.ltb b amount = true ->
  F32.leb amount F32.zero = false.
Proof.
  unfold F32.leb, F32.ltb, F32.zero, SFleb, SFltb.
  destruct b as [sb|sb| |sb mb eb], amount as [sa|sa| |sa ma ea]; cbn;
    try destruct sb; try destruct sa; cbn; congruence.
Qed.

Lemma withdrawCash_insufficient (w : World) (user : Account) (amount : float) :
  logged_in w user ->
  F32.leb F32.zero (balance user) = true ->
  F32.ltb (balance user) amount = true ->
  withdrawCash amount w = Some (ERROR_INSUFFICIENT_FUNDS, w).
Proof.
  intros Hu Hb Hlt. unfold withdrawCash.
  rewrite (above_nonnegative_balance _ _ Hb Hlt).
  rewrite (bind_Some _ _ _ _ _ (current_user_run _ _ Hu)).
  now rewrite Hlt.
Qed.

(** Claim C4.  On every account whose balance is not negative, and for
    every amount: [withdrawCash] of an amount above the balance returns
    [ERROR_INSUFFICIENT_FUNDS]; of an amount [<= 0] it returns
    [ERROR_INVALID_INPUT]; and when the amount has passed both checks and
    the PIN is asked again, a line that does not convert to the PIN of the
    account makes it return [ERROR_INVALID_PIN].  In the first two cases
    the state is unchanged; in the third only the PIN line is consumed and
    the array of accounts, so every field of every account, is
    unchanged. *)
Theorem withdrawCash_failures (w : World) (user : Account) (amount : float) :
  logged_in w user ->
  F32.leb F32.zero (balance user) = true ->
  (F32.ltb (balance user) amount = true ->
   withdrawCash amount w = Some (ERROR_INSUFFICIENT_FUNDS, w)) /\
  (F32.leb amount F32.zero = true ->
   withdrawCash amount w = Some (ERROR_INVALID_INPUT, w)) /\
  (F32.leb amount F32.zero = false ->
   F32.ltb (balance user) amount = false ->
   entered w <> Some (pin user) ->
   withdrawCash amount w = Some (ERROR_INVALID_PIN, consume_line w) /\
   accounts (consume_line w) = accounts w).
Proof.
  intros Hu Hb. split; [| split].
  - intros Hlt. now apply (withdrawCash_insufficient w user).
  - intros Hle. unfold withdrawCash. now rewrite Hle.
  - intros Hle Hlt Hpin. unfold withdrawCash. rewrite Hle.
    split; [| apply accounts_consume_line].
    rewrite (bind_Some _ _ _ _ _ (current_user_run _ _ Hu)).
    rewrite Hlt, (bind_Some _ _ _ _ _ (verifyPIN_run _ _ Hu)).
    now rewrite (pin_ok_false _ _ Hpin).
Qed.

(** ** Loans *)

Lemma saveAccounts_frame (w : World) :
  0 <= accountCount w <= Z.of_nat (length (accounts w)) ->
  exists result d, saveAccounts w = Some (result, set_disk d w).
Proof.
  intros H. destruct (saveAccounts_returns w H) as (r & d & E & _).
  now exists r, d.
Qed.

(** Claim C5, amended.  With the PIN verified and the request confirmed,
    [manageLoan] on an account whose loan is zero sets the loan to
    [LOAN_AMOUNT] = 500 and the balance to the sum of the balance and
    [LOAN_AMOUNT], rounded to single precision.  On an account whose loan
    is not zero it reports no loan error and grants no second loan: a
    wrong PIN, a balance below the loan and a repayment that is declined
    each leave the accounts unchanged, and a repayment that is confirmed
    sets the loan to zero and takes it off the balance. *)
Theorem manageLoan_spec (w : World) (user : Account) :
  well_formed w ->
  logged_in w user ->
  (F32.eqb (loan user) F32.zero = true ->
   entered w = Some (pin user) ->
   confirmed (entered (consume_line w)) = true ->
   exists w',
     manageLoan w = Some (tt, w') /\
     accounts w' = <[selected w := loan_taken user]> (accounts w) /\
     loan (loan_taken user) = LOAN_AMOUNT /\
     balance (loan_taken user) = F32.add (balance user) LOAN_AMOUNT /\
     LOAN_AMOUNT = F32.of_int 500 /\
     stdout w' = stdout w ++ [OutSuccess]) /\
  (F32.eqb (loan user) F32.zero = false ->
   (pin_ok w user = false ->
    exists w',
      manageLoan w = Some (tt, w') /\
      accounts w' = accounts w /\
      stdout w' = stdout w ++ [OutError ERROR_INVALID_PIN]) /\
   (pin_ok w user = true ->
    F32.leb (loan user) (balance user) = false ->
    exists w',
      manageLoan w = Some (tt, w') /\
      accounts w' = accounts w /\
      stdout w' = stdout w ++ [OutInfo]) /\
   (pin_ok w user = true ->
    F32.leb (loan user) (balance user) = true ->
    confirmed (entered (consume_line w)) = false ->
    exists w',
      manageLoan w = Some (tt, w') /\
      accounts w' = accounts w /\
      stdout w' = stdout w ++ [OutCancelled]) /\
   (pin_ok w user = true ->
    F32.leb (loan user) (balance user) = true ->
    confirmed (entered (consume_line w)) = true ->
    exists w',
      manageLoan w = Some (tt, w') /\
      accounts w' = <[selected w := loan_repaid user]> (accounts w) /\
      loan (loan_repaid user) = F32.zero /\
      balance (loan_repaid user) = F32.sub (balance user) (loan user) /\
      stdout w' = stdout w ++ [OutSuccess])).
Proof.
  intros Hw Hu.
  assert (Hu1 := logged_in_consume_line _ _ Hu).
  assert (Hu2 := logged_in_consume_line _ _ Hu1).
  assert (Hout : forall v, stdout (consume_line v) = stdout v)
    by (intros v; unfold consume_line; now destruct (stdin v)).
  assert (Hsel : forall v, selected (consume_line v) = selected v)
    by (intros v; unfold consume_line; now destruct (stdin v)).
  assert (Hcnt : forall v, accountCount (consume_line v) = accountCount v)
    by (intros v; unfold consume_line; now destruct (stdin v)).
  unfold manageLoan. rewrite (bind_Some _ _ _ _ _ (verifyPIN_run _ _ Hu)).
  split.
  - intros Hl Hp Hc. unfold pin_ok. rewrite Hp, Z.eqb_refl. cbn [negb].
    rewrite (bind_Some _ _ _ _ _ (current_user_run _ _ Hu1)), Hl.
    rewrite (bind_Some _ _ _ _ _ (getIntInput_run _)), Hc. cbn [negb].
    rewrite (bind_Some _ _ _ _ _ (modify_user_run _ _ _ Hu2)).
    rewrite (bind_Some _ _ _ _ _
               (modify_user_run _ _ _ (logged_in_put_user _ _ _ Hu2))).
    rewrite put_user_put_user, (bind_Some _ _ _ _ _ (print_run _ _)).
    match goal with |- context [bind saveAccounts _ ?v] =>
      destruct (saveAccounts_frame v) as (r & d & Es) end.
    { cbn. rewrite length_insert, !accounts_consume_line, !Hcnt. apply Hw. }
    rewrite (bind_Some _ _ _ _ _ Es).
    eexists. split; [reflexivity|]. cbn.
    rewrite !Hsel, !accounts_consume_line, !Hout. auto.
  - intros Hl. split; [| split; [| split]].
    + intros ->. cbn [negb]. eexists. split; [reflexivity|]. cbn.
      rewrite accounts_consume_line, Hout. auto.
    + intros -> Hle. cbn [negb].
      rewrite (bind_Some _ _ _ _ _ (current_user_run _ _ Hu1)), Hl, Hle.
      eexists. split; [reflexivity|]. cbn.
      rewrite accounts_consume_line, Hout. auto.
    + intros -> Hle Hc. cbn [negb].
      rewrite (bind_Some _ _ _ _ _ (current_user_run _ _ Hu1)), Hl, Hle.
      rewrite (bind_Some _ _ _ _ _ (getIntInput_run _)), Hc. cbn [negb].
      eexists. split; [reflexivity|]. cbn.
      rewrite !accounts_consume_line, !Hout. auto.
    + intros -> Hle Hc. cbn [negb].
      rewrite (bind_Some _ _ _ _ _ (current_user_run _ _ Hu1)), Hl, Hle.
      rewrite (bind_Some _ _ _ _ _ (getIntInput_run _)), Hc. cbn [negb].
      rewrite (bind_Some _ _ _ _ _ (modify_user_run _ _ _ Hu2)).
      rewrite (bind_Some _ _ _ _ _
                 (modify_user_run _ _ _ (logged_in_put_user _ _ _ Hu2))).
      rewrite put_user_put_user, (bind_Some _ _ _ _ _ (print_run _ _)).
      match goal with |- context [bind saveAccounts _ ?v] =>
        destruct (saveAccounts_frame v) as (r & d & Es) end.
      { cbn. rewrite length_insert, !accounts_consume_line, !Hcnt. apply Hw. }
      rewrite (bind_Some _ _ _ _ _ Es).
      eexists. split; [reflexivity|]. cbn.
      rewrite !Hsel, !accounts_consume_line, !Hout. auto.
Qed.

(** ** Currency conversion *)

Lemma exchangeRates_consume_line (w : World) :
  exchangeRates (consume_line w) = exchangeRates w.
Proof. unfold consume_line. now destruct (stdin w). Qed.

Lemma well_formed_consume_line (w : World) :
  well_formed w -> well_formed (consume_line w).
Proof. unfold consume_line. now destruct (stdin w). Qed.

Lemma well_formed_put_user (a : Account) (w : World) :
  well_formed w -> well_formed (put_user a w).
Proof.
  unfold well_formed, put_user. cbn. now rewrite length_insert.
Qed.

(** Choice 1 of the wallet menu, with an amount that passes the guard. *)
Lemma manageForexWallet_to_eur (w : World) (user : Account) (usd : float) :
  well_formed w ->
  logged_in w user ->
  entered w = Some 1 ->
  entered_float (consume_line w) = Some usd ->
  F32.ltb (balance user) usd = false ->
  exists d,
    manageForexWallet w
    = Some (tt, set_disk d
                  (set_stdout (stdout w ++ [OutSuccess])
                     (put_user (to_eur (eur (exchangeRates w)) usd user)
                               (consume_line (consume_line w))))).
Proof.
  intros Hw Hu H1 H2 Hlt.
  assert (Hu1 := logged_in_consume_line _ _ Hu).
  assert (Hu2 := logged_in_consume_line _ _ Hu1).
  assert (Hw2 := well_formed_consume_line _ (well_formed_consume_line _ Hw)).
  assert (Hout : forall v, stdout (consume_line v) = stdout v)
    by (intros v; unfold consume_line; now destruct (stdin v)).
  unfold manageForexWallet.
  rewrite (bind_Some _ _ _ _ _ (current_user_run _ _ Hu)).
  rewrite (bind_Some _ _ _ _ _ (getIntInput_run _)), H1. cbn [Z.leb Z.compare andb Pos.compare Pos.compare_cont].
  rewrite (bind_Some _ _ _ _ _ (getFloatInput_run _)), H2.
  rewrite (bind_Some _ _ _ _ _ (current_user_run _ _ Hu2)), Hlt.
  rewrite (bind_Some _ _ _ _ _ (modify_user_run _ _ _ Hu2)).
  unfold bind at 1, get.
  unfold bind at 1. unfold bind at 1.
  rewrite (modify_user_run _ _ _ (logged_in_put_user _ _ _ Hu2)).
  rewrite put_user_put_user, print_run.
  match goal with |- context [bind saveAccounts _ ?v] =>
    destruct (saveAccounts_frame v) as (r & d & Es) end.
  { cbn. rewrite length_insert. apply Hw2. }
  rewrite (bind_Some _ _ _ _ _ Es).
  exists d. cbn. rewrite !exchangeRates_consume_line, !Hout. reflexivity.
Qed.

(** Choices 1 to 3 of the wallet menu, with an amount above the balance. *)
Lemma manageForexWallet_insufficient (w : World) (user : Account)
      (choice : Z) (usd : float) :
  logged_in w user ->
  entered w = Some choice ->
  1 <= choice <= 3 ->
  entered_float (consume_line w) = Some usd ->
  F32.ltb (balance user) usd = true ->
  manageForexWallet w
  = Some (tt, set_stdout (stdout w ++ [OutError ERROR_INSUFFICIENT_FUNDS])
                (consume_line (consume_line w))).
Proof.
  intros Hu H1 Hc H2 Hlt.
  assert (Hu2 := logged_in_consume_line _ _ (logged_in_consume_line _ _ Hu)).
  assert (Hout : forall v, stdout (consume_line v) = stdout v)
    by (intros v; unfold consume_line; now destruct (stdin v)).
  unfold manageForexWallet.
  rewrite (bind_Some _ _ _ _ _ (current_user_run _ _ Hu)).
  rewrite (bind_Some _ _ _ _ _ (getIntInput_run _)), H1.
  replace ((1 <=? choice) && (choice <=? 3)) with true
    by (symmetry; apply andb_true_iff; split; lia).
  rewrite (bind_Some _ _ _ _ _ (getFloatInput_run _)), H2.
  rewrite (bind_Some _ _ _ _ _ (current_user_run _ _ Hu2)), Hlt.
  unfold displayError. rewrite print_run. now rewrite !Hout.
Qed.

(** Choice 4 of the wallet menu, currency 1, with an amount that passes
    the guard. *)
Lemma manageForexWallet_from_eur (w : World) (user : Account) (units : float) :
  well_formed w ->
  logged_in w user ->
  entered w = Some 4 ->
  entered (consume_line w) = Some 1 ->
  entered_float (consume_line (consume_line w)) = Some units ->
  F32.leb units (eur (currencies user)) = true ->
  exists d,
    manageForexWallet w
    = Some (tt, set_disk d
                  (set_stdout (stdout w ++ [OutSuccess])
                     (put_user (from_eur (eur (exchangeRates w)) units user)
                               (consume_line (consume_line (consume_line w)))))).
Proof.
  intros Hw Hu H1 H2 H3 Hle.
  assert (Hu1 := logged_in_consume_line _ _ Hu).
  assert (Hu2 := logged_in_consume_line _ _ Hu1).
  assert (Hu3 := logged_in_consume_line _ _ Hu2).
  assert (Hw3 := well_formed_consume_line _
                   (well_formed_consume_line _ (well_formed_consume_line _ Hw))).
  assert (Hout : forall v, stdout (consume_line v) = stdout v)
    by (intros v; unfold consume_line; now destruct (stdin v)).
  unfold manageForexWallet.
  rewrite (bind_Some _ _ _ _ _ (current_user_run _ _ Hu)).
  rewrite (bind_Some _ _ _ _ _ (getIntInput_run _)), H1.
  cbn [Z.leb Z.compare andb Pos.compare Pos.compare_cont Z.eqb Pos.eqb].
  rewrite (bind_Some _ _ _ _ _ (getIntInput_run _)), H2.
  rewrite (bind_Some _ _ _ _ _ (getFloatInput_run _)), H3.
  unfold bind at 1, get.
  unfold bind at 1, convert_back.
  rewrite (bind_Some _ _ _ _ _ (current_user_run _ _ Hu3)), Hle.
  rewrite (bind_Some _ _ _ _ _ (modify_user_run _ _ _ Hu3)).
  rewrite (bind_Some _ _ _ _ _
             (modify_user_run _ _ _ (logged_in_put_user _ _ _ Hu3))).
  rewrite put_user_put_user, (bind_Some _ _ _ _ _ (print_run _ _)).
  cbn [ret].
  match goal with |- context [bind saveAccounts _ ?v] =>
    destruct (saveAccounts_frame v) as (r & d & Es) end.
  { cbn. rewrite length_insert. apply Hw3. }
  rewrite (bind_Some _ _ _ _ _ Es).
  exists d. cbn. rewrite !exchangeRates_consume_line, !Hout. reflexivity.
Qed.

Lemma consume_line_cons (w : World) (l : Line) (rest : list Line) :
  stdin w = l :: rest -> consume_line w = set_stdin rest w.
Proof. intros H. unfold consume_line. now rewrite H. Qed.

Lemma entered_cons (w : World) (l : Line) (rest : list Line) :
  stdin w = l :: rest -> entered w = scan_d l.
Proof. intros H. unfold entered. now rewrite H. Qed.

Lemma entered_float_cons (w : World) (l : Line) (rest : list Line) :
  stdin w = l :: rest -> entered_float w = scan_f l.
Proof. intros H. unfold entered_float. now rewrite H. Qed.

(** USD -> EUR of [usd], when the guard of the balance lets it pass,
    followed by EUR -> USD of the units just credited, at the same rate,
    succeeds twice when the units pass the holdings guard, and leaves the
    balance [(balance - usd) + (usd / rate) * rate], each operation
    rounded to single precision. *)
Lemma eur_there_and_back (w : World) (user : Account) (usd : float)
        (l1 l2 l3 l4 l5 : Line) (rest : list Line) :
  let rate := eur (exchangeRates w) in
  let units := F32.div usd rate in
  well_formed w ->
  logged_in w user ->
  stdin w = l1 :: l2 :: l3 :: l4 :: l5 :: rest ->
  scan_d l1 = Some 1 -> scan_f l2 = Some usd ->
  scan_d l3 = Some 4 -> scan_d l4 = Some 1 -> scan_f l5 = Some units ->
  F32.ltb (balance user) usd = false ->
  F32.leb units (F32.add (eur (currencies user)) units) = true ->
  exists w1 w2 user1 user2,
    manageForexWallet w = Some (tt, w1) /\
    logged_in w1 user1 /\
    eur (currencies user1) = F32.add (eur (currencies user)) units /\
    manageForexWallet w1 = Some (tt, w2) /\
    logged_in w2 user2 /\
    stdout w2 = stdout w ++ [OutSuccess; OutSuccess] /\
    balance user2
    = F32.add (F32.sub (balance user) usd) (F32.mul units rate).
Proof.
  intros rate units Hw Hu Hin H1 H2 H3 H4 H5 Hlt Hle.
  destruct (manageForexWallet_to_eur w user usd Hw Hu) as (d1 & E1); auto.
  { now rewrite (entered_cons _ _ _ Hin). }
  { rewrite (consume_line_cons _ _ _ Hin).
    now rewrite (entered_float_cons (set_stdin _ w) l2 _ eq_refl). }
  rewrite (consume_line_cons _ _ _ Hin) in E1.
  rewrite (consume_line_cons (set_stdin _ w) l2 _ eq_refl) in E1.
  fold rate in E1.
  remember (to_eur rate usd user) as user1 eqn:Euser1.
  remember (set_stdin (l3 :: l4 :: l5 :: rest) (set_stdin (l2 :: l3 :: l4 :: l5 :: rest) w))
    as w0 eqn:Ew0.
  assert (Hin0 : stdin w0 = l3 :: l4 :: l5 :: rest) by now subst w0.
  assert (Hu0 : logged_in w0 user) by now subst w0.
  assert (Hw0 : well_formed w0) by now subst w0.
  assert (Hr0 : eur (exchangeRates w0) = rate) by now subst w0.
  assert (Ho0 : stdout w0 = stdout w) by now subst w0.
  clear Ew0.
  remember (set_disk d1 (set_stdout (stdout w ++ [OutSuccess]) (put_user user1 w0)))
    as w1 eqn:Ew1.
  assert (Hin1 : stdin w1 = l3 :: l4 :: l5 :: rest) by now subst w1.
  assert (Hu1 : logged_in w1 user1)
    by (subst w1; exact (logged_in_put_user _ _ _ Hu0)).
  assert (Hw1 : well_formed w1)
    by (subst w1; exact (well_formed_put_user _ _ Hw0)).
  assert (Hr1 : eur (exchangeRates w1) = rate) by now subst w1.
  assert (Ho1 : stdout w1 = stdout w ++ [OutSuccess]) by now subst w1.
  clear Ew1.
  assert (Heur : eur (currencies user1) = F32.add (eur (currencies user)) units)
    by now subst user1.
  assert (Hbal : balance user1 = F32.sub (balance user) usd) by now subst user1.
  destruct (manageForexWallet_from_eur w1 user1 units Hw1 Hu1) as (d2 & E2).
  { now rewrite (entered_cons _ _ _ Hin1). }
  { rewrite (consume_line_cons _ _ _ Hin1).
    now rewrite (entered_cons (set_stdin _ w1) l4 _ eq_refl). }
  { rewrite (consume_line_cons _ _ _ Hin1).
    rewrite (consume_line_cons (set_stdin _ w1) l4 _ eq_refl).
    now rewrite (entered_float_cons (set_stdin _ (set_stdin _ w1)) l5 _ eq_refl). }
  { now rewrite Heur. }
  rewrite Hr1 in E2.
  eexists w1, _, user1, _.
  split; [exact E1|]. split; [exact Hu1|]. split; [exact Heur|].
  split; [exact E2|]. split.
  - apply (logged_in_put_user _ user1).
    repeat apply logged_in_consume_line. exact Hu1.
  - split.
    + cbn. rewrite Ho1, <- app_assoc. reflexivity.
    + cbn. now rewrite Hbal.
Qed.

(** ** The frame of the ledger *)

Lemma keeps_perform (op : Operation) : keeps_frame (perform op).
Proof.
  destruct op; cbn [perform];
    auto using keeps_purchaseAsset, keeps_manageLoan, keeps_addInterest,
               keeps_manageForexWallet;
    (apply keeps_bind; [| intros; apply keeps_ret]);
    auto using keeps_depositCash, keeps_withdrawCash.
Qed.

(** Claim C10.  Every ledger operation, run in a state whose session and
    registry are within the array, returns; every account other than the
    selected one is unchanged, the array keeps its length and the registry
    its count, and the selected account keeps its name and its PIN. *)
Theorem ledger_frame (op : Operation) (w : World) :
  well_formed w ->
  exists w',
    perform op w = Some (tt, w') /\
    length (accounts w') = length (accounts w) /\
    accountCount w' = accountCount w /\
    (forall j : nat, j <> selected w -> accounts w' !! j = accounts w !! j) /\
    exists user user',
      accounts w !! selected w = Some user /\
      accounts w' !! selected w = Some user' /\
      name user' = name user /\ pin user' = pin user.
Proof.
  intros Hw. destruct (keeps_perform op w Hw) as ([] & w' & E & [L C I O N]).
  exists w'. repeat split; auto.
  destruct (current_user_Some w Hw) as (user & Eu & _).
  rewrite Eu in N.
  destruct (accounts w' !! selected w) as [user'|]; [| discriminate].
  exists user, user'. injection N as Hn Hp. auto.
Qed.

(** ** Runs of the program *)

Ltac evaluate := vm_compute; first [reflexivity | discriminate | lia].

Ltac evaluate_well_formed := split; split; evaluate.

Ltac evaluate_logged_in := split; evaluate.

(** *** The balance invariant *)

(** Claim C1 fails on the code.  A new customer registers, logs in and
    asks the wallet to convert -1000 EUR to USD: the amount passes the
    guard [amount <= holdings], no error is displayed, and the balance of
    the account becomes -100. *)
Theorem negative_balance_reachable :
  exists w user,
    main 3 (initial_world overdraw first_run []) = Some (UserMenu, w) /\
    logged_in w user /\
    stdout w = [OutInfo; OutSuccess; OutSuccess; OutSuccess] /\
    balance user = F32.of_int (-100) /\
    F32.leb F32.zero (balance user) = false.
Proof.
  eexists _, _. split; [evaluate|]. split; [evaluate_logged_in|].
  repeat split; evaluate.
Qed.

(** *** Registration *)

(** Claim C2 fails on the code.  On a device with no room left, where
    the few bytes written stay in the buffer of the stream until [fclose],
    whose result [saveAccounts] does not look at, the registration of
    alice returns [SUCCESS] and is reported as a success, but the data
    file it leaves is empty: the next run of the program fails to load it
    and starts with no account. *)
Theorem registration_reported_but_lost :
  exists w0 w v,
    register "alice"%string 1234 (initial_world [] full_device [])
    = Some (SUCCESS, w0) /\
    main 1 (initial_world [number 1; word "alice"%string; number 1234]
                          full_device [])
    = Some (MainMenu, w) /\
    stdout w = [OutInfo; OutSuccess] /\
    registry w = [alice_account] /\
    d_file (disk w) = Some (mkFileData None []) /\
    main 0 (initial_world [] (disk w) []) = Some (MainMenu, v) /\
    stdout v = [OutWarning] /\
    registry v = [].
Proof.
  eexists _, _, _. split; [evaluate|]. split; [evaluate|].
  split; [evaluate|]. split; [evaluate|]. split; [evaluate|].
  split; [evaluate|]. split; evaluate.
Qed.

(** An instance of [register_spec] where the device has room: with alice
    (PIN 1234) registered, her name with another PIN and another name with
    her PIN are refused; bob with PIN 4321 is appended and saved. *)
Lemma register_spec_example :
  register "alice"%string 9999 (state_after 2 alice)
  = Some (ERROR_ACCOUNT_EXISTS, state_after 2 alice) /\
  register "bob"%string 1234 (state_after 2 alice)
  = Some (ERROR_ACCOUNT_EXISTS, state_after 2 alice) /\
  exists w',
    register "bob"%string 4321 (state_after 2 alice) = Some (SUCCESS, w') /\
    registry w' = [alice_account; initializeAccount "bob"%string 4321] /\
    d_file (disk w') = Some (mkFileData (Some 2) (registry w')).
Proof.
  assert (Hc : 0 <= accountCount (state_after 2 alice)
               <= Z.of_nat (length (accounts (state_after 2 alice))))
    by (split; evaluate).
  assert (Hr : registry (state_after 2 alice) = [alice_account]) by evaluate.
  split; [| split].
  - apply (register_spec _ "alice"%string 9999 Hc).
    rewrite Hr. apply Exists_cons_hd. left. reflexivity.
  - apply (register_spec _ "bob"%string 1234 Hc).
    rewrite Hr. apply Exists_cons_hd. right. reflexivity.
  - destruct (register_spec _ "bob"%string 4321 Hc) as [_ Hfresh].
    destruct Hfresh as (result & w' & E & Hn & Hreg & _ & _ & _ & _ & _ & _ & _ & Hok).
    + rewrite Hr, Exists_cons, Exists_nil.
      intros [[H|H]|[]]; vm_compute in H; discriminate H.
    + evaluate.
    + destruct Hok as [-> Hfile]; [evaluate | evaluate |].
      exists w'. split; [exact E|].
      rewrite Hreg, Hr. split; [reflexivity|].
      rewrite Hfile, Hn, Hreg, Hr. reflexivity.
Defined.

(** Claim C3 as stated fails.  After one hundred registrations
    [createAccount] returns [ERROR_INVALID_INPUT], the code [depositCash]
    returns for the amount 0: the full registry has no error code of its
    own. *)
Lemma capacity_error_not_distinct :
  exists w e,
    main 100 (initial_world crowd first_run []) = Some (MainMenu, w) /\
    accountCount w = MAX_ACCOUNTS /\
    stdin w = [word "zed"%string; number 9999] /\
    createAccount w = Some (e, set_stdout (stdout w ++ [OutErrorText]) w) /\
    depositCash F32.zero w = Some (e, w) /\
    e = ERROR_INVALID_INPUT.
Proof.
  eexists _, _. split; [evaluate|]. repeat split; evaluate.
Qed.

(** Claim C3, instance of [createAccount_full] after one hundred
    registrations. *)
Lemma createAccount_full_witness :
  createAccount (state_after 100 crowd)
  = Some (ERROR_INVALID_INPUT,
          set_stdout (stdout (state_after 100 crowd) ++ [OutErrorText])
                     (state_after 100 crowd)).
Proof.
  apply (createAccount_full (state_after 100 crowd)). evaluate.
Defined.

(** *** Withdrawal *)

(** Claim C4, instance of [withdrawCash_failures] on a new account:
    the amounts 2000 and -5, and the amount 10 with the PIN 4321 entered. *)
Lemma withdrawCash_failures_witness :
  let w := state_after 2 (alice ++ [number 4321]) in
  withdrawCash (F32.of_int 2000) w = Some (ERROR_INSUFFICIENT_FUNDS, w) /\
  withdrawCash (F32.of_int (-5)) w = Some (ERROR_INVALID_INPUT, w) /\
  withdrawCash (F32.of_int 10) w = Some (ERROR_INVALID_PIN, consume_line w) /\
  accounts (consume_line w) = accounts w.
Proof.
  intros w.
  assert (Hu : logged_in w alice_account) by evaluate_logged_in.
  assert (Hb : F32.leb F32.zero (balance alice_account) = true) by evaluate.
  split; [| split].
  - apply (withdrawCash_failures w alice_account (F32.of_int 2000) Hu Hb). evaluate.
  - apply (withdrawCash_failures w alice_account (F32.of_int (-5)) Hu Hb). evaluate.
  - apply (withdrawCash_failures w alice_account (F32.of_int 10) Hu Hb); evaluate.
Defined.

(** *** Loans *)

(** Claim C5 as stated fails, twice.  With the loan of 500 outstanding,
    the same menu choice with the same answers reports success, not an
    error: it repays the loan.  And on a balance of 67108968 dollars the
    loan of 500 raises the balance by 504, to 67109472: the sum is
    rounded to single precision. *)
Lemma loan_again_repays_and_sum_rounds :
  (exists w1 user1 w2 user2,
     main 3 (initial_world borrow_twice first_run []) = Some (UserMenu, w1) /\
     logged_in w1 user1 /\
     loan user1 = LOAN_AMOUNT /\
     F32.eqb (loan user1) F32.zero = false /\
     user_menu w1 = Some (UserMenu, w2) /\
     logged_in w2 user2 /\
     stdout w2 = stdout w1 ++ [OutSuccess] /\
     loan user2 = F32.zero /\
     balance user2 = STARTING_BALANCE) /\
  (exists w1 user1 w2 user2,
     main 3 (initial_world rich_borrower first_run []) = Some (UserMenu, w1) /\
     logged_in w1 user1 /\
     loan user1 = F32.zero /\
     balance user1 = F32.of_int 67108968 /\
     user_menu w1 = Some (UserMenu, w2) /\
     logged_in w2 user2 /\
     stdout w2 = stdout w1 ++ [OutSuccess] /\
     loan user2 = F32.of_int 500 /\
     balance user2 = F32.of_int 67109472 /\
     F32.sub (balance user2) (balance user1) = F32.of_int 504).
Proof.
  split.
  - eexists _, _, _, _. split; [evaluate|]. split; [evaluate_logged_in|].
    do 2 (split; [evaluate|]). split; [evaluate|]. split; [evaluate_logged_in|].
    repeat split; evaluate.
  - eexists _, _, _, _. split; [evaluate|]. split; [evaluate_logged_in|].
    do 2 (split; [evaluate|]). split; [evaluate|]. split; [evaluate_logged_in|].
    repeat split; evaluate.
Qed.

(** Claim C5, instance of [manageLoan_spec]: on a new account the loan
    is taken and the balance becomes 1500; on the account with the loan
    outstanding, a wrong PIN and a declined repayment change nothing, and
    the confirmed repayment brings the balance back to 1000. *)
Lemma manageLoan_spec_witness :
  let w := state_after 2 (alice ++ [number 1234; number 1]) in
  let borrowed := alice ++ [number 3; number 1234; number 1] in
  let w1 := state_after 3 (borrowed ++ [number 4321]) in
  let w2 := state_after 3 (borrowed ++ [number 1234; number 0]) in
  let w3 := state_after 3 (borrowed ++ [number 1234; number 1]) in
  (exists w', manageLoan w = Some (tt, w') /\
              accounts w' = <[selected w := loan_taken alice_account]> (accounts w) /\
              balance (loan_taken alice_account) = F32.of_int 1500 /\
              stdout w' = stdout w ++ [OutSuccess]) /\
  (exists w', manageLoan w1 = Some (tt, w') /\
              accounts w' = accounts w1 /\
              stdout w' = stdout w1 ++ [OutError ERROR_INVALID_PIN]) /\
  (exists w', manageLoan w2 = Some (tt, w') /\
              accounts w' = accounts w2 /\
              stdout w' = stdout w2 ++ [OutCancelled]) /\
  (exists w', manageLoan w3 = Some (tt, w') /\
              accounts w'
              = <[selected w3 := loan_repaid (loan_taken alice_account)]> (accounts w3) /\
              balance (loan_repaid (loan_taken alice_account)) = STARTING_BALANCE /\
              stdout w' = stdout w3 ++ [OutSuccess]).
Proof.
  intros w borrowed w1 w2 w3. split; [| split; [| split]].
  - assert (Hw : well_formed w) by evaluate_well_formed.
    assert (Hu : logged_in w alice_account) by evaluate_logged_in.
    destruct (manageLoan_spec w alice_account Hw Hu) as [Htake _].
    destruct Htake as (w' & E & Ha & _ & _ & _ & Ho);
      [evaluate | evaluate | evaluate |].
    exists w'. split; [exact E|]. split; [exact Ha|]. split; [evaluate | exact Ho].
  - assert (Hw : well_formed w1) by evaluate_well_formed.
    assert (Hu : logged_in w1 (loan_taken alice_account)) by evaluate_logged_in.
    destruct (manageLoan_spec w1 (loan_taken alice_account) Hw Hu) as [_ Hagain].
    destruct Hagain as (Hpin & _); [evaluate|].
    apply Hpin. evaluate.
  - assert (Hw : well_formed w2) by evaluate_well_formed.
    assert (Hu : logged_in w2 (loan_taken alice_account)) by evaluate_logged_in.
    destruct (manageLoan_spec w2 (loan_taken alice_account) Hw Hu) as [_ Hagain].
    destruct Hagain as (_ & _ & Hno & _); [evaluate|].
    apply Hno; evaluate.
  - assert (Hw : well_formed w3) by evaluate_well_formed.
    assert (Hu : logged_in w3 (loan_taken alice_account)) by evaluate_logged_in.
    destruct (manageLoan_spec w3 (loan_taken alice_account) Hw Hu) as [_ Hagain].
    destruct Hagain as (_ & _ & _ & Hyes); [evaluate|].
    destruct Hyes as (w' & E & Ha & _ & _ & Ho); [evaluate | evaluate | evaluate |].
    exists w'. split; [exact E|]. split; [exact Ha|]. split; [evaluate | exact Ho].
Defined.

(** *** Currency conversion *)

(** Claim C6 fails on the code.  USD -> EUR of -50 dollars on a new
    account displays no error: the balance grows to 1050, the EUR holdings
    become negative, and the result is saved. *)
Theorem negative_conversion_accepted :
  exists w user,
    main 3 (initial_world convert_negative first_run []) = Some (UserMenu, w) /\
    logged_in w user /\
    stdout w = [OutInfo; OutSuccess; OutSuccess; OutSuccess] /\
    balance user = F32.of_int 1050 /\
    eur (currencies user)
    = F32.div (F32.of_int (-50)) (eur initial_exchangeRates) /\
    F32.ltb (eur (currencies user)) F32.zero = true /\
    d_file (disk w) = Some (mkFileData (Some 1) [user]).
Proof.
  eexists _, _. split; [evaluate|]. split; [evaluate_logged_in|].
  repeat split; evaluate.
Qed.

(** Claim C7 fails on the code.  With a balance of 67108968 dollars, an
    invalid asset selection displays [ERROR_INVALID_INPUT] and leaves the
    asset holdings alone, but the balance after the refund is 67108960:
    the subtraction and the addition of 100 each round. *)
Theorem refund_changes_balance :
  exists w1 user1 w2 user2,
    main 3 (initial_world bad_selection first_run []) = Some (UserMenu, w1) /\
    logged_in w1 user1 /\
    balance user1 = F32.of_int 67108968 /\
    user_menu w1 = Some (UserMenu, w2) /\
    logged_in w2 user2 /\
    stdout w2 = stdout w1 ++ [OutError ERROR_INVALID_INPUT] /\
    assets user2 = assets user1 /\
    balance user2 = F32.of_int 67108960 /\
    F32.eqb (balance user2) (balance user1) = false.
Proof.
  eexists _, _, _, _. split; [evaluate|]. split; [evaluate_logged_in|].
  split; [evaluate|]. split; [evaluate|]. split; [evaluate_logged_in|].
  repeat split; evaluate.
Qed.

(** What [purchaseAsset] does on an invalid selection, whatever the
    balance: the amount is subtracted and added back, each with its own
    rounding. *)
Lemma purchaseAsset_invalid_selection (w : World) (user : Account) (choice : Z) :
  logged_in w user ->
  F32.ltb (balance user) ASSET_PURCHASE_AMOUNT = false ->
  entered w = Some (pin user) ->
  entered (consume_line w) = Some choice ->
  choice < 1 \/ 3 < choice ->
  purchaseAsset w
  = Some (tt, set_stdout (stdout w ++ [OutError ERROR_INVALID_INPUT])
                (put_user
                   (set_balance
                      (F32.add (F32.sub (balance user) ASSET_PURCHASE_AMOUNT)
                               ASSET_PURCHASE_AMOUNT) user)
                   (consume_line (consume_line w)))).
Proof.
  intros Hu Hb Hp Hc Hch.
  assert (Hu1 := logged_in_consume_line _ _ Hu).
  assert (Hu2 := logged_in_consume_line _ _ Hu1).
  assert (Hout : forall v, stdout (consume_line v) = stdout v)
    by (intros v; unfold consume_line; now destruct (stdin v)).
  unfold purchaseAsset.
  rewrite (bind_Some _ _ _ _ _ (current_user_run _ _ Hu)), Hb.
  rewrite (bind_Some _ _ _ _ _ (verifyPIN_run _ _ Hu)).
  unfold pin_ok. rewrite Hp, Z.eqb_refl. cbn [negb].
  rewrite (bind_Some _ _ _ _ _ (getIntInput_run _)), Hc.
  rewrite (bind_Some _ _ _ _ _ (modify_user_run _ _ _ Hu2)).
  unfold bind at 1, get.
  assert (E : forall v : World,
             (bind (modify_user (fun u => set_balance (F32.add (balance u) ASSET_PURCHASE_AMOUNT) u))
                   (fun _ => displayError ERROR_INVALID_INPUT)) v
             = match choice with
               | 1 => bind (modify_user (add_crypto (F32.div ASSET_PURCHASE_AMOUNT (crypto (marketPrices v)))))
                           (fun _ => bind (print OutSuccess) (fun _ => bind saveAccounts (fun _ => ret tt)))
               | 2 => bind (modify_user (add_gold (F32.div ASSET_PURCHASE_AMOUNT (gold (marketPrices v)))))
                           (fun _ => bind (print OutSuccess) (fun _ => bind saveAccounts (fun _ => ret tt)))
               | 3 => bind (modify_user (add_silver (F32.div ASSET_PURCHASE_AMOUNT (silver (marketPrices v)))))
                           (fun _ => bind (print OutSuccess) (fun _ => bind saveAccounts (fun _ => ret tt)))
               | _ => bind (modify_user (fun u => set_balance (F32.add (balance u) ASSET_PURCHASE_AMOUNT) u))
                           (fun _ => displayError ERROR_INVALID_INPUT)
               end v).
  { intros v. destruct choice as [|[[]|[]|]|]; try reflexivity; lia. }
  rewrite <- E.
  rewrite (bind_Some _ _ _ _ _
             (modify_user_run _ _ _ (logged_in_put_user _ _ _ Hu2))).
  rewrite put_user_put_user. unfold displayError. rewrite print_run.
  cbn. now rewrite !Hout.
Qed.

(** Claim C8 as stated fails, twice.  On a new account, 35.47 dollars
    converted to EUR and the units credited converted back, at the same
    rate, leave a balance one unit in the last place above 1000.  And on
    a balance that is the largest binary32 number, 16147573 * 2^104
    dollars converted and converted back leave a balance that is
    infinite: the dollars given back round to one unit in the last place
    more than the dollars taken, and the sum overflows. *)
Lemma eur_round_trip_inexact :
  (exists w0 user0 w1 user1 w2 user2 units,
     main 2 (initial_world there_and_back first_run []) = Some (UserMenu, w0) /\
     logged_in w0 user0 /\
     balance user0 = STARTING_BALANCE /\
     user_menu w0 = Some (UserMenu, w1) /\
     logged_in w1 user1 /\
     eur (currencies user1) = units /\
     stdin w1 = [number 8; number 4; number 1; decimal "32.245457" 32 units] /\
     user_menu w1 = Some (UserMenu, w2) /\
     logged_in w2 user2 /\
     eur (currencies user2) = F32.zero /\
     exchangeRates w2 = exchangeRates w0 /\
     balance user2 = S754_finite false 16384001 (-14) /\
     F32.eqb (balance user2) (balance user0) = false) /\
  (exists w0 user0 w1 user1 w2 user2,
     main 3 (initial_world overflowing_trip first_run []) = Some (UserMenu, w0) /\
     logged_in w0 user0 /\
     balance user0 = S754_finite false 16777215 104 /\
     user_menu w0 = Some (UserMenu, w1) /\
     logged_in w1 user1 /\
     stdout w1 = stdout w0 ++ [OutSuccess] /\
     eur (currencies user1)
     = F32.div (S754_finite false 16147573 104) (eur initial_exchangeRates) /\
     user_menu w1 = Some (UserMenu, w2) /\
     logged_in w2 user2 /\
     stdout w2 = stdout w1 ++ [OutSuccess] /\
     eur (currencies user2) = F32.zero /\
     exchangeRates w2 = exchangeRates w0 /\
     balance user2 = S754_infinity false).
Proof.
  split.
  - eexists _, _, _, _, _, _, _. split; [evaluate|]. split; [evaluate_logged_in|].
    split; [evaluate|]. split; [evaluate|]. split; [evaluate_logged_in|].
    split; [evaluate|]. split; [evaluate|]. split; [evaluate|].
    split; [evaluate_logged_in|]. repeat split; evaluate.
  - eexists _, _, _, _, _, _. split; [evaluate|]. split; [evaluate_logged_in|].
    split; [evaluate|]. split; [evaluate|]. split; [evaluate_logged_in|].
    split; [evaluate|]. split; [evaluate|]. split; [evaluate|].
    split; [evaluate_logged_in|]. repeat split; evaluate.
Qed.

(** *** The data file *)

(** Claim C9, instances of [save_load_round_trip]: the registry with
    alice alone, loaded by a process that starts; and the registry with no
    account, loaded over a state that holds alice. *)
Lemma save_load_round_trip_witness :
  (exists w' v',
     saveAccounts (state_after 2 alice) = Some (SUCCESS, w') /\
     loadAccounts (set_disk (disk w') (initial_world [] first_run []))
     = Some (SUCCESS, v') /\
     registry v' = [alice_account]) /\
  (exists w' v',
     saveAccounts (initial_world [] first_run []) = Some (SUCCESS, w') /\
     loadAccounts (set_disk (disk w') (state_after 2 alice))
     = Some (SUCCESS, v') /\
     registry v' = []).
Proof.
  split.
  - destruct (save_load_round_trip (state_after 2 alice)
                                   (initial_world [] first_run []))
      as (w' & E & _ & _ & v' & L & _ & R & _);
      [split; evaluate | evaluate .. |].
    exists w', v'. rewrite R. split; [exact E|]. split; [exact L|]. evaluate.
  - destruct (save_load_round_trip (initial_world [] first_run [])
                                   (state_after 2 alice))
      as (w' & E & _ & _ & v' & L & _ & R & _);
      [split; evaluate | evaluate .. |].
    exists w', v'. rewrite R. split; [exact E|]. split; [exact L|]. evaluate.
Defined.

(** *** The frame *)

(** Claim C10, instance of [ledger_frame]: three customers, the second
    logged in and converting -20 EUR; the first and the third account are
    unchanged and the second keeps its name. *)
Lemma ledger_frame_witness :
  let w := state_after 4 (flat_map sign_up (seq 0 3) ++
                          [number 2; word (customer 1); number 1001;
                           number 4; number 1; number (-20)]) in
  exists w',
    perform ManageForexWallet w = Some (tt, w') /\
    accounts w' !! 0%nat = accounts w !! 0%nat /\
    accounts w' !! 2%nat = accounts w !! 2%nat /\
    name <$> accounts w' !! 1%nat = Some (customer 1).
Proof.
  intros w.
  assert (Hw : well_formed w) by evaluate_well_formed.
  destruct (ledger_frame ManageForexWallet w Hw)
    as (w' & E & _ & _ & Ho & user & user' & Eu & Eu' & Hn & _).
  exists w'. split; [exact E|].
  assert (Hs : selected w = 1%nat) by evaluate.
  rewrite Hs in *.
  split; [apply Ho; discriminate|]. split; [apply Ho; discriminate|].
  rewrite Eu'. cbn. rewrite Hn. f_equal.
  assert (Eu0 : accounts w !! 1%nat = Some (initializeAccount (customer 1) 1001))
    by evaluate.
  rewrite Eu0 in Eu. injection Eu as <-. reflexivity.
Defined.

(** * Further properties of the code *)

(** ** Single-precision arithmetic and order *)

Lemma digits2_pos_size (p : positive) : digits2_pos p = Pos.size p.
Proof. induction p; cbn; congruence. Qed.

Lemma digits2_pos_bounds (p : positive) :
  2 ^ (Z.pos (digits2_pos p) - 1) <= Z.pos p < 2 ^ Z.pos (digits2_pos p).
Proof.
  rewrite digits2_pos_size. split.
  - pose proof (Pos.size_le p) as H.
    apply Pos2Z.pos_le_pos in H. rewrite Pos2Z.inj_pow in H.
    replace (Z.pos (Pos.size p)) with (Z.succ (Z.pos (Pos.size p) - 1)) in H by lia.
    rewrite Z.pow_succ_r in H by lia. lia.
  - pose proof (Pos.size_gt p) as H.
    apply Pos2Z.pos_lt_pos in H. now rewrite Pos2Z.inj_pow in H.
Qed.

Lemma iter_xO (m d : positive) :
  Z.pos (Pos.iter xO m d) = Z.pos m * 2 ^ Z.pos d.
Proof.
  induction d as [|d IH] using Pos.peano_ind.
  - cbn. lia.
  - rewrite Pos.iter_succ, Pos2Z.inj_xO, IH, Pos2Z.inj_succ, Z.pow_succ_r by lia.
    lia.
Qed.

Lemma shl_align_value (m : positive) (e e' : Z) :
  e' <= e -> Z.pos (fst (shl_align m e e')) = Z.pos m * 2 ^ (e - e').
Proof.
  intros H. unfold shl_align.
  destruct (e' - e) as [|d|d] eqn:E.
  - replace (e - e') with 0 by lia. cbn. lia.
  - lia.
  - cbn [fst]. rewrite iter_xO. f_equal. f_equal. lia.
Qed.

(** A canonical mantissa has at most 24 digits, and exactly 24 above the
    smallest exponent. *)
Lemma bounded_mantissa (m : positive) (e : Z) :
  bounded F32.prec F32.emax m e = true ->
  -149 <= e /\ Z.pos m < 2 ^ 24 /\ (-149 < e -> 2 ^ 23 <= Z.pos m).
Proof.
  unfold bounded, canonical_mantissa, fexp, emin, F32.prec, F32.emax.
  intros H. apply andb_true_iff in H as [H _]. apply Z.eqb_eq in H.
  pose proof (digits2_pos_bounds m) as [Hlo Hhi].
  assert (Hd : Z.pos (digits2_pos m) <= 24) by lia.
  split; [lia|]. split.
  - eapply Z.lt_le_trans; [exact Hhi|]. apply Z.pow_le_mono_r; lia.
  - intros He. assert (Hd24 : Z.pos (digits2_pos m) = 24) by lia.
    rewrite Hd24 in Hlo. exact Hlo.
Qed.

(** The order of two canonical magnitudes, brought to the smaller
    exponent, is the order of the exponents, then of the mantissas. *)
Lemma magnitude_compare (mx my : positive) (ex ey : Z) :
  bounded F32.prec F32.emax mx ex = true ->
  bounded F32.prec F32.emax my ey = true ->
  Z.compare (Z.pos (fst (shl_align mx ex (Z.min ex ey))))
            (Z.pos (fst (shl_align my ey (Z.min ex ey))))
  = match Z.compare ex ey with
    | Lt => Lt
    | Gt => Gt
    | Eq => Pos.compare_cont Eq mx my
    end.
Proof.
  intros Hx Hy.
  destruct (bounded_mantissa _ _ Hx) as (Hex & Hmx & Hnx).
  destruct (bounded_mantissa _ _ Hy) as (Hey & Hmy & Hny).
  rewrite !shl_align_value by lia.
  destruct (Z.compare_spec ex ey) as [E|E|E].
  - subst ey. rewrite Z.min_id, Z.sub_diag. cbn [Z.pow]. rewrite !Z.mul_1_r.
    reflexivity.
  - rewrite Z.min_l, Z.sub_diag by lia. cbn [Z.pow]. rewrite Z.mul_1_r.
    apply Z.compare_lt_iff.
    assert (2 ^ 1 <= 2 ^ (ey - ex)) by (apply Z.pow_le_mono_r; lia).
    specialize (Hny ltac:(lia)). change (2 ^ 1) with 2 in *. nia.
  - rewrite Z.min_r, Z.sub_diag by lia. cbn [Z.pow]. rewrite Z.mul_1_r.
    apply Z.compare_gt_iff.
    assert (2 ^ 1 <= 2 ^ (ex - ey)) by (apply Z.pow_le_mono_r; lia).
    specialize (Hnx ltac:(lia)). change (2 ^ 1) with 2 in *. nia.
Qed.

(** Rounding keeps the sign. *)
Lemma shr_1_nonneg (mrs : shr_record) : 0 <= shr_m mrs -> 0 <= shr_m (shr_1 mrs).
Proof.
  destruct mrs as [m r s]. cbn.
  destruct m as [|[p|p|]|[p|p|]]; cbn; lia.
Qed.

Lemma iter_pos_nonneg (p : positive) :
  forall mrs, 0 <= shr_m mrs -> 0 <= shr_m (SpecFloat.iter_pos shr_1 p mrs).
Proof.
  induction p as [p IH|p IH|]; intros mrs H; cbn.
  - apply IH, IH, shr_1_nonneg, H.
  - apply IH, IH, H.
  - apply shr_1_nonneg, H.
Qed.

Lemma shr_fexp_nonneg (m e : Z) (l : location) :
  0 <= m -> 0 <= shr_m (fst (shr_fexp F32.prec F32.emax m e l)).
Proof.
  intros H. unfold shr_fexp, shr.
  assert (H0 : 0 <= shr_m (shr_record_of_loc m l))
    by (destruct l as [|[]]; exact H).
  destruct (_ - e); cbn [fst]; auto using iter_pos_nonneg.
Qed.

Lemma round_nearest_even_nonneg (m : Z) (l : location) :
  0 <= m -> 0 <= round_nearest_even m l.
Proof.
  intros H. unfold round_nearest_even.
  destruct l as [|[]]; try destruct (Z.even m); lia.
Qed.

Lemma binary_round_aux_signed (s : bool) (m e : Z) (l : location) :
  0 <= m -> signed s (binary_round_aux F32.prec F32.emax s m e l).
Proof.
  intros H. unfold binary_round_aux.
  pose proof (shr_fexp_nonneg m e l H) as H1.
  destruct (shr_fexp F32.prec F32.emax m e l) as [mrs' e'].
  cbn [fst] in H1.
  pose proof (shr_fexp_nonneg _ e' loc_Exact
                (round_nearest_even_nonneg _ (loc_of_shr_record mrs') H1)) as H2.
  destruct (shr_fexp F32.prec F32.emax _ e' loc_Exact) as [mrs'' e''].
  cbn [fst] in H2.
  destruct (shr_m mrs'') as [|p|p]; [reflexivity | | lia].
  destruct (_ <=? _); reflexivity.
Qed.

Lemma binary_round_signed (s : bool) (m : positive) (e : Z) :
  signed s (binary_round F32.prec F32.emax s m e).
Proof.
  unfold binary_round. destruct (shl_align _ _ _) as [mz ez].
  apply binary_round_aux_signed. lia.
Qed.

Lemma binary_normalize_nonneg (m e : Z) :
  0 <= m -> signed false (binary_normalize F32.prec F32.emax m e false).
Proof.
  intros H. destruct m as [|p|p]; cbn; [reflexivity | | lia].
  apply binary_round_signed.
Qed.

Lemma signed_nonneg (x : float) : signed false x -> nonneg x = true.
Proof. destruct x as [[]|[]| |[] m e]; cbn; congruence || tauto. Qed.

Lemma nonneg_cases (x : float) :
  nonneg x = true ->
  (exists s, x = S754_zero s) \/ x = S754_infinity false \/
  exists m e, x = S754_finite false m e.
Proof.
  destruct x as [s|[]| |[] m e]; cbn; try discriminate; eauto.
Qed.

Lemma add_nonneg (x y : float) :
  nonneg x = true -> nonneg y = true -> nonneg (F32.add x y) = true.
Proof.
  intros Hx Hy.
  destruct (nonneg_cases x Hx) as [[sx ->]|[->|(mx & ex & ->)]];
    destruct (nonneg_cases y Hy) as [[sy ->]|[->|(my & ey & ->)]];
    try reflexivity; try (destruct sx; reflexivity).
  - destruct sx, sy; reflexivity.
  - apply signed_nonneg. unfold F32.add, SFadd.
    apply binary_normalize_nonneg. cbn [cond_Zopp]. lia.
Qed.

Lemma mul_nonneg (x : float) (m : positive) (e : Z) :
  nonneg x = true -> nonneg (F32.mul x (S754_finite false m e)) = true.
Proof.
  intros Hx.
  destruct (nonneg_cases x Hx) as [[sx ->]|[->|(mx & ex & ->)]].
  - destruct sx; reflexivity.
  - reflexivity.
  - apply signed_nonneg. unfold F32.mul, SFmul. cbn [xorb].
    apply binary_round_aux_signed. lia.
Qed.

(** The difference of two binary32 values in order is not negative,
    unless both are infinite. *)
Lemma sub_nonneg (x y : float) :
  valid x = true -> valid y = true ->
  F32.leb y x = true ->
  is_infinity x && is_infinity y = false ->
  nonneg (F32.sub x y) = true.
Proof.
  intros Vx Vy Hle Hinf.
  destruct x as [sx|sx| |sx mx ex], y as [sy|sy| |sy my ey];
    try discriminate Hle; try discriminate Hinf.
  - destruct sx, sy; reflexivity.
  - destruct sy; [reflexivity | destruct sx; discriminate Hle].
  - destruct sy; [reflexivity | destruct sx; discriminate Hle].
  - destruct sx; [discriminate Hle | reflexivity].
  - destruct sx; [discriminate Hle | reflexivity].
  - destruct sx; [discriminate Hle | reflexivity].
  - destruct sy; [reflexivity | discriminate Hle].
  - apply signed_nonneg. unfold F32.sub, SFsub.
    apply binary_normalize_nonneg.
    pose proof (magnitude_compare mx my ex ey Vx Vy) as Hc.
    set (X := Z.pos (fst (shl_align mx ex (Z.min ex ey)))) in *.
    set (Y := Z.pos (fst (shl_align my ey (Z.min ex ey)))) in *.
    assert (0 < X /\ 0 < Y) as [HX HY] by (unfold X, Y; lia).
    clearbody X Y.
    pose proof (Z.compare_spec X Y) as Hs. rewrite Hc in Hs. clear Hc.
    unfold F32.leb, SFleb, SFcompare in Hle.
    destruct sx, sy; cbn [cond_Zopp]; try lia; try discriminate Hle.
    + (* both negative: |x| <= |y| *)
      rewrite Z.compare_antisym in Hle.
      destruct (ex ?= ey) eqn:E; cbn in Hle.
      * rewrite Pos.compare_cont_antisym in Hle. cbn in Hle.
        destruct (Pos.compare_cont Eq mx my) eqn:E2;
          try discriminate Hle; inversion Hs; lia.
      * inversion Hs; lia.
      * discriminate Hle.
    + (* both positive: |y| <= |x| *)
      rewrite Z.compare_antisym in Hle.
      destruct (ex ?= ey) eqn:E; cbn in Hle.
      * change (Pos.compare_cont Eq my mx) with (Pos.compare my mx) in Hle.
        rewrite Pos.compare_antisym in Hle.
        change (Pos.compare mx my) with (Pos.compare_cont Eq mx my) in Hle.
        destruct (Pos.compare_cont Eq mx my) eqn:E2;
          try discriminate Hle; inversion Hs; lia.
      * discriminate Hle.
      * inversion Hs; lia.
Qed.

(** The order of the comparisons is total on numbers. *)
Lemma compare_antisym (x y : float) :
  SFcompare y x = option_map CompOpp (SFcompare x y).
Proof.
  destruct x as [sx|sx| |sx mx ex], y as [sy|sy| |sy my ey]; cbn;
    try reflexivity; try (destruct sx; reflexivity);
    try (destruct sy; reflexivity); try (destruct sx, sy; reflexivity).
  destruct sx, sy; try reflexivity; rewrite (Z.compare_antisym ex ey);
    destruct (ex ?= ey); cbn; try reflexivity;
    change (Pos.compare_cont Eq my mx) with (Pos.compare my mx);
    rewrite (Pos.compare_antisym mx my);
    change (Pos.compare mx my) with (Pos.compare_cont Eq mx my);
    destruct (Pos.compare_cont Eq mx my); reflexivity.
Qed.

Lemma not_ltb_leb (x y : float) :
  is_nan x = false -> is_nan y = false ->
  F32.ltb x y = false -> F32.leb y x = true.
Proof.
  unfold F32.ltb, F32.leb, SFltb, SFleb. rewrite (compare_antisym x y).
  destruct x as [sx|sx| |sx mx ex], y as [sy|sy| |sy my ey];
    try discriminate; intros _ _;
    destruct (SFcompare _ _) as [[]|] eqn:E; cbn; try congruence;
    cbn in E; try discriminate E;
    repeat match type of E with
           | context [if ?s then _ else _] => destruct s
           end; discriminate E.
Qed.


Lemma nonneg_not_nan (x : float) : nonneg x = true -> is_nan x = false.
Proof. destruct x; cbn; congruence. Qed.

Lemma is_number_valid (x : float) : is_number x = true -> valid x = true.
Proof. unfold is_number. intros H. now apply andb_true_iff in H. Qed.

Lemma is_number_not_nan (x : float) : is_number x = true -> is_nan x = false.
Proof.
  unfold is_number. intros H. apply andb_true_iff in H as [_ H].
  now apply negb_true_iff.
Qed.

(** ** Sessions *)

Lemma session_consume_line (w : World) (user : Account) :
  session w user -> session (consume_line w) user.
Proof.
  intros [Hw Hu]. split.
  - now apply well_formed_consume_line.
  - now apply logged_in_consume_line.
Qed.

Lemma session_put_user (w : World) (user a : Account) :
  session w user -> session (put_user a w) a.
Proof.
  intros [Hw Hu]. split.
  - now apply well_formed_put_user.
  - eapply logged_in_put_user; eauto.
Qed.

Lemma session_set_stdout (w : World) (user : Account) (out : list Output) :
  session w user -> session (set_stdout out w) user.
Proof. intros H. exact H. Qed.

Lemma session_set_disk (w : World) (user : Account) (d : Disk) :
  session w user -> session (set_disk d w) user.
Proof. intros H. exact H. Qed.

Create HintDb session.
#[local] Hint Resolve session_consume_line session_put_user
  session_set_stdout session_set_disk : session.

Lemma run_current_user {A} (k : Account -> M A) (w : World) (user : Account) :
  session w user -> bind current_user k w = k user w.
Proof. intros [_ Hu]. apply bind_Some, current_user_run, Hu. Qed.

Lemma run_modify_user {A} (f : Account -> Account) (k : unit -> M A)
      (w : World) (user : Account) :
  session w user -> bind (modify_user f) k w = k tt (put_user (f user) w).
Proof. intros [_ Hu]. apply bind_Some, modify_user_run, Hu. Qed.

Lemma run_verifyPIN {A} (k : bool -> M A) (w : World) (user : Account) :
  session w user -> bind verifyPIN k w = k (pin_ok w user) (consume_line w).
Proof. intros [_ Hu]. apply bind_Some, verifyPIN_run, Hu. Qed.

Lemma run_getIntInput {A} (k : option Z -> M A) (w : World) :
  bind getIntInput k w = k (entered w) (consume_line w).
Proof. apply bind_Some, getIntInput_run. Qed.

Lemma run_getFloatInput {A} (k : option float -> M A) (w : World) :
  bind getFloatInput k w = k (entered_float w) (consume_line w).
Proof. apply bind_Some, getFloatInput_run. Qed.

Lemma run_print {A} (o : Output) (k : unit -> M A) (w : World) :
  bind (print o) k w = k tt (set_stdout (stdout w ++ [o]) w).
Proof. reflexivity. Qed.

Lemma run_saveAccounts {A} (k : ErrorCode -> M A) (w : World) (user : Account) :
  session w user ->
  exists result d,
    bind saveAccounts k w = k result (set_disk d w) /\
    (result = SUCCESS \/ result = ERROR_FILE_IO) /\
    (d_openable (disk w) = false -> result = ERROR_FILE_IO /\ d = disk w) /\
    (d_openable (disk w) = true ->
     (Z.to_nat (accountCount w) < d_room (disk w))%nat -> result = SUCCESS).
Proof.
  intros [[_ Hc] _].
  destruct (saveAccounts_returns w Hc) as (r & d & E & Hr & Hclosed & Hs).
  exists r, d. split; [now apply bind_Some|]. split; [exact Hr|].
  split; [exact Hclosed|]. intros Ho Hroom. apply (Hs Ho Hroom).
Qed.

(** ** Symbolic execution *)

Lemma returns_Some {A} (a : A) (w : World) (Q : A -> World -> Prop) :
  Q a w -> returns (Some (a, w)) Q.
Proof. intros H. now exists a, w. Qed.

Lemma bind_bind {A B C} (c : M A) (k : A -> M B) (h : B -> M C) (w : World) :
  bind (bind c k) h w = bind c (fun a => bind (k a) h) w.
Proof. unfold bind. destruct (c w) as [[a w']|]; reflexivity. Qed.

Lemma bind_ret_r {A} (c : M A) (w : World) : bind c ret w = c w.
Proof. unfold bind, ret. destruct (c w) as [[a w']|]; reflexivity. Qed.

Ltac in_session := eauto 12 with session.

(** One step of a computation run in a session. *)
Ltac exec_step :=
  match goal with
  | |- returns (Some _) _ => apply returns_Some; cbv beta
  | |- returns (ret _ _) _ => apply returns_Some; cbv beta
  | |- returns (displayError _ _) _ => apply returns_Some; cbv beta
  | |- returns (print _ _) _ => apply returns_Some; cbv beta
  | |- returns (saveAccounts ?w) _ => rewrite <- (bind_ret_r saveAccounts w)
  | |- returns (bind (bind _ _) _ _) _ => rewrite bind_bind
  | |- returns (bind (ret _) _ _) _ => unfold bind at 1, ret at 1
  | |- returns (bind current_user _ ?w) _ =>
      erewrite (run_current_user _ w) by in_session
  | |- returns (bind (modify_user _) _ ?w) _ =>
      erewrite (run_modify_user _ _ w) by in_session
  | |- returns (bind verifyPIN _ ?w) _ =>
      erewrite (run_verifyPIN _ w) by in_session
  | |- returns (bind getIntInput _ _) _ => rewrite run_getIntInput
  | |- returns (bind getFloatInput _ _) _ => rewrite run_getFloatInput
  | |- returns (bind (print _) _ _) _ => rewrite run_print
  | |- returns (bind (displayError _) _ _) _ =>
      unfold displayError at 1; rewrite run_print
  | |- returns (bind (get _) _ _) _ => unfold bind at 1, get at 1
  | |- returns (bind saveAccounts ?k ?w) _ =>
      let r := fresh "result" in
      let d := fresh "d" in
      let E := fresh "Esave" in
      let Hr := fresh "Hresult" in
      let Hc := fresh "Hclosed" in
      let Ho := fresh "Hopen" in
      let H := fresh in
      eassert (H : session w _) by in_session;
      destruct (run_saveAccounts k w _ H) as (r & d & E & Hr & Hc & Ho);
      rewrite E; clear E H
  | |- returns (bind (if ?b then _ else _) _ _) _ => destruct b eqn:?
  | |- returns (bind (match ?x with _ => _ end) _ _) _ => destruct x eqn:?
  | |- returns ((if ?b then _ else _) _) _ => destruct b eqn:?
  | |- returns ((match ?x with _ => _ end) _) _ => destruct x eqn:?
  end.

Ltac exec := repeat exec_step.

(** ** Balances that stay non-negative *)

Lemma nonneg_ASSET_PURCHASE_AMOUNT : nonneg ASSET_PURCHASE_AMOUNT = true.
Proof. reflexivity. Qed.

Ltac evaluate_session := split; [evaluate_well_formed | evaluate_logged_in].

(** Property X1.  A withdrawal never overdraws.  On a session whose
    balance is a finite non-negative number, [withdrawCash] of any number
    (negative, zero, above the balance, with a right or a wrong PIN)
    returns, and leaves the session on an account whose balance is still
    non-negative: the account as it was, or the account debited of the
    amount. *)
Theorem withdrawCash_no_overdraft (w : World) (user : Account) (amount : float) :
  session w user ->
  is_number amount = true ->
  valid (balance user) = true ->
  nonneg (balance user) = true ->
  is_infinity (balance user) = false ->
  exists result w' user',
    withdrawCash amount w = Some (result, w') /\
    session w' user' /\
    nonneg (balance user') = true /\
    (user' = user \/
     user' = set_balance (F32.sub (balance user) amount) user).
Proof.
  intros Hs Ha Hv Hb Hi.
  cut (returns (withdrawCash amount w)
         (fun _ w' => exists user', session w' user' /\
                         nonneg (balance user') = true /\
                         (user' = user \/
                          user' = set_balance (F32.sub (balance user) amount) user))).
  { intros (r & w' & E & u' & H). now exists r, w', u'. }
  unfold withdrawCash. exec.
  all: eexists; (split; [in_session|]); split; auto.
  cbn. apply sub_nonneg; auto using is_number_valid.
  - apply not_ltb_leb;
      auto using is_number_not_nan, nonneg_not_nan.
  - now rewrite Hi.
Qed.

Lemma withdrawCash_no_overdraft_witness :
  let w := state_after 2 (alice ++ [number 1234]) in
  exists result w' user',
    withdrawCash (F32.of_int 300) w = Some (result, w') /\
    session w' user' /\
    nonneg (balance user') = true /\
    (user' = alice_account \/
     user' = set_balance (F32.sub (balance alice_account) (F32.of_int 300))
                         alice_account).
Proof.
  intros w.
  assert (Hs : session w alice_account) by evaluate_session.
  apply (withdrawCash_no_overdraft w alice_account (F32.of_int 300) Hs); evaluate.
Defined.



(** Property X3.  A NaN passes the amount checks of [depositCash] and
    [withdrawCash], whose comparisons [amount <= 0] and [amount > balance]
    are both false on it: the deposit, and the withdrawal once the PIN is
    confirmed, are carried out and leave the balance a NaN. *)
Theorem nan_amount_accepted (w : World) (user : Account) :
  session w user ->
  (exists result w' user',
     depositCash S754_nan w = Some (result, w') /\
     session w' user' /\ balance user' = S754_nan) /\
  (entered w = Some (pin user) ->
   exists result w' user',
     withdrawCash S754_nan w = Some (result, w') /\
     session w' user' /\ balance user' = S754_nan).
Proof.
  intros Hs. split.
  - cut (returns (depositCash S754_nan w)
           (fun _ w' => exists user', session w' user' /\ balance user' = S754_nan)).
    { intros (r & w' & E & u' & H). now exists r, w', u'. }
    unfold depositCash. cbn [F32.leb SFleb SFcompare]. exec.
    eexists. split; [in_session|]. cbn. now destruct (balance user).
  - intros Hp.
    cut (returns (withdrawCash S754_nan w)
           (fun _ w' => exists user', session w' user' /\ balance user' = S754_nan)).
    { intros (r & w' & E & u' & H). now exists r, w', u'. }
    unfold withdrawCash. cbn [F32.leb SFleb SFcompare]. exec.
    + exfalso. destruct (balance user); discriminate.
    + exfalso. unfold pin_ok in *. rewrite Hp, Z.eqb_refl in *. discriminate.
    + eexists. split; [in_session|]. cbn. now destruct (balance user).
Qed.

Lemma nan_amount_accepted_witness :
  let w := state_after 2 (alice ++ [number 1234]) in
  (exists result w' user',
     depositCash S754_nan w = Some (result, w') /\
     session w' user' /\ balance user' = S754_nan) /\
  (exists result w' user',
     withdrawCash S754_nan w = Some (result, w') /\
     session w' user' /\ balance user' = S754_nan).
Proof.
  intros w.
  assert (Hs : session w alice_account) by evaluate_session.
  destruct (nan_amount_accepted w alice_account Hs) as [Hd Hw].
  split; [exact Hd|]. apply Hw. evaluate.
Defined.

(** Property X4.  [addInterest] always returns and replaces the balance
    of the selected account by [balance + balance * 0.05f], whatever the
    balance is; a non-negative balance stays non-negative. *)
Theorem addInterest_nonneg (w : World) (user : Account) :
  session w user ->
  exists w',
    addInterest w = Some (tt, w') /\
    session w' (set_balance (F32.add (balance user)
                                     (F32.mul (balance user) INTEREST_RATE)) user) /\
    (nonneg (balance user) = true ->
     nonneg (F32.add (balance user) (F32.mul (balance user) INTEREST_RATE)) = true).
Proof.
  intros Hs.
  cut (returns (addInterest w)
         (fun _ w' =>
            session w' (set_balance (F32.add (balance user)
                                             (F32.mul (balance user) INTEREST_RATE)) user))).
  { intros ([] & w' & E & H). exists w'. split; [exact E|]. split; [exact H|].
    intros Hb. apply add_nonneg; [exact Hb|]. now apply mul_nonneg. }
  unfold addInterest. exec. in_session.
Qed.

Lemma addInterest_nonneg_witness :
  let w := state_after 2 alice in
  let v := state_after 3 overdraw in
  let overdrawn :=
    from_eur (eur initial_exchangeRates) (F32.of_int (-1000)) alice_account in
  (exists w',
     addInterest w = Some (tt, w') /\
     session w' (set_balance (F32.of_int 1050) alice_account)) /\
  (exists v',
     addInterest v = Some (tt, v') /\
     session v' (set_balance (F32.of_int (-105)) overdrawn)).
Proof.
  intros w v overdrawn. split.
  - assert (Hs : session w alice_account) by evaluate_session.
    destruct (addInterest_nonneg w alice_account Hs) as (w' & E & Hs' & _).
    exists w'. split; [exact E|].
    assert (Eb : F32.add (balance alice_account)
                         (F32.mul (balance alice_account) INTEREST_RATE)
                 = F32.of_int 1050) by evaluate.
    now rewrite Eb in Hs'.
  - assert (Hs : session v overdrawn) by evaluate_session.
    destruct (addInterest_nonneg v overdrawn Hs) as (v' & E & Hs' & _).
    exists v'. split; [exact E|].
    assert (Eb : F32.add (balance overdrawn) (F32.mul (balance overdrawn) INTEREST_RATE)
                 = F32.of_int (-105)) by evaluate.
    now rewrite Eb in Hs'.
Defined.

(** Property X5.  Whatever is typed (wrong PIN, invalid asset number,
    valid purchase), [purchaseAsset] on a non-negative balance returns and
    leaves the balance non-negative; the loan and the currency holdings
    are not touched. *)
Theorem purchaseAsset_nonneg (w : World) (user : Account) :
  session w user ->
  valid (balance user) = true ->
  nonneg (balance user) = true ->
  exists w' user',
    purchaseAsset w = Some (tt, w') /\
    session w' user' /\
    nonneg (balance user') = true /\
    loan user' = loan user /\
    currencies user' = currencies user.
Proof.
  intros Hs Hv Hb.
  cut (returns (purchaseAsset w)
         (fun _ w' => exists user', session w' user' /\
                         nonneg (balance user') = true /\
                         loan user' = loan user /\
                         currencies user' = currencies user)).
  { intros ([] & w' & E & u' & H). now exists w', u'. }
  assert (Hd : F32.ltb (balance user) ASSET_PURCHASE_AMOUNT = false ->
               nonneg (F32.sub (balance user) ASSET_PURCHASE_AMOUNT) = true).
  { intros Hlt. apply sub_nonneg; auto.
    - apply not_ltb_leb; auto using nonneg_not_nan.
    - apply andb_false_r. }
  unfold purchaseAsset. exec.
  all: eexists; (split; [in_session|]); cbn; auto.
  all: split; [| auto].
  all: apply add_nonneg; auto.
Qed.

Lemma purchaseAsset_nonneg_witness :
  let w := state_after 2 (alice ++ [number 1234; number 7]) in
  exists w' user',
    purchaseAsset w = Some (tt, w') /\
    session w' user' /\
    nonneg (balance user') = true /\
    loan user' = loan alice_account /\
    currencies user' = currencies alice_account.
Proof.
  intros w.
  assert (Hs : session w alice_account) by evaluate_session.
  apply (purchaseAsset_nonneg w alice_account Hs); evaluate.
Defined.

(** Property X6.  Whatever is typed, [manageLoan] on an account with a
    finite non-negative balance and a non-negative loan returns and leaves
    both non-negative; the assets and the currency holdings are not
    touched. *)
Theorem manageLoan_nonneg (w : World) (user : Account) :
  session w user ->
  valid (balance user) = true ->
  valid (loan user) = true ->
  nonneg (balance user) = true ->
  nonneg (loan user) = true ->
  is_infinity (balance user) = false ->
  exists w' user',
    manageLoan w = Some (tt, w') /\
    session w' user' /\
    nonneg (balance user') = true /\
    nonneg (loan user') = true /\
    assets user' = assets user /\
    currencies user' = currencies user.
Proof.
  intros Hs Hvb Hvl Hb Hl Hi.
  cut (returns (manageLoan w)
         (fun _ w' => exists user', session w' user' /\
                         nonneg (balance user') = true /\
                         nonneg (loan user') = true /\
                         assets user' = assets user /\
                         currencies user' = currencies user)).
  { intros ([] & w' & E & u' & H). now exists w', u'. }
  unfold manageLoan. exec.
  all: eexists; (split; [in_session|]); cbn; auto.
  - split; [| auto]. apply add_nonneg; auto.
  - split; [| auto]. apply sub_nonneg; auto. now rewrite Hi.
Qed.

Lemma manageLoan_nonneg_witness :
  let w := state_after 3 (alice ++ [number 3; number 1234; number 1;
                                    number 1234; number 1]) in
  exists w' user',
    manageLoan w = Some (tt, w') /\
    session w' user' /\
    nonneg (balance user') = true /\
    nonneg (loan user') = true /\
    assets user' = assets (loan_taken alice_account) /\
    currencies user' = currencies (loan_taken alice_account).
Proof.
  intros w.
  assert (Hs : session w (loan_taken alice_account)) by evaluate_session.
  apply (manageLoan_nonneg w (loan_taken alice_account) Hs); evaluate.
Defined.

(** Property X7.  A purchase with the right PIN and an asset number from
    1 to 3, on a balance not below 100, debits 100 from the balance and
    credits [100 / price] units to the chosen asset, at its market price
    of the moment; the two other assets, the loan, the currencies, the
    name and the PIN are unchanged, and success is reported. *)
Theorem purchaseAsset_buys (w : World) (user : Account) (choice : Z) :
  session w user ->
  F32.ltb (balance user) ASSET_PURCHASE_AMOUNT = false ->
  entered w = Some (pin user) ->
  entered (consume_line w) = Some choice ->
  1 <= choice <= 3 ->
  exists w' user',
    purchaseAsset w = Some (tt, w') /\
    session w' user' /\
    stdout w' = stdout w ++ [OutSuccess] /\
    name user' = name user /\ pin user' = pin user /\
    loan user' = loan user /\ currencies user' = currencies user /\
    balance user' = F32.sub (balance user) ASSET_PURCHASE_AMOUNT /\
    crypto (assets user')
    = (if choice =? 1
       then F32.add (crypto (assets user))
                    (F32.div ASSET_PURCHASE_AMOUNT (crypto (marketPrices w)))
       else crypto (assets user)) /\
    gold (assets user')
    = (if choice =? 2
       then F32.add (gold (assets user))
                    (F32.div ASSET_PURCHASE_AMOUNT (gold (marketPrices w)))
       else gold (assets user)) /\
    silver (assets user')
    = (if choice =? 3
       then F32.add (silver (assets user))
                    (F32.div ASSET_PURCHASE_AMOUNT (silver (marketPrices w)))
       else silver (assets user)).
Proof.
  intros Hs Hb Hp Hc Hr.
  assert (Hm : forall v, marketPrices (consume_line v) = marketPrices v)
    by (intros v; unfold consume_line; now destruct (stdin v)).
  assert (Ho : forall v, stdout (consume_line v) = stdout v)
    by (intros v; unfold consume_line; now destruct (stdin v)).
  cut (returns (purchaseAsset w)
         (fun _ w' => exists user',
            session w' user' /\
            stdout w' = stdout w ++ [OutSuccess] /\
            name user' = name user /\ pin user' = pin user /\
            loan user' = loan user /\ currencies user' = currencies user /\
            balance user' = F32.sub (balance user) ASSET_PURCHASE_AMOUNT /\
            crypto (assets user')
            = (if choice =? 1
               then F32.add (crypto (assets user))
                            (F32.div ASSET_PURCHASE_AMOUNT (crypto (marketPrices w)))
               else crypto (assets user)) /\
            gold (assets user')
            = (if choice =? 2
               then F32.add (gold (assets user))
                            (F32.div ASSET_PURCHASE_AMOUNT (gold (marketPrices w)))
               else gold (assets user)) /\
            silver (assets user')
            = (if choice =? 3
               then F32.add (silver (assets user))
                            (F32.div ASSET_PURCHASE_AMOUNT (silver (marketPrices w)))
               else silver (assets user)))).
  { intros ([] & w' & E & u' & H). now exists w', u'. }
  unfold purchaseAsset.
  erewrite run_current_user by in_session. rewrite Hb.
  erewrite run_verifyPIN by in_session.
  unfold pin_ok. rewrite Hp, Z.eqb_refl. cbn [negb].
  rewrite run_getIntInput, Hc.
  assert (E : choice = 1 \/ choice = 2 \/ choice = 3) by lia.
  destruct E as [-> | [-> | ->]]; exec;
    (eexists; split; [in_session|]); cbn; rewrite !Hm, !Ho; repeat split.
Qed.

Lemma purchaseAsset_buys_witness :
  let w := state_after 2 (alice ++ [number 1234; number 2]) in
  exists w' user',
    purchaseAsset w = Some (tt, w') /\
    session w' user' /\
    balance user' = F32.of_int 900 /\
    crypto (assets user') = F32.zero /\
    gold (assets user') = F32.div (F32.of_int 100) (F32.of_int 60) /\
    silver (assets user') = F32.zero.
Proof.
  intros w.
  assert (Hs : session w alice_account) by evaluate_session.
  destruct (purchaseAsset_buys w alice_account 2 Hs)
    as (w' & user' & E & Hs' & _ & _ & _ & _ & _ & Hb & Hc & Hg & Hsv);
    [evaluate | evaluate | evaluate | lia |].
  exists w', user'. split; [exact E|]. split; [exact Hs'|].
  rewrite Hb, Hc, Hg, Hsv. repeat split; evaluate.
Defined.

(** ** Currency conversion and the balance *)

(** Property X8.  In the wallet menu every choice other than 4 (the
    conversions from USD, and the invalid choices) keeps a finite
    non-negative balance non-negative, whatever number is typed as the
    amount, a negative one included; the loan and the assets are not
    touched. *)
Theorem to_foreign_nonneg (w : World) (user : Account) :
  session w user ->
  valid (balance user) = true ->
  nonneg (balance user) = true ->
  is_infinity (balance user) = false ->
  entered w <> Some 4 ->
  (forall usd, entered_float (consume_line w) = Some usd -> is_number usd = true) ->
  exists w' user',
    manageForexWallet w = Some (tt, w') /\
    session w' user' /\
    nonneg (balance user') = true /\
    loan user' = loan user /\ assets user' = assets user.
Proof.
  intros Hs Hv Hb Hi H4 Hn.
  cut (returns (manageForexWallet w)
         (fun _ w' => exists user', session w' user' /\
                         nonneg (balance user') = true /\
                         loan user' = loan user /\ assets user' = assets user)).
  { intros ([] & w' & E & u' & H). now exists w', u'. }
  assert (Hd : forall usd,
             is_number usd = true ->
             F32.ltb (balance user) usd = false ->
             nonneg (F32.sub (balance user) usd) = true).
  { intros usd Hu Hlt. apply sub_nonneg; auto using is_number_valid.
    - apply not_ltb_leb; auto using is_number_not_nan, nonneg_not_nan.
    - now rewrite Hi. }
  unfold manageForexWallet.
  erewrite run_current_user by in_session.
  rewrite run_getIntInput.
  destruct (entered w) as [choice|] eqn:Ec; [| exec; eexists; split; [in_session | auto]].
  destruct ((1 <=? choice) && (choice <=? 3)) eqn:Er.
  - rewrite run_getFloatInput.
    destruct (entered_float (consume_line w)) as [usd|] eqn:Ef;
      [| exec; eexists; split; [in_session | auto]].
    specialize (Hn usd eq_refl).
    erewrite run_current_user by in_session.
    destruct (F32.ltb (balance user) usd) eqn:Elt;
      [exec; eexists; split; [in_session | auto] |].
    specialize (Hd usd Hn Elt).
    exec; (eexists; split; [in_session|]); cbn; auto.
  - destruct (choice =? 4) eqn:E4.
    + apply Z.eqb_eq in E4. congruence.
    + exec. eexists. split; [in_session | auto].
Qed.

Lemma to_foreign_nonneg_witness :
  let w := state_after 2 (alice ++ [number 2; number 50]) in
  let v := state_after 2 (alice ++ [number 1; number (-50)]) in
  (exists w' user',
     manageForexWallet w = Some (tt, w') /\
     session w' user' /\
     nonneg (balance user') = true /\
     balance user' = F32.of_int 950 /\
     gbp (currencies user') = F32.div (F32.of_int 50) (gbp initial_exchangeRates)) /\
  (exists v' user',
     manageForexWallet v = Some (tt, v') /\
     session v' user' /\
     nonneg (balance user') = true /\
     balance user' = F32.of_int 1050).
Proof.
  intros w v. split.
  - assert (Hs : session w alice_account) by evaluate_session.
    destruct (to_foreign_nonneg w alice_account Hs)
      as (w' & user' & E & Hs' & Hb & _); [evaluate .. | |].
    { intros usd H. vm_compute in H. injection H as <-. evaluate. }
    exists w', user'. split; [exact E|]. split; [exact Hs'|]. split; [exact Hb|].
    pose (after := match manageForexWallet w with Some (_, x) => x | None => w end).
    assert (E' : manageForexWallet w = Some (tt, after)) by evaluate.
    rewrite E' in E. injection E as <-.
    destruct Hs' as [_ [_ Hl]]. vm_compute in Hl. injection Hl as <-.
    split; evaluate.
  - assert (Hs : session v alice_account) by evaluate_session.
    destruct (to_foreign_nonneg v alice_account Hs)
      as (v' & user' & E & Hs' & Hb & _); [evaluate .. | |].
    { intros usd H. vm_compute in H. injection H as <-. evaluate. }
    exists v', user'. split; [exact E|]. split; [exact Hs'|]. split; [exact Hb|].
    pose (after := match manageForexWallet v with Some (_, x) => x | None => v end).
    assert (E' : manageForexWallet v = Some (tt, after)) by evaluate.
    rewrite E' in E. injection E as <-.
    destruct Hs' as [_ [_ Hl]]. vm_compute in Hl. injection Hl as <-.
    evaluate.
Defined.

(** Property X9.  The conversion back to USD (choice 4) keeps a
    non-negative balance non-negative when the amount typed is not
    negative, at the exchange rates the program starts with; the loan and
    the assets are not touched. *)
Theorem from_foreign_nonneg (w : World) (user : Account) :
  session w user ->
  exchangeRates w = initial_exchangeRates ->
  nonneg (balance user) = true ->
  entered w = Some 4 ->
  (forall units,
      entered_float (consume_line (consume_line w)) = Some units ->
      nonneg units = true) ->
  exists w' user',
    manageForexWallet w = Some (tt, w') /\
    session w' user' /\
    nonneg (balance user') = true /\
    loan user' = loan user /\ assets user' = assets user.
Proof.
  intros Hs Hx Hb H4 Hn.
  assert (Hr : forall v, exchangeRates (consume_line v) = exchangeRates v)
    by (intros v; unfold consume_line; now destruct (stdin v)).
  cut (returns (manageForexWallet w)
         (fun _ w' => exists user', session w' user' /\
                         nonneg (balance user') = true /\
                         loan user' = loan user /\ assets user' = assets user)).
  { intros ([] & w' & E & u' & H). now exists w', u'. }
  unfold manageForexWallet.
  erewrite run_current_user by in_session.
  rewrite run_getIntInput, H4.
  cbn [Z.leb Z.compare Pos.compare Pos.compare_cont andb Z.eqb Pos.eqb].
  rewrite run_getIntInput.
  destruct (entered (consume_line w)) as [currency|];
    [| exec; eexists; split; [in_session | auto]].
  rewrite run_getFloatInput.
  destruct (entered_float (consume_line (consume_line w))) as [units|] eqn:Ef;
    [| exec; eexists; split; [in_session | auto]].
  specialize (Hn units eq_refl).
  unfold bind at 1, get at 1. rewrite !Hr, Hx.
  destruct currency as [|[[]|[]|]|]; unfold convert_back; exec;
    (eexists; split; [in_session|]); cbn; auto;
    (split; [| auto]); apply add_nonneg; auto; now apply mul_nonneg.
Qed.

Lemma from_foreign_nonneg_witness :
  let w := state_after 3 (alice ++ [number 8; number 1; number 50;
                                    number 4; number 1; number 20]) in
  let user := to_eur (eur initial_exchangeRates) (F32.of_int 50) alice_account in
  exists w' user',
    manageForexWallet w = Some (tt, w') /\
    session w' user' /\
    nonneg (balance user') = true /\
    loan user' = loan user /\ assets user' = assets user.
Proof.
  intros w user.
  assert (Hs : session w user) by evaluate_session.
  apply (from_foreign_nonneg w user Hs); [evaluate .. |].
  intros units H. vm_compute in H. injection H as <-. evaluate.
Defined.

(** ** What no operation changes *)

Lemma unchanged_refl (w : World) : unchanged w w.
Proof. now constructor. Qed.

Lemma unchanged_trans (w1 w2 w3 : World) :
  unchanged w1 w2 -> unchanged w2 w3 -> unchanged w1 w3.
Proof. intros [] []. constructor; congruence. Qed.

Lemma respects_ret {A} (a : A) : respects unchanged (ret a).
Proof. intros w b w' [= _ <-]. apply unchanged_refl. Qed.

Lemma respects_bind {A B} (c : M A) (k : A -> M B) :
  respects unchanged c -> (forall a, respects unchanged (k a)) ->
  respects unchanged (bind c k).
Proof.
  intros Hc Hk w b w' E. unfold bind in E.
  destruct (c w) as [[a w1]|] eqn:E1; [| discriminate].
  eapply unchanged_trans; [eapply Hc | eapply Hk]; eauto.
Qed.

Lemma respects_get {A} (f : World -> A) : respects unchanged (get f).
Proof. intros w a w' [= _ <-]. apply unchanged_refl. Qed.

Lemma respects_print (o : Output) : respects unchanged (print o).
Proof. intros w a w' [= _ <-]. now constructor. Qed.

Lemma respects_displayError (e : ErrorCode) : respects unchanged (displayError e).
Proof. apply respects_print. Qed.

Lemma respects_getIntInput : respects unchanged getIntInput.
Proof.
  intros w a w' E. unfold getIntInput in E.
  destruct (stdin w); injection E as _ <-; now constructor.
Qed.

Lemma respects_getFloatInput : respects unchanged getFloatInput.
Proof.
  intros w a w' E. unfold getFloatInput in E.
  destruct (stdin w); injection E as _ <-; now constructor.
Qed.

Lemma respects_scanf_49s : respects unchanged scanf_49s.
Proof.
  intros w a w' E. unfold scanf_49s in E.
  destruct (stdin w); injection E as _ <-; now constructor.
Qed.

Lemma respects_rand : respects unchanged rand.
Proof.
  intros w a w' E. unfold rand in E.
  destruct (rand_values w); injection E as _ <-; now constructor.
Qed.

Lemma respects_saveAccounts : respects unchanged saveAccounts.
Proof.
  intros w a w' E. unfold saveAccounts in E.
  repeat match type of E with
         | context [if ?b then _ else _] => destruct b
         | context [match ?x with _ => _ end] => destruct x
         end;
    try discriminate E; injection E as _ <-; now constructor.
Qed.

Lemma respects_read_account (i : Z) : respects unchanged (read_account i).
Proof.
  intros w a w' E. unfold read_account in E.
  destruct (0 <=? i); [| discriminate].
  destruct (accounts w !! Z.to_nat i); [| discriminate].
  injection E as _ <-. apply unchanged_refl.
Qed.

Lemma respects_current_user : respects unchanged current_user.
Proof.
  apply respects_bind; [apply respects_get | intros; apply respects_read_account].
Qed.

Lemma respects_modify_user (f : Account -> Account) :
  (forall a, identity (f a) = identity a) -> respects unchanged (modify_user f).
Proof.
  intros Hf w [] w' E. unfold modify_user, bind, get, read_account, write_account in E.
  destruct (0 <=? currentUserIndex w); [| discriminate].
  destruct (accounts w !! Z.to_nat (currentUserIndex w)) as [a|] eqn:Ea;
    [| discriminate].
  cbn in E. destruct (_ <? _); [| discriminate].
  injection E as <-. constructor; cbn; try reflexivity.
  - apply length_insert.
  - rewrite list_fmap_insert, Hf. apply list_insert_id.
    now rewrite list_lookup_fmap, Ea.
Qed.

Lemma respects_verifyPIN : respects unchanged verifyPIN.
Proof.
  apply respects_bind; [apply respects_getIntInput |].
  intros [p|]; [| apply respects_ret].
  apply respects_bind; [apply respects_current_user | intros; apply respects_ret].
Qed.

Lemma respects_update_marketPrices (f : World -> MarketPrices) :
  respects unchanged (update (fun w => set_marketPrices (f w) w)).
Proof. intros w a w' [= _ <-]. now constructor. Qed.

Create HintDb unchanged.
#[local] Hint Resolve respects_ret respects_get respects_print
  respects_displayError respects_getIntInput respects_getFloatInput
  respects_scanf_49s respects_rand respects_saveAccounts
  respects_current_user respects_verifyPIN
  respects_update_marketPrices : unchanged.

Ltac respects_step :=
  match goal with
  | |- respects unchanged (bind _ _) => apply respects_bind; [| intros ?]
  | |- respects unchanged (modify_user _) =>
      apply respects_modify_user; intros []; reflexivity
  | |- respects unchanged (if ?b then _ else _) => destruct b
  | |- respects unchanged (match ?x with _ => _ end) => destruct x
  | |- respects unchanged _ => solve [auto with unchanged]
  end.

Lemma respects_depositCash (amount : float) : respects unchanged (depositCash amount).
Proof. unfold depositCash. repeat respects_step. Qed.

Lemma respects_withdrawCash (amount : float) : respects unchanged (withdrawCash amount).
Proof. unfold withdrawCash. repeat respects_step. Qed.

Lemma respects_processCashTransaction : respects unchanged processCashTransaction.
Proof.
  unfold processCashTransaction.
  repeat first [ apply respects_depositCash | apply respects_withdrawCash
               | respects_step ].
Qed.

Lemma respects_purchaseAsset : respects unchanged purchaseAsset.
Proof. unfold purchaseAsset. repeat respects_step. Qed.

Lemma respects_manageLoan : respects unchanged manageLoan.
Proof. unfold manageLoan. repeat respects_step. Qed.

Lemma respects_addInterest : respects unchanged addInterest.
Proof. unfold addInterest. repeat respects_step. Qed.

Lemma respects_displayAccountStatus : respects unchanged displayAccountStatus.
Proof. unfold displayAccountStatus. repeat respects_step. Qed.

Lemma respects_updateMarketPrices : respects unchanged updateMarketPrices.
Proof. unfold updateMarketPrices. repeat respects_step. Qed.

Lemma respects_convert_back holding set_holding rate amount :
  (forall v a, identity (set_holding v a) = identity a) ->
  respects unchanged (convert_back holding set_holding rate amount).
Proof.
  intros H. unfold convert_back.
  apply respects_bind; [auto with unchanged | intros u].
  destruct (F32.leb _ _); [| auto with unchanged].
  apply respects_bind; [apply respects_modify_user; intros; apply H | intros _].
  repeat respects_step.
Qed.

Lemma respects_manageForexWallet : respects unchanged manageForexWallet.
Proof.
  unfold manageForexWallet.
  repeat first
    [ apply respects_convert_back; intros ? []; reflexivity
    | respects_step ].
Qed.

(** ** Names and PINs that are accepted *)

Lemma substring_length (m : nat) (s : string) :
  (String.length (String.substring 0 m s) <= m)%nat.
Proof.
  revert s. induction m as [|m IH]; intros [|c s]; cbn; try lia.
  specialize (IH s). lia.
Qed.

Lemma substring_short (m : nat) (s : string) :
  (String.length s <= m)%nat -> String.substring 0 m s = s.
Proof.
  revert s. induction m as [|m IH]; intros [|c s]; cbn; intros H;
    try reflexivity; try lia.
  f_equal. apply IH. lia.
Qed.

Lemma scan_49s_length (l : Line) : (String.length (scan_49s l) <= 49)%nat.
Proof. apply substring_length. Qed.

Lemma name_loop_accepts (lines : list Line) :
  forall out nm rest out',
    name_loop lines out = Some (nm, rest, out') ->
    isAlphaString nm = true /\ (String.length nm <= 49)%nat.
Proof.
  induction lines as [|l lines IH]; intros out nm rest out' E; cbn in E.
  - discriminate.
  - destruct (isAlphaString (scan_49s l)) eqn:Ea.
    + injection E as <- _ _. split; [exact Ea | apply scan_49s_length].
    + eapply IH, E.
Qed.

Lemma pin_loop_accepts (lines : list Line) :
  forall out p rest out',
    pin_loop lines out = Some (p, rest, out') -> isValidPIN p = true.
Proof.
  induction lines as [|l lines IH]; intros out p rest out' E; cbn in E.
  - discriminate.
  - destruct (scan_d l) as [q|]; [| eapply IH, E].
    destruct (isValidPIN q) eqn:Ev; [| eapply IH, E].
    now injection E as <- _ _.
Qed.

(** ** Registration and the registry *)

Lemma registry_ok_transfer (w w' : World) :
  length (accounts w') = length (accounts w) ->
  accountCount w' = accountCount w ->
  identity <$> accounts w' = identity <$> accounts w ->
  registry_ok w -> registry_ok w'.
Proof.
  intros Hl Hc Hi [L C N P W].
  assert (Hr : identity <$> registry w' = identity <$> registry w)
    by (unfold registry; now rewrite !fmap_take, Hi, Hc).
  assert (Hn : name <$> registry w' = name <$> registry w).
  { change name with (fst ∘ identity).
    now rewrite !(list_fmap_compose identity fst), Hr. }
  assert (Hp : pin <$> registry w' = pin <$> registry w).
  { change pin with (snd ∘ identity).
    now rewrite !(list_fmap_compose identity snd), Hr. }
  constructor; try congruence.
  assert (Hw : Forall (fun i : string * Z =>
                         isAlphaString i.1 = true /\
                         (String.length i.1 <= 49)%nat /\
                         isValidPIN i.2 = true) (identity <$> registry w'))
    by (rewrite Hr; apply Forall_fmap; exact W).
  apply Forall_fmap in Hw. exact Hw.
Qed.

Lemma registry_ok_unchanged (w w' : World) :
  unchanged w w' -> registry_ok w -> registry_ok w'.
Proof. intros [L C I _ _]. now apply registry_ok_transfer. Qed.

(** [register] either refuses and changes nothing, or appends the new
    account. *)
Lemma register_effect (nm : string) (p : Z) (w : World) (r : ErrorCode) (w' : World) :
  0 <= accountCount w < Z.of_nat (length (accounts w)) ->
  register nm p w = Some (r, w') ->
  (Exists (shares_identity nm p) (registry w) /\ w' = w) \/
  (~ Exists (shares_identity nm p) (registry w) /\
   registry w' = registry w ++ [initializeAccount nm p] /\
   accountCount w' = accountCount w + 1 /\
   length (accounts w') = length (accounts w) /\
   currentUserIndex w' = currentUserIndex w /\
   exchangeRates w' = exchangeRates w).
Proof.
  intros Hc E.
  destruct (accountExists_registry nm p w ltac:(lia)) as (b & Eb & Hb).
  unfold register in E. rewrite (bind_Some _ _ _ _ _ Eb) in E.
  destruct b.
  - left. injection E as _ <-. split; [now apply Hb | reflexivity].
  - right. split; [intros H; apply Hb in H; discriminate|].
    unfold bind at 1, get in E. unfold bind at 1, write_account in E.
    replace (_ && _) with true in E by (symmetry; apply andb_true_iff; split; lia).
    unfold bind at 1, update in E.
    set (new := initializeAccount nm p) in *.
    set (w1 := set_accountCount _ _) in *.
    assert (Hreg : registry w1 = registry w ++ [new]).
    { unfold registry, w1. cbn.
      replace (Z.to_nat (accountCount w + 1))
        with (S (Z.to_nat (accountCount w))) by lia.
      assert (Hl : (Z.to_nat (accountCount w) < length (accounts w))%nat) by lia.
      rewrite (take_S_r _ _ new).
      - rewrite take_insert_ge by lia. reflexivity.
      - apply list_lookup_insert_eq. exact Hl. }
    assert (Hu : unchanged w1 w').
    { revert E.
      apply (respects_bind saveAccounts
               (fun result =>
                  bind (if ErrorCode_eqb result SUCCESS
                        then print OutSuccess else ret tt)
                       (fun _ => ret result))).
      - apply respects_saveAccounts.
      - intros result. apply respects_bind; [| intros; apply respects_ret].
        destruct (ErrorCode_eqb _ _); auto with unchanged. }
    destruct Hu as [L C I X R].
    assert (Ha : accounts w' = accounts w1).
    { revert E. unfold bind, saveAccounts, print, update, ret.
      repeat match goal with
             | |- context [if ?b then _ else _] => destruct b
             | |- context [match ?x with S _ => _ | O => _ end] => destruct x
             end; intros E; try discriminate E; now injection E as _ <-. }
    assert (Hreg' : registry w' = registry w1)
      by (unfold registry; now rewrite Ha, C).
    rewrite Hreg', Hreg, C, L, X, R.
    repeat split; try reflexivity.
    unfold w1. cbn. apply length_insert.
Qed.

Lemma createAccount_effect (w : World) (r : ErrorCode) (w' : World) :
  registry_ok w ->
  createAccount w = Some (r, w') ->
  registry_ok w' /\
  currentUserIndex w' = currentUserIndex w /\
  exchangeRates w' = exchangeRates w.
Proof.
  intros Hok E. unfold createAccount, bind at 1, get in E.
  destruct (MAX_ACCOUNTS <=? accountCount w) eqn:Efull.
  - injection E as _ <-. split; [| auto].
    apply (registry_ok_transfer w); [reflexivity .. | exact Hok].
  - apply Z.leb_gt in Efull.
    unfold bind at 1, read_name in E.
    destruct (name_loop (stdin w) []) as [[[nm rest1] out1]|] eqn:En;
      [| discriminate].
    destruct (name_loop_accepts _ _ _ _ _ En) as [Halpha Hlen].
    unfold bind at 1, read_pin in E. cbn [stdin set_stdin set_stdout] in E.
    destruct (pin_loop rest1 []) as [[[p rest2] out2]|] eqn:Ep; [| discriminate].
    pose proof (pin_loop_accepts _ _ _ _ _ Ep) as Hpin.
    set (w0 := set_stdout _ _) in E.
    assert (Hok0 : registry_ok w0)
      by (apply (registry_ok_transfer w); [reflexivity .. | exact Hok]).
    destruct Hok0 as [L C N P W].
    destruct (register_effect nm p w0 r w') as [[_ ->] | (Hfresh & Hreg & Hc & Hl & Hi & Hx)];
      [ change (accountCount w0) with (accountCount w);
        change (accounts w0) with (accounts w);
        destruct Hok as [L0 C0 _ _ _];
        split; [apply C0 | rewrite L0; exact Efull]
      | exact E
      | split; [now constructor | auto]
      | ].
    assert (Hnew : name (initializeAccount nm p) = nm)
      by (apply substring_short; exact Hlen).
    split; [| split; [exact Hi | exact Hx]].
    constructor.
    + now rewrite Hl.
    + rewrite Hc. change (accountCount w0) with (accountCount w) in *. lia.
    + rewrite Hreg, fmap_app. apply NoDup_app. split; [exact N|].
      split; [| apply NoDup_singleton].
      intros x Hx1 Hx2. change (x ∈ [name (initializeAccount nm p)]) in Hx2.
      apply list_elem_of_singleton in Hx2. rewrite Hnew in Hx2. subst x.
      apply list_elem_of_fmap in Hx1 as (a & Ha1 & Ha2).
      apply Hfresh, Exists_exists. exists a. split; [exact Ha2 | left; auto].
    + rewrite Hreg, fmap_app. apply NoDup_app. split; [exact P|].
      split; [| apply NoDup_singleton].
      intros x Hx1 Hx2. change (x ∈ [p]) in Hx2.
      apply list_elem_of_singleton in Hx2. subst x.
      apply list_elem_of_fmap in Hx1 as (a & Ha1 & Ha2).
      apply Hfresh, Exists_exists. exists a. split; [exact Ha2 | right; auto].
    + rewrite Hreg. apply Forall_app. split; [exact W|].
      apply Forall_singleton. unfold well_named. rewrite Hnew. auto.
Qed.

(** ** Login *)

Lemma unchanged_set_index (i : Z) (w w' : World) :
  unchanged w w' -> unchanged (set_currentUserIndex i w) (set_currentUserIndex i w').
Proof. intros []. now constructor. Qed.

Lemma login_loop_effect (nm : string) (p : Z) (n : nat) :
  forall i w r w',
    login_loop n i nm p w = Some (r, w') ->
    exists idx,
      unchanged (set_currentUserIndex idx w) w' /\
      ((r = SUCCESS /\ i <= idx < i + Z.of_nat n) \/
       (r = ERROR_INVALID_PIN /\ idx = currentUserIndex w)).
Proof.
  induction n as [|n IH]; intros i w r w' E; cbn [login_loop] in E.
  - injection E as <- <-. exists (currentUserIndex w). split; [now constructor|].
    right. auto.
  - unfold bind at 1, read_account in E.
    destruct (0 <=? i); [| discriminate].
    destruct (accounts w !! Z.to_nat i) as [a|]; [| discriminate].
    destruct (String.eqb (name a) nm && (pin a =? p)).
    + injection E as <- <-. exists i. split; [now constructor|]. left. split; [auto | lia].
    + destruct (IH _ _ _ _ E) as (idx & Hu & [[-> H]|[-> H]]);
        exists idx; (split; [exact Hu|]); [left | right]; split; auto; lia.
Qed.

Lemma loginAccount_effect (w : World) (r : ErrorCode) (w' : World) :
  0 <= accountCount w ->
  loginAccount w = Some (r, w') ->
  exists idx,
    unchanged (set_currentUserIndex idx w) w' /\
    ((r = SUCCESS /\ 0 <= idx < accountCount w) \/
     (r <> SUCCESS /\ idx = currentUserIndex w)).
Proof.
  intros Hc E. unfold loginAccount in E.
  unfold bind at 1 in E.
  destruct (scanf_49s w) as [[r1 w1]|] eqn:E1; [| discriminate].
  pose proof (respects_scanf_49s _ _ _ E1) as U1.
  destruct r1 as [nm|].
  2:{ injection E as <- <-. exists (currentUserIndex w).
      split; [| right; split; [discriminate | reflexivity]].
      destruct U1. now constructor. }
  unfold bind at 1 in E.
  destruct (getIntInput w1) as [[r2 w2]|] eqn:E2; [| discriminate].
  pose proof (respects_getIntInput _ _ _ E2) as U2.
  pose proof (unchanged_trans _ _ _ U1 U2) as U.
  destruct r2 as [p|].
  2:{ injection E as <- <-. exists (currentUserIndex w).
      split; [| right; split; [discriminate | reflexivity]].
      destruct U. now constructor. }
  unfold bind at 1, get in E.
  destruct (login_loop_effect _ _ _ _ _ _ _ E) as (idx & Hu & H).
  exists idx. split.
  - eapply unchanged_trans; [apply unchanged_set_index, U | exact Hu].
  - destruct U as [_ C _ I _].
    destruct H as [[-> H]|[-> ->]]; [left | right].
    + split; [reflexivity | lia].
    + split; [discriminate | exact I].
Qed.

(** ** The invariant of the program *)

Lemma then_ret {A B} (c : M A) (v : B) (w : World) (b : B) (w' : World) :
  bind c (fun _ => ret v) w = Some (b, w') ->
  b = v /\ exists a, c w = Some (a, w').
Proof.
  unfold bind, ret. destruct (c w) as [[a w1]|]; [| discriminate].
  intros [= <- <-]. eauto.
Qed.

Lemma program_invariant_unchanged (ph : Phase) (w w' : World) :
  unchanged w w' -> program_invariant ph w -> program_invariant ph w'.
Proof.
  intros U (Hok & Hx & Hi). pose proof U as [L C I X R].
  split; [eapply registry_ok_unchanged; eauto|].
  split; [congruence|]. rewrite X, C. exact Hi.
Qed.

Lemma main_menu_invariant (w : World) (ph' : Phase) (w' : World) :
  program_invariant MainMenu w ->
  main_menu w = Some (ph', w') ->
  program_invariant ph' w'.
Proof.
  intros Hinv E. unfold main_menu, bind at 1 in E.
  destruct (getIntInput w) as [[r1 w1]|] eqn:E1; [| discriminate].
  pose proof (respects_getIntInput _ _ _ E1) as U1.
  assert (Hinv1 := program_invariant_unchanged MainMenu _ _ U1 Hinv).
  assert (Herr : forall v,
             bind (displayError ERROR_INVALID_INPUT) (fun _ => ret MainMenu) w1
             = Some (ph', v) -> program_invariant ph' v).
  { intros v Ev. apply then_ret in Ev as [-> [a Ea]].
    eapply program_invariant_unchanged; [| exact Hinv1].
    eapply respects_displayError; eauto. }
  destruct r1 as [choice|]; [| now apply Herr].
  destruct choice as [|[[]|[]|]|]; try (now apply Herr).
  - (* 3: exit *)
    apply then_ret in E as [-> [a Ea]].
    destruct Hinv1 as (Hok & Hx & _).
    pose proof (respects_print _ _ _ _ Ea) as U.
    split; [eapply registry_ok_unchanged; eauto|].
    split; [destruct U; congruence | discriminate].
  - (* 2: login *)
    unfold bind at 1 in E.
    destruct (loginAccount w1) as [[r w2]|] eqn:E2; [| discriminate].
    injection E as <- <-.
    destruct Hinv1 as (Hok & Hx & _).
    destruct (loginAccount_effect _ _ _ ltac:(apply Hok) E2) as (idx & U & H).
    pose proof U as [L C I X R]. cbn in L, C, I, X, R.
    split; [eapply registry_ok_transfer; eauto|].
    split; [congruence|].
    destruct H as [[-> H]|[Hr ->]].
    + intros _. rewrite X, C. exact H.
    + destruct r; [congruence | discriminate ..].
  - (* 1: create *)
    apply then_ret in E as [-> [r Er]].
    destruct Hinv1 as (Hok & Hx & _).
    destruct (createAccount_effect _ _ _ Hok Er) as (Hok' & Hi' & Hx').
    split; [exact Hok'|]. split; [congruence | discriminate].
Qed.

Lemma user_menu_invariant (w : World) (ph' : Phase) (w' : World) :
  program_invariant UserMenu w ->
  user_menu w = Some (ph', w') ->
  program_invariant ph' w'.
Proof.
  intros Hinv E. unfold user_menu, bind at 1 in E.
  destruct (getIntInput w) as [[r1 w1]|] eqn:E1; [| discriminate].
  pose proof (respects_getIntInput _ _ _ E1) as U1.
  assert (Hinv1 := program_invariant_unchanged UserMenu _ _ U1 Hinv).
  assert (Hop : forall (c : M unit),
             respects unchanged c ->
             bind c (fun _ => ret UserMenu) w1 = Some (ph', w') ->
             program_invariant ph' w').
  { intros c Hc Ec. apply then_ret in Ec as [-> [a Ea]].
    eapply program_invariant_unchanged; [| exact Hinv1]. eapply Hc; eauto. }
  assert (Herr := Hop _ (respects_displayError ERROR_INVALID_INPUT)).
  destruct r1 as [choice|]; [| now apply Herr].
  destruct choice as [|p|p];
    repeat match type of E with
           | context [match ?q with xH => _ | _ => _ end] => destruct q
           end;
    try solve
        [ now apply Herr
        | injection E as <- <-; exact Hinv1
        | now apply (Hop _ respects_addInterest)
        | now apply (Hop _ respects_manageLoan)
        | now apply (Hop _ respects_updateMarketPrices)
        | now apply (Hop _ respects_purchaseAsset)
        | now apply (Hop _ respects_displayAccountStatus)
        | now apply (Hop _ respects_manageForexWallet)
        | now apply (Hop _ respects_processCashTransaction) ].
  (* 9: logout *)
  unfold bind at 1 in E.
  destruct (current_user w1) as [[u w2]|] eqn:E2; [| discriminate].
  pose proof (respects_current_user _ _ _ E2) as U2.
  injection E as <- <-.
  destruct (program_invariant_unchanged UserMenu _ _ U2 Hinv1) as (Hok & Hx & _).
  split; [apply (registry_ok_transfer w2); auto|].
  split; [exact Hx | discriminate].
Qed.

Lemma step_invariant (ph : Phase) (w : World) (ph' : Phase) (w' : World) :
  program_invariant ph w ->
  step ph w = Some (ph', w') ->
  program_invariant ph' w'.
Proof.
  destruct ph; cbn [step].
  - apply main_menu_invariant.
  - apply user_menu_invariant.
  - intros H [= <- <-]. exact H.
Qed.

Lemma steps_invariant (n : nat) :
  forall ph w ph' w',
    program_invariant ph w ->
    steps n ph w = Some (ph', w') ->
    program_invariant ph' w'.
Proof.
  induction n as [|n IH]; intros ph w ph' w' Hinv E; cbn [steps] in E.
  - injection E as <- <-. exact Hinv.
  - unfold bind in E. destruct (step ph w) as [[ph1 w1]|] eqn:E1; [| discriminate].
    eapply IH; [| exact E]. eapply step_invariant; eauto.
Qed.

(** Property X10.  Started without a data file, [main] keeps the registry
    in order after any number of loop iterations on any input: the array
    has its 100 slots, the count is between 0 and 100, no two registered
    accounts share a name or a PIN, every registered name is alphabetic
    and at most 49 characters long, every PIN has four digits, the
    exchange rates are the initial ones, and in the user menu the session
    is on a registered account. *)
Theorem first_run_invariant (n : nat) (input : list Line) (d : Disk)
        (rs : list Z) (ph : Phase) (w : World) :
  d_file d = None ->
  main n (initial_world input d rs) = Some (ph, w) ->
  program_invariant ph w.
Proof.
  intros Hd E. unfold main, main_start, bind at 1 in E.
  unfold bind at 1, loadAccounts in E. cbn [disk initial_world] in E.
  rewrite Hd in E. cbn [ErrorCode_eqb] in E.
  unfold bind at 1, print, update in E. cbn [ret] in E.
  eapply steps_invariant; [| exact E].
  split; [| split; [reflexivity | discriminate]].
  constructor.
  - reflexivity.
  - split; discriminate.
  - constructor.
  - constructor.
  - constructor.
Qed.

Lemma first_run_invariant_witness :
  program_invariant UserMenu (state_after 2 alice).
Proof.
  apply (first_run_invariant 2 alice first_run []); evaluate.
Defined.

(** ** The user menu always returns *)

Lemma keeps_rand : keeps_frame rand.
Proof.
  intros w _. unfold rand.
  destruct (rand_values w); eexists _, _; (split; [reflexivity | now constructor]).
Qed.

Lemma keeps_update_marketPrices (f : World -> MarketPrices) :
  keeps_frame (update (fun w => set_marketPrices (f w) w)).
Proof. intros w _. eexists _, _. split; [reflexivity | now constructor]. Qed.

Lemma keeps_updateMarketPrices : keeps_frame updateMarketPrices.
Proof.
  unfold updateMarketPrices.
  repeat first [ apply keeps_rand | apply keeps_update_marketPrices
               | apply keeps_bind; [| intros ?] ].
Qed.

Lemma keeps_displayAccountStatus : keeps_frame displayAccountStatus.
Proof. unfold displayAccountStatus. repeat frame_step. Qed.

Lemma keeps_processCashTransaction : keeps_frame processCashTransaction.
Proof.
  unfold processCashTransaction.
  repeat first [ apply keeps_depositCash | apply keeps_withdrawCash | frame_step ].
Qed.

Lemma program_invariant_well_formed (w : World) :
  program_invariant UserMenu w -> well_formed w.
Proof.
  intros ([L C _ _ _] & _ & Hi). specialize (Hi eq_refl).
  unfold well_formed. rewrite L. lia.
Qed.

Lemma user_menu_returns (w : World) :
  program_invariant UserMenu w ->
  exists ph' w',
    user_menu w = Some (ph', w') /\
    (ph' = UserMenu \/ ph' = Exited) /\
    program_invariant ph' w'.
Proof.
  intros Hinv.
  cut (exists ph' w', user_menu w = Some (ph', w') /\
                      (ph' = UserMenu \/ ph' = Exited)).
  { intros (ph' & w' & E & H). exists ph', w'. split; [exact E|].
    split; [exact H|]. eapply user_menu_invariant; eauto. }
  pose proof (well_formed_consume_line _ (program_invariant_well_formed _ Hinv)) as Hw.
  unfold user_menu. rewrite (bind_Some _ _ _ _ _ (getIntInput_run w)).
  assert (Hop : forall c : M unit,
             keeps_frame c ->
             exists ph' w',
               bind c (fun _ => ret UserMenu) (consume_line w) = Some (ph', w') /\
               (ph' = UserMenu \/ ph' = Exited)).
  { intros c Hc. destruct (Hc _ Hw) as (a & w' & E & _).
    exists UserMenu, w'. rewrite (bind_Some _ _ _ _ _ E). auto. }
  assert (Herr := Hop _ (keeps_displayError ERROR_INVALID_INPUT)).
  destruct (entered w) as [choice|]; [| exact Herr].
  destruct choice as [|p|p];
    repeat match goal with
           | |- context [match ?q with xH => _ | _ => _ end] => destruct q
           end;
    try solve
        [ exact Herr
        | eexists _, _; split; [reflexivity | auto]
        | apply (Hop _ keeps_addInterest)
        | apply (Hop _ keeps_manageLoan)
        | apply (Hop _ keeps_updateMarketPrices)
        | apply (Hop _ keeps_purchaseAsset)
        | apply (Hop _ keeps_displayAccountStatus)
        | apply (Hop _ keeps_manageForexWallet)
        | apply (Hop _ keeps_processCashTransaction) ].
  destruct (current_user_Some _ Hw) as (u & _ & E).
  rewrite (bind_Some _ _ _ _ _ E).
  eexists _, _. split; [reflexivity | auto].
Qed.

(** ** Who is logged in *)

Lemma login_loop_found (nm : string) (p : Z) (w : World) (n : nat) :
  forall (i : Z) (k : nat) (a : Account),
    0 <= i ->
    (k < n)%nat ->
    accounts w !! (Z.to_nat i + k)%nat = Some a ->
    credentials nm p a = true ->
    (forall j b, (j < k)%nat -> accounts w !! (Z.to_nat i + j)%nat = Some b ->
                 credentials nm p b = false) ->
    login_loop n i nm p w
    = Some (SUCCESS,
            set_stdout (stdout w ++ [OutSuccess])
                       (set_currentUserIndex (i + Z.of_nat k) w)).
Proof.
  induction n as [|n IH]; intros i k a Hi Hk Ha Hc Hbefore; [lia|].
  cbn [login_loop].
  assert (Hlen : (Z.to_nat i + k < length (accounts w))%nat)
    by (eapply lookup_lt_Some; eauto).
  destruct (read_account_Some i w ltac:(lia)) as (b & Eb & Er).
  rewrite (bind_Some _ _ _ _ _ Er).
  destruct k as [|k].
  - rewrite Nat.add_0_r in Ha. rewrite Ha in Eb. injection Eb as <-.
    unfold credentials in Hc. rewrite Hc, Z.add_0_r. reflexivity.
  - assert (Hb : credentials nm p b = false).
    { apply (Hbefore 0%nat); [lia|]. now rewrite Nat.add_0_r. }
    unfold credentials in Hb. rewrite Hb.
    replace (i + Z.of_nat (S k)) with (i + 1 + Z.of_nat k) by lia.
    apply (IH (i + 1) k a); try lia; auto.
    + replace (Z.to_nat (i + 1) + k)%nat with (Z.to_nat i + S k)%nat by lia.
      exact Ha.
    + intros j c Hj Hcj. apply (Hbefore (S j)); [lia|].
      replace (Z.to_nat i + S j)%nat with (Z.to_nat (i + 1) + j)%nat by lia.
      exact Hcj.
Qed.

Lemma login_loop_not_found (nm : string) (p : Z) (w : World) (n : nat) :
  forall i : Z,
    0 <= i ->
    (Z.to_nat i + n <= length (accounts w))%nat ->
    (forall j b, (j < n)%nat -> accounts w !! (Z.to_nat i + j)%nat = Some b ->
                 credentials nm p b = false) ->
    login_loop n i nm p w
    = Some (ERROR_INVALID_PIN, set_stdout (stdout w ++ [OutErrorText]) w).
Proof.
  induction n as [|n IH]; intros i Hi Hlen Hnone; [reflexivity|].
  cbn [login_loop].
  destruct (read_account_Some i w ltac:(lia)) as (b & Eb & Er).
  rewrite (bind_Some _ _ _ _ _ Er).
  assert (Hb : credentials nm p b = false).
  { apply (Hnone 0%nat); [lia|]. now rewrite Nat.add_0_r. }
  unfold credentials in Hb. rewrite Hb.
  apply IH; try lia.
  intros j c Hj Hcj. apply (Hnone (S j)); [lia|].
  replace (Z.to_nat i + S j)%nat with (Z.to_nat (i + 1) + j)%nat by lia.
  exact Hcj.
Qed.

(** Property X11.  [loginAccount] reads a name and a PIN and searches the
    registry from index 0: the session is opened on the first account
    with that name and that PIN, with [SUCCESS]; when no registered
    account has both, it fails with [ERROR_INVALID_PIN], prints an error,
    and changes nothing but the console. *)
Theorem loginAccount_spec (w : World) (l1 l2 : Line) (rest : list Line) (p : Z) :
  0 <= accountCount w <= Z.of_nat (length (accounts w)) ->
  stdin w = l1 :: l2 :: rest ->
  scan_d l2 = Some p ->
  (forall (i : nat) (a : Account),
      registry w !! i = Some a ->
      credentials (scan_49s l1) p a = true ->
      (forall j b, (j < i)%nat -> registry w !! j = Some b ->
                   credentials (scan_49s l1) p b = false) ->
      loginAccount w
      = Some (SUCCESS,
              set_stdout (stdout w ++ [OutSuccess])
                         (set_currentUserIndex (Z.of_nat i) (set_stdin rest w)))) /\
  ((forall a, a ∈ registry w -> credentials (scan_49s l1) p a = false) ->
   loginAccount w
   = Some (ERROR_INVALID_PIN,
           set_stdout (stdout w ++ [OutErrorText]) (set_stdin rest w))).
Proof.
  intros Hc Hin Hp.
  assert (E : loginAccount w
              = login_loop (Z.to_nat (accountCount w)) 0 (scan_49s l1) p
                           (set_stdin rest w)).
  { unfold loginAccount, bind at 1, scanf_49s. rewrite Hin.
    unfold bind at 1, getIntInput. cbn [stdin set_stdin]. rewrite Hp.
    reflexivity. }
  rewrite E. split.
  - intros i a Ha Hcred Hbefore.
    unfold registry in Ha. apply lookup_take_Some in Ha as [Ha Hi].
    erewrite (login_loop_found _ _ (set_stdin rest w) _ 0 i a); eauto; try lia.
    intros j b Hj Hb. apply (Hbefore j); [exact Hj|].
    unfold registry. rewrite lookup_take_lt by lia. exact Hb.
  - intros Hnone.
    apply (login_loop_not_found _ _ (set_stdin rest w)); try (cbn; lia).
    intros j b Hj Hb. apply Hnone. unfold registry.
    apply list_elem_of_lookup. exists j. rewrite lookup_take_lt by lia. exact Hb.
Qed.

Lemma loginAccount_spec_witness :
  let w := state_after 1 [number 1; word "alice"%string; number 1234;
                          word "alice"%string; number 1234] in
  let v := state_after 1 [number 1; word "alice"%string; number 1234;
                          word "alice"%string; number 4321] in
  loginAccount w
  = Some (SUCCESS,
          set_stdout (stdout w ++ [OutSuccess])
                     (set_currentUserIndex 0 (set_stdin [] w))) /\
  loginAccount v
  = Some (ERROR_INVALID_PIN,
          set_stdout (stdout v ++ [OutErrorText]) (set_stdin [] v)).
Proof.
  intros w v. split.
  - destruct (loginAccount_spec w (word "alice"%string) (number 1234) [] 1234)
      as [Hfound _]; [split; evaluate | evaluate ..|].
    apply (Hfound 0%nat alice_account); [evaluate ..|].
    intros j b Hj. lia.
  - destruct (loginAccount_spec v (word "alice"%string) (number 4321) [] 4321)
      as [_ Hnone]; [split; evaluate | evaluate ..|].
    apply Hnone. intros a Ha.
    assert (Hr : registry v = [alice_account]) by evaluate.
    rewrite Hr in Ha. apply list_elem_of_singleton in Ha. subst a. evaluate.
Defined.

(** ** Registration, then login *)

(** Property X12.  Registration, then login.  After [register] has added
    an account under a name of at most 49 characters, a login with that
    name and PIN succeeds and opens the session on the new account, at
    the index of the old count; this holds whatever [register] returned,
    so also when the data file could not be written. *)
Theorem register_then_login (w : World) (nm : string) (p : Z)
        (r : ErrorCode) (w1 : World) (l1 l2 : Line) (rest : list Line) :
  0 <= accountCount w < Z.of_nat (length (accounts w)) ->
  ~ Exists (shares_identity nm p) (registry w) ->
  (String.length nm <= 49)%nat ->
  register nm p w = Some (r, w1) ->
  stdin w1 = l1 :: l2 :: rest ->
  scan_49s l1 = nm ->
  scan_d l2 = Some p ->
  loginAccount w1
  = Some (SUCCESS,
          set_stdout (stdout w1 ++ [OutSuccess])
                     (set_currentUserIndex (accountCount w) (set_stdin rest w1))).
Proof.
  intros Hc Hfresh Hlen Er Hin Hnm Hp.
  destruct (register_effect nm p w r w1 Hc Er)
    as [[Hdup _] | (_ & Hreg & Hc1 & Hl1 & _ & _)]; [contradiction|].
  assert (Hrl : length (registry w) = Z.to_nat (accountCount w))
    by (unfold registry; rewrite length_take; lia).
  assert (E : loginAccount w1
              = login_loop (Z.to_nat (accountCount w1)) 0 nm p (set_stdin rest w1)).
  { unfold loginAccount, bind at 1, scanf_49s. rewrite Hin, Hnm.
    unfold bind at 1, getIntInput. cbn [stdin set_stdin]. rewrite Hp.
    reflexivity. }
  assert (Hlook : forall j, (j < Z.to_nat (accountCount w1))%nat ->
                            accounts w1 !! j = (registry w ++ [initializeAccount nm p]) !! j).
  { intros j Hj. rewrite <- Hreg. unfold registry. now rewrite lookup_take_lt. }
  rewrite E.
  rewrite (login_loop_found nm p (set_stdin rest w1) _ 0
             (Z.to_nat (accountCount w)) (initializeAccount nm p)); try lia.
  - cbn. now rewrite Z2Nat.id by lia.
  - cbn. rewrite Hlook by lia.
    rewrite lookup_app_r by lia. now rewrite Hrl, Nat.sub_diag.
  - unfold credentials, initializeAccount. cbn [name pin].
    change (Z.to_nat (MAX_NAME_LENGTH - 1)) with 49%nat.
    rewrite (substring_short _ _ Hlen), String.eqb_refl, Z.eqb_refl. reflexivity.
  - intros j b Hj Hb. cbn in Hb. rewrite Hlook in Hb by lia.
    rewrite lookup_app_l in Hb by lia.
    unfold credentials. apply andb_false_iff.
    destruct (String.eqb (name b) nm) eqn:En; [| now left].
    exfalso. apply Hfresh, Exists_exists. exists b.
    split; [eapply list_elem_of_lookup_2; eauto|].
    left. now apply String.eqb_eq.
Qed.

Lemma register_then_login_witness :
  let w := state_after 2 (alice ++ [word "bob"%string; number 4321]) in
  exists w1,
    register "bob"%string 4321 w = Some (SUCCESS, w1) /\
    loginAccount w1
    = Some (SUCCESS,
            set_stdout (stdout w1 ++ [OutSuccess])
                       (set_currentUserIndex 1 (set_stdin [] w1))).
Proof.
  intros w.
  pose (w1 := match register "bob"%string 4321 w with
              | Some (_, w1) => w1
              | None => w
              end).
  assert (E : register "bob"%string 4321 w = Some (SUCCESS, w1)) by evaluate.
  exists w1. split; [exact E|].
  assert (Hr : registry w = [alice_account]) by evaluate.
  apply (register_then_login w "bob"%string 4321 SUCCESS w1
                             (word "bob"%string) (number 4321) []);
    [split; evaluate | | evaluate ..].
  rewrite Hr, Exists_cons, Exists_nil.
  intros [[H|H]|[]]; vm_compute in H; discriminate H.
Defined.

(** ** The data file: failures *)

(** Property X13.  A data file that ends early makes [loadAccounts] fail,
    and [main] goes on to the main menu after a warning, with what was
    read left in place.  If the file ends inside the count, the bytes
    that are there have gone into [accountCount] and the array is as it
    was.  If the file announces more records than it holds, the announced
    count is in [accountCount], the whole records are in the first slots
    and the bytes of a record cut short are in the slot after them. *)
Theorem main_start_short_file (w : World) (count : option Z)
        (recs : list Account) (cut : option Cut) :
  d_file (disk w) = Some (mkFile count recs cut) ->
  d_openable (disk w) = true ->
  (count = None ->
   main_start w
   = Some (MainMenu,
           set_stdout (stdout w ++ [OutWarning])
                      (set_accountCount (read_cut_count cut (accountCount w)) w))) /\
  (forall n,
      count = Some n ->
      Z.of_nat (length recs) < size_t_of_int n ->
      (length recs + cut_slots cut <= length (accounts w))%nat ->
      main_start w
      = Some (MainMenu,
              set_stdout (stdout w ++ [OutWarning])
                         (set_accounts
                            (recs ++ read_cut cut (drop (length recs) (accounts w)))
                            (set_accountCount n w)))).
Proof.
  intros Hf Ho. split.
  - intros ->. unfold main_start, bind at 1, loadAccounts.
    rewrite Hf, Ho. cbn [negb f_count f_cut].
    destruct cut as [[bytes|bytes]|]; cbn [read_cut_count]; try reflexivity;
      now destruct w.
  - intros n -> Hn Hl. unfold main_start, bind at 1, loadAccounts.
    rewrite Hf, Ho. cbn [negb f_count f_records f_cut].
    replace (size_t_of_int n <? Z.of_nat (length recs)) with false by lia.
    replace (length (accounts w) <? length recs)%nat with false
      by (symmetry; apply Nat.ltb_ge; lia).
    replace (Z.of_nat (length recs) =? size_t_of_int n) with false by lia.
    destruct cut as [[bytes|bytes]|]; cbn [read_cut]; try reflexivity.
    cbn [cut_slots] in Hl.
    destruct (drop (length recs) (accounts w)) as [|old rest] eqn:Ed;
      [| reflexivity].
    apply (f_equal length) in Ed. rewrite length_drop in Ed. cbn in Ed. lia.
Qed.

Lemma main_start_short_file_witness :
  let cut := CutRecord (name_and_pin (initializeAccount "bob"%string 4321)) in
  let w := initial_world []
             (mkDevice (Some (mkFile (Some 5) [alice_account] (Some cut)))
                       true 200 0 None) [] in
  let v := initial_world []
             (mkDevice (Some (mkFile None [] (Some (CutCount (fun old => old + 256)))))
                       true 200 0 None) [] in
  (exists w',
     main_start w = Some (MainMenu, w') /\
     accountCount w' = 5 /\
     registry w'
     = alice_account :: name_and_pin (initializeAccount "bob"%string 4321) zero_account
                     :: replicate 3 zero_account /\
     stdout w' = [OutWarning]) /\
  (exists v',
     main_start v = Some (MainMenu, v') /\
     accountCount v' = 256 /\
     accounts v' = accounts v /\
     stdout v' = [OutWarning]).
Proof.
  intros cut w v. split.
  - destruct (main_start_short_file w (Some 5) [alice_account] (Some cut))
      as [_ H]; [reflexivity | reflexivity |].
    eexists. split; [apply (H 5); evaluate|]. repeat split; evaluate.
  - destruct (main_start_short_file v None [] (Some (CutCount (fun old => old + 256))))
      as [H _]; [reflexivity | reflexivity |].
    eexists. split; [apply H; reflexivity|]. repeat split; evaluate.
Defined.

(** Property X14.  When the data file can be opened but the device has no
    room for the count and the whole registry, [saveAccounts] leaves the
    accounts in memory as they are and a file that holds only the records
    that fitted, whatever it held before, which a later [loadAccounts]
    rejects.  It reports this with [ERROR_FILE_IO] only when the stream
    did not take every item: when the items that do not fit are still in
    the buffer of the stream at [fclose], the result is [SUCCESS]. *)
Theorem full_device_loses_file (w : World) :
  0 <= accountCount w <= Z.of_nat (length (accounts w)) ->
  accountCount w < 2 ^ 64 ->
  d_openable (disk w) = true ->
  (d_room (disk w) <= Z.to_nat (accountCount w))%nat ->
  exists result w',
    saveAccounts w = Some (result, w') /\
    accounts w' = accounts w /\
    (result = SUCCESS \/ result = ERROR_FILE_IO) /\
    (result = SUCCESS <->
     (Z.to_nat (accountCount w) < d_room (disk w) + d_buffer (disk w))%nat) /\
    (exists fd, d_file (disk w') = Some fd /\
                f_records fd = take (d_room (disk w) - 1) (accounts w)) /\
    forall v,
      disk v = disk w' ->
      (Z.to_nat (accountCount w) <= length (accounts v))%nat ->
      exists v', loadAccounts v = Some (ERROR_FILE_IO, v').
Proof.
  intros Hc H64 Ho Hroom.
  assert (Hload : forall v,
             d_file (disk v)
             = Some (written (disk w) (accountCount w) (registry w)) ->
             d_openable (disk v) = true ->
             (Z.to_nat (accountCount w) <= length (accounts v))%nat ->
             exists v', loadAccounts v = Some (ERROR_FILE_IO, v')).
  { intros v Hf Hov Hlv. unfold loadAccounts. rewrite Hf, Hov. cbn [negb].
    unfold written. destruct (d_room (disk w)) as [|room] eqn:Er.
    - cbn [f_count]. eauto.
    - cbn [f_count f_records f_cut].
      assert (Hs : size_t_of_int (accountCount w) = accountCount w)
        by (unfold size_t_of_int; apply Z.mod_small; lia).
      assert (Hlen : length (take room (registry w)) = room)
        by (unfold registry; rewrite !length_take; lia).
      rewrite Hs, !Hlen.
      replace (accountCount w <? Z.of_nat room) with false by lia.
      rewrite !Hlen.
      replace (length (accounts v) <? room)%nat with false
        by (symmetry; apply Nat.ltb_ge; lia).
      replace (Z.of_nat room =? accountCount w) with false by lia.
      destruct (drop room (accounts v)) as [|old rest] eqn:Ed.
      { apply (f_equal length) in Ed. rewrite length_drop in Ed. cbn in Ed. lia. }
      destruct (registry w !! room) as [a|]; [| eauto].
      destruct (d_split (disk w)) as [s|]; eauto. }
  assert (Hrec : f_records (written (disk w) (accountCount w) (registry w))
                 = take (d_room (disk w) - 1) (accounts w)).
  { unfold written. destruct (d_room (disk w)) as [|room]; [reflexivity|].
    cbn [f_records]. unfold registry. rewrite take_take.
    f_equal. lia. }
  unfold saveAccounts. rewrite Ho. cbn [negb].
  destruct (d_room (disk w) + d_buffer (disk w))%nat as [|taken] eqn:Et.
  - assert (Ew : written (disk w) (accountCount w) []
                 = written (disk w) (accountCount w) (registry w)).
    { unfold written. destruct (d_room (disk w)); [reflexivity | lia]. }
    rewrite Ew.
    eexists _, _. split; [reflexivity|]. split; [reflexivity|].
    split; [auto|]. split; [split; [discriminate | lia]|]. split.
    + eexists. split; [reflexivity | exact Hrec].
    + intros v Hv Hlv. apply Hload; [| | exact Hlv]; now rewrite Hv.
  - replace (_ || _) with false by (symmetry; apply orb_false_iff; split; lia).
    fold (registry w).
    destruct (_ =? _) eqn:El;
      [apply Z.eqb_eq in El | apply Z.eqb_neq in El];
      (eexists _, _; split; [reflexivity|]; split; [reflexivity|];
       split; [auto|]; split; [| split]).
    + split; [intros _; lia | reflexivity].
    + eexists. split; [reflexivity | exact Hrec].
    + intros v Hv Hlv. apply Hload; [| | exact Hlv]; now rewrite Hv.
    + split; [discriminate | intros; lia].
    + eexists. split; [reflexivity | exact Hrec].
    + intros v Hv Hlv. apply Hload; [| | exact Hlv]; now rewrite Hv.
Qed.

Lemma full_device_loses_file_witness :
  let split := mkSplit (fun n old => old) name_and_pin in
  let w := set_disk (mkDevice (Some (mkFileData (Some 0) [])) true 1 4 (Some split))
                    (state_after 2 alice) in
  exists w' v',
    saveAccounts w = Some (SUCCESS, w') /\
    accounts w' = accounts w /\
    d_file (disk w')
    = Some (mkFile (Some 1) [] (Some (CutRecord (name_and_pin alice_account)))) /\
    loadAccounts (set_disk (disk w') (initial_world [] first_run []))
    = Some (ERROR_FILE_IO, v') /\
    accountCount v' = 1 /\
    registry v' = [set_balance F32.zero alice_account].
Proof.
  intros split w.
  destruct (full_device_loses_file w) as (r & w' & E & Ha & _ & Hr & _ & Hl);
    [split; evaluate | evaluate ..|].
  assert (Hs : r = SUCCESS) by (apply Hr; evaluate).
  subst r.
  destruct (Hl (set_disk (disk w') (initial_world [] first_run [])))
    as (v' & Ev); [reflexivity | evaluate |].
  exists w', v'. split; [exact E|]. split; [exact Ha|].
  assert (Ew : saveAccounts w
               = Some (SUCCESS,
                       set_disk (mkDevice
                                   (Some (mkFile (Some 1) []
                                            (Some (CutRecord (name_and_pin alice_account)))))
                                   true 1 4 (Some split)) w))
    by reflexivity.
  rewrite Ew in E. injection E as <-.
  split; [reflexivity|]. split; [exact Ev|].
  assert (Ev' : loadAccounts
                  (set_disk (mkDevice
                               (Some (mkFile (Some 1) []
                                        (Some (CutRecord (name_and_pin alice_account)))))
                               true 1 4 (Some split))
                            (initial_world [] first_run []))
                = Some (ERROR_FILE_IO,
                        set_accounts
                          (name_and_pin alice_account zero_account
                           :: replicate 99 zero_account)
                          (set_accountCount 1
                             (set_disk (mkDevice
                                          (Some (mkFile (Some 1) []
                                                   (Some (CutRecord (name_and_pin alice_account)))))
                                          true 1 4 (Some split))
                                       (initial_world [] first_run [])))))
    by reflexivity.
  cbn [disk set_disk] in Ev. rewrite Ev' in Ev. injection Ev as <-.
  split; reflexivity.
Defined.

(** ** End of input *)

Lemma step_end_of_input (ph : Phase) (w : World) :
  stdin w = [] -> ph <> Exited ->
  step ph w
  = Some (ph, set_stdout (stdout w ++ [OutError ERROR_INVALID_INPUT]) w).
Proof.
  intros Hin Hph.
  destruct ph; [| | contradiction]; cbn [step];
    unfold main_menu, user_menu, bind at 1, getIntInput; rewrite Hin; reflexivity.
Qed.

(** Property X15.  At end of input neither menu loop exits: every
    iteration fails to read a choice, displays [ERROR_INVALID_INPUT] and
    starts again, with the accounts and the data file unchanged. *)
Theorem end_of_input_never_exits (n : nat) :
  forall (ph : Phase) (w : World),
    stdin w = [] -> ph <> Exited ->
    exists w',
      steps n ph w = Some (ph, w') /\
      stdin w' = [] /\
      accounts w' = accounts w /\
      disk w' = disk w /\
      stdout w' = stdout w ++ replicate n (OutError ERROR_INVALID_INPUT).
Proof.
  induction n as [|n IH]; intros ph w Hin Hph.
  - exists w. cbn. now rewrite app_nil_r.
  - cbn [steps]. rewrite (bind_Some _ _ _ _ _ (step_end_of_input ph w Hin Hph)).
    destruct (IH ph (set_stdout (stdout w ++ [OutError ERROR_INVALID_INPUT]) w)
                 Hin Hph) as (w' & E & H1 & H2 & H3 & H4).
    exists w'. split; [exact E|]. repeat split; auto.
    rewrite H4. cbn. now rewrite <- app_assoc.
Qed.

Lemma end_of_input_never_exits_witness :
  exists w',
    steps 3 UserMenu (state_after 2 alice) = Some (UserMenu, w') /\
    stdin w' = [] /\
    accounts w' = accounts (state_after 2 alice) /\
    disk w' = disk (state_after 2 alice) /\
    stdout w' = stdout (state_after 2 alice)
                ++ replicate 3 (OutError ERROR_INVALID_INPUT).
Proof.
  apply (end_of_input_never_exits 3 UserMenu (state_after 2 alice)); evaluate.
Defined.

(** ** Market prices *)

Lemma growth_positive (k : Z) :
  -15 <= k <= 19 -> exists m e, growth k = S754_finite false m e.
Proof.
  intros Hk.
  assert (Hall : forallb (fun k => positive_finite (growth k)) (percentages (-15) 35) = true)
    by (vm_compute; reflexivity).
  assert (Hin : In k (percentages (-15) 35)).
  { unfold percentages. apply in_map_iff. exists (Z.to_nat (k + 15)).
    split; [lia|]. apply in_seq. lia. }
  pose proof (proj1 (forallb_forall _ _) Hall k Hin) as Hp.
  cbv beta in Hp.
  destruct (growth k) as [| | |[] m e]; try discriminate Hp. eauto.
Qed.

Lemma apply_change_nonneg (price : float) (k : Z) :
  -15 <= k <= 19 ->
  nonneg price = true ->
  nonneg (apply_change price (F32.div (F32.of_int k) (F32.of_int 100))) = true.
Proof.
  intros Hk Hp. unfold apply_change. fold (growth k).
  destruct (growth_positive k Hk) as (m & e & ->). now apply mul_nonneg.
Qed.

Lemma rand_draw (w : World) :
  Forall (fun r => 0 <= r) (rand_values w) ->
  exists r w', rand w = Some (r, w') /\ 0 <= r /\
               Forall (fun r => 0 <= r) (rand_values w') /\
               marketPrices w' = marketPrices w /\
               accounts w' = accounts w /\ accountCount w' = accountCount w /\
               currentUserIndex w' = currentUserIndex w /\
               exchangeRates w' = exchangeRates w /\
               stdin w' = stdin w /\ stdout w' = stdout w /\ disk w' = disk w.
Proof.
  intros H. unfold rand. destruct (rand_values w) as [|r rest] eqn:E.
  - exists 0, w. rewrite E. repeat split; auto. lia.
  - inversion H; subst. exists r, (set_rand_values rest w).
    repeat split; auto.
Qed.

(** Property X16.  [updateMarketPrices] draws three values from [rand]
    (each at least 0) and multiplies the price of crypto by
    [1 + k1/100] with [k1] from -15 to 19, gold with [k2] from -5 to 9 and
    silver with [k3] from -10 to 14, so a price that is not negative stays
    so; the accounts, the count, the exchange rates and the data file are
    not touched. *)
Theorem updateMarketPrices_bounds (w : World) :
  Forall (fun r => 0 <= r) (rand_values w) ->
  exists (k1 k2 k3 : Z) (w' : World),
    updateMarketPrices w = Some (tt, w') /\
    (-15 <= k1 <= 19 /\ -5 <= k2 <= 9 /\ -10 <= k3 <= 14) /\
    marketPrices w'
    = mkMarketPrices
        (apply_change (crypto (marketPrices w)) (F32.div (F32.of_int k1) (F32.of_int 100)))
        (apply_change (gold (marketPrices w)) (F32.div (F32.of_int k2) (F32.of_int 100)))
        (apply_change (silver (marketPrices w)) (F32.div (F32.of_int k3) (F32.of_int 100))) /\
    (nonneg (crypto (marketPrices w)) = true ->
     nonneg (crypto (marketPrices w')) = true) /\
    (nonneg (gold (marketPrices w)) = true ->
     nonneg (gold (marketPrices w')) = true) /\
    (nonneg (silver (marketPrices w)) = true ->
     nonneg (silver (marketPrices w')) = true) /\
    accounts w' = accounts w /\ accountCount w' = accountCount w /\
    exchangeRates w' = exchangeRates w /\ disk w' = disk w.
Proof.
  intros H0.
  destruct (rand_draw w H0)
    as (r1 & w1 & E1 & P1 & H1 & M1 & A1 & C1 & _ & X1 & _ & _ & D1).
  set (u1 := set_marketPrices
               (mkMarketPrices
                  (apply_change (crypto (marketPrices w1)) (price_change r1 35 15))
                  (gold (marketPrices w1)) (silver (marketPrices w1))) w1).
  destruct (rand_draw u1 H1)
    as (r2 & w2 & E2 & P2 & H2 & M2 & A2 & C2 & _ & X2 & _ & _ & D2).
  set (u2 := set_marketPrices
               (mkMarketPrices
                  (crypto (marketPrices w2))
                  (apply_change (gold (marketPrices w2)) (price_change r2 15 5))
                  (silver (marketPrices w2))) w2).
  destruct (rand_draw u2 H2)
    as (r3 & w3 & E3 & P3 & H3 & M3 & A3 & C3 & _ & X3 & _ & _ & D3).
  pose proof (Z.rem_bound_pos r1 35 P1 ltac:(lia)) as B1.
  pose proof (Z.rem_bound_pos r2 15 P2 ltac:(lia)) as B2.
  pose proof (Z.rem_bound_pos r3 25 P3 ltac:(lia)) as B3.
  exists (Z.rem r1 35 - 15), (Z.rem r2 15 - 5), (Z.rem r3 25 - 10).
  eexists. split.
  { unfold updateMarketPrices.
    rewrite (bind_Some _ _ _ _ _ E1). unfold bind at 1, update. fold u1.
    rewrite (bind_Some _ _ _ _ _ E2). unfold bind at 1, update. fold u2.
    rewrite (bind_Some _ _ _ _ _ E3). reflexivity. }
  cbn [marketPrices set_marketPrices accounts accountCount exchangeRates disk].
  rewrite M3. subst u2. cbn [marketPrices set_marketPrices crypto gold silver].
  rewrite M2. subst u1. cbn [marketPrices set_marketPrices crypto gold silver].
  rewrite M1.
  split; [lia|]. split; [reflexivity|].
  split; [intros; apply apply_change_nonneg; [lia | assumption]|].
  split; [intros; apply apply_change_nonneg; [lia | assumption]|].
  split; [intros; apply apply_change_nonneg; [lia | assumption]|].
  rewrite A3, C3, X3, D3. cbn. rewrite A2, C2, X2, D2. cbn.
  now rewrite A1, C1, X1, D1.
Qed.

Lemma updateMarketPrices_bounds_witness :
  let w := initial_world [] first_run [7; 40; 3] in
  exists w',
    updateMarketPrices w = Some (tt, w') /\
    nonneg (crypto (marketPrices w')) = true /\
    nonneg (gold (marketPrices w')) = true /\
    nonneg (silver (marketPrices w')) = true /\
    accounts w' = accounts w.
Proof.
  intros w.
  destruct (updateMarketPrices_bounds w)
    as (k1 & k2 & k3 & w' & E & _ & _ & Hc & Hg & Hs & Ha & _).
  - repeat constructor; lia.
  - exists w'. split; [exact E|].
    split; [apply Hc; evaluate|]. split; [apply Hg; evaluate|].
    split; [apply Hs; evaluate|]. exact Ha.
Defined.

(** ** The session as a whole *)

Lemma steps_Exited (n : nat) (w : World) : steps n Exited w = Some (Exited, w).
Proof. induction n as [|n IH]; [reflexivity | exact IH]. Qed.

(** The invariant on the state a script leads to, by evaluation. *)
Lemma registry_ok_one (w : World) (a : Account) :
  Z.of_nat (length (accounts w)) = MAX_ACCOUNTS ->
  accountCount w = 1 ->
  registry w = [a] ->
  isAlphaString (name a) = true ->
  (String.length (name a) <= 49)%nat ->
  isValidPIN (pin a) = true ->
  registry_ok w.
Proof.
  intros Hl Hc Hr Hn Hs Hp. constructor; rewrite ?Hr; cbn.
  - exact Hl.
  - rewrite Hc. split; discriminate.
  - apply NoDup_singleton.
  - apply NoDup_singleton.
  - constructor; [repeat split; assumption | constructor].
Qed.

(** Property X17.  Once logged in, the program never fails and never
    returns to the main menu: from a state of the user menu that satisfies
    the program invariant, any number of iterations on any input, end of
    input included, returns in the user menu or after the exit, with the
    invariant kept. *)
Theorem session_never_stuck (n : nat) :
  forall w : World,
    program_invariant UserMenu w ->
    exists ph' w',
      steps n UserMenu w = Some (ph', w') /\
      (ph' = UserMenu \/ ph' = Exited) /\
      program_invariant ph' w'.
Proof.
  induction n as [|n IH]; intros w Hinv.
  - exists UserMenu, w. auto.
  - destruct (user_menu_returns w Hinv) as (ph1 & w1 & E1 & [-> | ->] & Hinv1);
      cbn [steps step]; rewrite (bind_Some _ _ _ _ _ E1).
    + exact (IH w1 Hinv1).
    + exists Exited, w1. rewrite steps_Exited. auto.
Qed.

Lemma session_never_stuck_witness :
  let w := state_after 2 (alice ++ [number 7; number 4; number 9]) in
  exists ph' w',
    steps 3 UserMenu w = Some (ph', w') /\
    (ph' = UserMenu \/ ph' = Exited) /\
    program_invariant ph' w'.
Proof.
  intros w. apply (session_never_stuck 3 w).
  split; [| split].
  - apply (registry_ok_one w alice_account); evaluate.
  - evaluate.
  - intros _. split; evaluate.
Defined.

(** ** The input loops of registration *)

Lemma name_loop_skips (bad : list Line) (good : Line) (rest : list Line) :
  Forall (fun l => isAlphaString (scan_49s l) = false) bad ->
  isAlphaString (scan_49s good) = true ->
  forall out,
    name_loop (bad ++ good :: rest) out
    = Some (scan_49s good, rest, out ++ replicate (length bad) OutErrorText).
Proof.
  intros Hbad Hgood. induction Hbad as [|l bad Hl _ IH]; intros out; cbn.
  - now rewrite Hgood, app_nil_r.
  - rewrite Hl, IH, <- app_assoc. reflexivity.
Qed.

Lemma pin_loop_skips (bad : list Line) (good : Line) (p : Z) (rest : list Line) :
  Forall (fun l => forall q, scan_d l = Some q -> isValidPIN q = false) bad ->
  scan_d good = Some p ->
  isValidPIN p = true ->
  forall out,
    pin_loop (bad ++ good :: rest) out
    = Some (p, rest, out ++ replicate (length bad) OutErrorText).
Proof.
  intros Hbad Hgood Hp. induction Hbad as [|l bad Hl _ IH]; intros out; cbn.
  - now rewrite Hgood, Hp, app_nil_r.
  - destruct (scan_d l) as [q|].
    + rewrite (Hl q eq_refl), IH, <- app_assoc. reflexivity.
    + rewrite IH, <- app_assoc. reflexivity.
Qed.

(** Property X18.  While the registry is not full, [createAccount] asks
    again after each line that is not an alphabetic name, then after each
    line that is not a PIN from 1000 to 9999, printing one error per
    rejected line, and registers the first accepted name with the first
    accepted PIN. *)
Theorem createAccount_retries (w : World) (bad_names : list Line) (good : Line)
        (bad_pins : list Line) (pin_line : Line) (p : Z) (rest : list Line) :
  accountCount w < MAX_ACCOUNTS ->
  stdin w = bad_names ++ good :: bad_pins ++ pin_line :: rest ->
  Forall (fun l => isAlphaString (scan_49s l) = false) bad_names ->
  isAlphaString (scan_49s good) = true ->
  Forall (fun l => forall q, scan_d l = Some q -> isValidPIN q = false) bad_pins ->
  scan_d pin_line = Some p ->
  isValidPIN p = true ->
  createAccount w
  = register (scan_49s good) p
             (set_stdout (stdout w
                          ++ replicate (length bad_names + length bad_pins) OutErrorText)
                         (set_stdin rest w)).
Proof.
  intros Hc Hin Hbn Hg Hbp Hd Hp.
  rewrite (createAccount_register w (scan_49s good) p
             (bad_pins ++ pin_line :: rest)
             (replicate (length bad_names) OutErrorText)
             rest
             (replicate (length bad_pins) OutErrorText) Hc).
  - now rewrite replicate_add, app_assoc.
  - rewrite Hin. apply (name_loop_skips _ _ _ Hbn Hg []).
  - apply (pin_loop_skips _ _ _ _ Hbp Hd Hp []).
Qed.

Lemma createAccount_retries_witness :
  let w := initial_world [word "x1"%string; word "b0b"%string; word "carol"%string;
                          number 12; word "pin"%string; number 10000;
                          number 4321; number 3] first_run [] in
  createAccount w
  = register "carol"%string 4321
             (set_stdout (replicate 5 OutErrorText) (set_stdin [number 3] w)).
Proof.
  intros w.
  apply (createAccount_retries w [word "x1"%string; word "b0b"%string]
                               (word "carol"%string)
                               [number 12; word "pin"%string; number 10000]
                               (number 4321) 4321 [number 3]);
    try evaluate.
  - repeat constructor.
  - repeat constructor; intros q H; vm_compute in H; try discriminate H;
      injection H as <-; reflexivity.
Defined.

(** * Single-precision rounding and the currency round trip *)

(** ** Rounding to binary32 *)

Lemma shr_1_m (mrs : shr_record) :
  0 <= shr_m mrs -> shr_m (shr_1 mrs) = shr_m mrs / 2.
Proof.
  destruct mrs as [m r s]. cbn. intros H.
  destruct m as [|[p|p|]|p]; cbn [shr_m]; try lia.
  - reflexivity.
  - apply Z.div_unique with 1; lia.
  - apply Z.div_unique with 0; lia.
  - reflexivity.
Qed.

Lemma iter_shr_1_m (p : positive) :
  forall mrs,
    0 <= shr_m mrs ->
    shr_m (SpecFloat.iter_pos shr_1 p mrs) = shr_m mrs / 2 ^ Z.pos p.
Proof.
  induction p as [p IH|p IH|]; intros mrs H; cbn [SpecFloat.iter_pos].
  - rewrite IH, IH, shr_1_m by auto using iter_pos_nonneg, shr_1_nonneg.
    assert (Hp : 0 < 2 ^ Z.pos p) by (apply Z.pow_pos_nonneg; lia).
    rewrite !Z.div_div by lia. f_equal.
    replace (Z.pos p~1) with (1 + Z.pos p + Z.pos p) by lia.
    rewrite !Z.pow_add_r by lia. change (2 ^ 1) with 2. lia.
  - rewrite IH, IH by auto using iter_pos_nonneg.
    assert (Hp : 0 < 2 ^ Z.pos p) by (apply Z.pow_pos_nonneg; lia).
    rewrite !Z.div_div by lia. f_equal.
    replace (Z.pos p~0) with (Z.pos p + Z.pos p) by lia.
    rewrite !Z.pow_add_r by lia. lia.
  - rewrite shr_1_m by exact H. reflexivity.
Qed.

Lemma shr_fexp_spec (m e : Z) (l : location) :
  0 <= m ->
  snd (shr_fexp F32.prec F32.emax m e l)
  = Z.max e (fexp F32.prec F32.emax (Zdigits2 m + e)) /\
  shr_m (fst (shr_fexp F32.prec F32.emax m e l))
  = m / 2 ^ (Z.max e (fexp F32.prec F32.emax (Zdigits2 m + e)) - e).
Proof.
  intros H. unfold shr_fexp, shr.
  assert (H0 : shr_m (shr_record_of_loc m l) = m) by (destruct l as [|[]]; reflexivity).
  destruct (fexp F32.prec F32.emax (Zdigits2 m + e) - e) as [|p|p] eqn:E;
    cbn [fst snd].
  - rewrite Z.max_l by lia. rewrite Z.sub_diag, H0. cbn. now rewrite Z.div_1_r.
  - rewrite Z.max_r by lia. split; [lia|].
    rewrite iter_shr_1_m by lia. rewrite H0. f_equal. f_equal. lia.
  - rewrite Z.max_l by lia. rewrite Z.sub_diag, H0. cbn. now rewrite Z.div_1_r.
Qed.

Lemma round_nearest_even_bounds (m : Z) (l : location) :
  m <= round_nearest_even m l <= m + 1.
Proof.
  unfold round_nearest_even. destruct l as [|[]]; try destruct (Z.even m); lia.
Qed.

Lemma Zdigits2_bounds (m : Z) :
  0 < m -> 2 ^ (Zdigits2 m - 1) <= m < 2 ^ Zdigits2 m.
Proof.
  destruct m as [|p|p]; try lia. intros _. apply digits2_pos_bounds.
Qed.

Lemma Zdigits2_nonneg (m : Z) : 0 <= Zdigits2 m.
Proof. destruct m; cbn; lia. Qed.

Lemma Zdigits2_le (m k : Z) : 0 <= m < 2 ^ k -> 0 <= k -> Zdigits2 m <= k.
Proof.
  intros [H0 H] Hk. destruct (Z.eq_dec m 0) as [-> | Hm]; [exact Hk|].
  pose proof (Zdigits2_bounds m ltac:(lia)) as [Hlo _].
  pose proof (Zdigits2_nonneg m).
  destruct (Z.le_gt_cases (Zdigits2 m) k) as [|Hgt]; [assumption|].
  assert (2 ^ k <= 2 ^ (Zdigits2 m - 1)) by (apply Z.pow_le_mono_r; lia).
  lia.
Qed.

Lemma Zdigits2_ge (m k : Z) : 2 ^ k <= m -> 0 <= k -> k + 1 <= Zdigits2 m.
Proof.
  intros H Hk.
  assert (Hm : 0 < m) by (pose proof (Z.pow_pos_nonneg 2 k); lia).
  pose proof (Zdigits2_bounds m Hm) as [_ Hhi].
  pose proof (Zdigits2_nonneg m).
  destruct (Z.le_gt_cases (k + 1) (Zdigits2 m)) as [|Hgt]; [assumption|].
  assert (2 ^ Zdigits2 m <= 2 ^ k) by (apply Z.pow_le_mono_r; lia).
  lia.
Qed.

(** What [binary_round_aux] returns on a mantissa that has not fewer
    digits than its exponent allows: a mantissa of at most 24 digits, of
    exactly 24 above the smallest exponent, next to the one given. *)
Lemma binary_round_aux_spec (mx ex : Z) (l : location) :
  0 <= mx ->
  ex <= fexp F32.prec F32.emax (Zdigits2 mx + ex) ->
  exists m e,
    binary_round_aux F32.prec F32.emax false mx ex l = result_of m e /\
    0 <= m < 2 ^ 24 /\ ex <= e /\ -149 <= e /\
    (e = -149 \/ 2 ^ 23 <= m) /\
    (m - 1) * 2 ^ (e - ex) <= mx < (m + 1) * 2 ^ (e - ex).
Proof.
  intros Hmx Hex. unfold binary_round_aux.
  pose proof (shr_fexp_spec mx ex l Hmx) as [He1 Hm1].
  destruct (shr_fexp F32.prec F32.emax mx ex l) as [mrs1 e1].
  cbn [fst snd] in He1, Hm1.
  rewrite Z.max_r in He1, Hm1 by exact Hex.
  set (m1 := shr_m mrs1) in *.
  set (D := e1 - ex).
  assert (HD : 0 <= D) by (unfold D; lia).
  assert (HP : 0 < 2 ^ D) by (apply Z.pow_pos_nonneg; lia).
  assert (Hm1' : m1 = mx / 2 ^ D) by (unfold D; rewrite He1; exact Hm1).
  assert (Hlo : m1 * 2 ^ D <= mx)
    by (rewrite Hm1', Z.mul_comm; apply Z.mul_div_le; lia).
  assert (Hhi : mx < (m1 + 1) * 2 ^ D)
    by (rewrite Hm1', Z.mul_comm; apply Z.mul_succ_div_gt; lia).
  assert (H0 : 0 <= m1) by (rewrite Hm1'; apply Z.div_pos; lia).
  assert (He149 : -149 <= e1)
    by (rewrite He1; unfold fexp, emin, F32.prec, F32.emax; lia).
  (* the size of the shifted mantissa *)
  assert (H24 : m1 < 2 ^ 24).
  { destruct (Z.eq_dec mx 0) as [E0 | Hnz].
    - rewrite Hm1', E0. rewrite Z.div_0_l by lia. lia.
    - pose proof (Zdigits2_bounds mx ltac:(lia)) as [_ Hd].
      pose proof (Zdigits2_nonneg mx).
      rewrite Hm1'. apply Z.div_lt_upper_bound; [lia|].
      eapply Z.lt_le_trans; [exact Hd|].
      rewrite <- Z.pow_add_r by lia. apply Z.pow_le_mono_r; [lia|].
      unfold D. rewrite He1. unfold fexp, emin, F32.prec, F32.emax. lia. }
  assert (Hnorm : e1 = -149 \/ 2 ^ 23 <= m1).
  { destruct (Z.eq_dec e1 (-149)) as [|Hne]; [now left | right].
    assert (Hd : e1 = Zdigits2 mx + ex - 24)
      by (rewrite He1 in *; unfold fexp, emin, F32.prec, F32.emax in *; lia).
    assert (Hnz : 0 < mx).
    { destruct (Z.eq_dec mx 0) as [E0|]; [| lia].
      rewrite E0 in Hd. cbn in Hd.
      rewrite E0 in He1. cbn in He1.
      unfold fexp, emin, F32.prec, F32.emax in *. lia. }
    pose proof (Zdigits2_bounds mx Hnz) as [Hd1 _].
    rewrite Hm1'. apply Z.div_le_lower_bound; [lia|].
    rewrite Z.mul_comm, <- Z.pow_add_r by lia.
    eapply Z.le_trans; [| exact Hd1]. apply Z.pow_le_mono_r; [lia|].
    unfold D. lia. }
  pose proof (round_nearest_even_bounds m1 (loc_of_shr_record mrs1)) as Hr.
  set (m2 := round_nearest_even m1 (loc_of_shr_record mrs1)) in *.
  pose proof (shr_fexp_spec m2 e1 loc_Exact ltac:(lia)) as [He2 Hm2].
  destruct (shr_fexp F32.prec F32.emax m2 e1 loc_Exact) as [mrs2 e2].
  cbn [fst snd] in He2, Hm2.
  change (F32.emax - F32.prec) with 104.
  destruct (Z.eq_dec m2 (2 ^ 24)) as [E24 | Hlt].
  - (* the mantissa was rounded up to 2^24 *)
    assert (Hdig : Zdigits2 m2 = 25) by (rewrite E24; reflexivity).
    rewrite Hdig in He2, Hm2.
    assert (Ee2 : e2 = e1 + 1)
      by (rewrite He2; unfold fexp, emin, F32.prec, F32.emax; lia).
    rewrite <- He2, Ee2 in Hm2.
    replace (e1 + 1 - e1) with 1 in Hm2 by lia.
    rewrite E24 in Hm2. change (2 ^ 24 / 2 ^ 1) with (2 ^ 23) in Hm2.
    exists (2 ^ 23), e2. rewrite Hm2.
    split; [reflexivity|]. split; [lia|]. split; [lia|]. split; [lia|].
    split; [now right|].
    replace (e2 - ex) with (1 + D) by (unfold D; lia).
    rewrite Z.pow_add_r by lia. change (2 ^ 1) with 2.
    change (2 ^ 24) with 16777216 in *. change (2 ^ 23) with 8388608 in *. nia.
  - assert (Hdig : Zdigits2 m2 <= 24) by (apply Zdigits2_le; lia).
    assert (Ee2 : e2 = e1)
      by (rewrite He2; unfold fexp, emin, F32.prec, F32.emax; lia).
    rewrite <- He2, Ee2, Z.sub_diag in Hm2. cbn in Hm2. rewrite Z.div_1_r in Hm2.
    exists m2, e2. rewrite Hm2.
    split; [unfold result_of; destruct m2; try reflexivity; lia|].
    split; [lia|]. split; [lia|]. split; [lia|].
    split; [destruct Hnorm; [left; lia | right; lia]|].
    rewrite Ee2. fold D. nia.
Qed.

Lemma digits2_pos_shift (p d : positive) :
  digits2_pos (Pos.iter xO p d) = (digits2_pos p + d)%positive.
Proof.
  induction d as [|d IH] using Pos.peano_ind.
  - cbn. lia.
  - rewrite Pos.iter_succ. cbn [digits2_pos]. rewrite IH. lia.
Qed.

Lemma pow2_pos (k : Z) : 0 <= k -> 0 < 2 ^ k.
Proof. intros H. apply Z.pow_pos_nonneg; lia. Qed.

Lemma pow2_split (a b : Z) : 0 <= a -> 0 <= b -> 2 ^ (a + b) = 2 ^ a * 2 ^ b.
Proof. intros. apply Z.pow_add_r; assumption. Qed.

(** [binary_round] on a mantissa and an exponent not below the smallest
    one: the float returned is next to the number given. *)
Lemma binary_round_spec (p : positive) (e : Z) :
  -149 <= e ->
  exists m e',
    binary_round F32.prec F32.emax false p e = result_of m e' /\
    0 <= m < 2 ^ 24 /\ -149 <= e' /\ (e' = -149 \/ 2 ^ 23 <= m) /\
    (m - 1) * 2 ^ (e' + 149) <= Z.pos p * 2 ^ (e + 149) <= (m + 1) * 2 ^ (e' + 149).
Proof.
  intros He. unfold binary_round, shl_align.
  set (f := fexp F32.prec F32.emax (Z.pos (digits2_pos p) + e)).
  assert (Hf : -149 <= f) by (unfold f, fexp, emin, F32.prec, F32.emax; lia).
  destruct (f - e) as [|d|d] eqn:E.
  - destruct (binary_round_aux_spec (Z.pos p) e loc_Exact ltac:(lia))
      as (m & e' & Er & Hm & Hee & He' & Hn & Hlo & Hhi).
    { cbn [Zdigits2]. fold f. lia. }
    exists m, e'. split; [exact Er|]. split; [exact Hm|]. split; [exact He'|].
    split; [exact Hn|].
    replace (e' + 149) with ((e' - e) + (e + 149)) by lia.
    rewrite (pow2_split (e' - e) (e + 149)) by lia.
    pose proof (pow2_pos (e + 149) ltac:(lia)).
    rewrite !Z.mul_assoc.
    split; apply Z.mul_le_mono_nonneg_r; lia.
  - destruct (binary_round_aux_spec (Z.pos p) e loc_Exact ltac:(lia))
      as (m & e' & Er & Hm & Hee & He' & Hn & Hlo & Hhi).
    { cbn [Zdigits2]. fold f. lia. }
    exists m, e'. split; [exact Er|]. split; [exact Hm|]. split; [exact He'|].
    split; [exact Hn|].
    replace (e' + 149) with ((e' - e) + (e + 149)) by lia.
    rewrite (pow2_split (e' - e) (e + 149)) by lia.
    pose proof (pow2_pos (e + 149) ltac:(lia)).
    rewrite !Z.mul_assoc.
    split; apply Z.mul_le_mono_nonneg_r; lia.
  - assert (Hz : Z.pos (Pos.iter xO p d) = Z.pos p * 2 ^ (e - f)).
    { rewrite iter_xO. f_equal. f_equal. lia. }
    destruct (binary_round_aux_spec (Z.pos (Pos.iter xO p d)) f loc_Exact ltac:(lia))
      as (m & e' & Er & Hm & Hee & He' & Hn & Hlo & Hhi).
    { cbn [Zdigits2]. rewrite digits2_pos_shift, Pos2Z.inj_add.
      replace (Z.pos (digits2_pos p) + Z.pos d + f)
        with (Z.pos (digits2_pos p) + e) by lia.
      fold f. lia. }
    exists m, e'. split; [exact Er|]. split; [exact Hm|]. split; [exact He'|].
    split; [exact Hn|].
    rewrite Hz in Hlo, Hhi.
    assert (Hd : 0 <= e - f) by lia.
    clearbody f.
    replace (e' + 149) with ((e' - f) + (f + 149)) by lia.
    replace (e + 149) with ((e - f) + (f + 149)) by lia.
    rewrite (pow2_split (e' - f)), (pow2_split (e - f)) by lia.
    pose proof (pow2_pos (f + 149) ltac:(lia)).
    rewrite !Z.mul_assoc.
    split; apply Z.mul_le_mono_nonneg_r; lia.
Qed.

Lemma quanta_aligned (m : positive) (e ez : Z) :
  -149 <= ez <= e ->
  Z.pos (fst (shl_align m e ez)) * 2 ^ (ez + 149) = Z.pos m * 2 ^ (e + 149).
Proof.
  intros H. rewrite shl_align_value by lia.
  replace (e + 149) with ((e - ez) + (ez + 149)) by lia.
  rewrite (pow2_split (e - ez) (ez + 149)) by lia. ring.
Qed.

Lemma near_add (mx my : positive) (ex ey : Z) :
  bounded F32.prec F32.emax mx ex = true ->
  bounded F32.prec F32.emax my ey = true ->
  near (F32.add (S754_finite false mx ex) (S754_finite false my ey))
       (Z.pos mx * 2 ^ (ex + 149) + Z.pos my * 2 ^ (ey + 149)) 1.
Proof.
  intros Hx Hy.
  destruct (bounded_mantissa _ _ Hx) as (Hex & _).
  destruct (bounded_mantissa _ _ Hy) as (Hey & _).
  unfold F32.add, SFadd. cbn [cond_Zopp Z.add binary_normalize].
  set (ez := Z.min ex ey).
  destruct (binary_round_spec
              (fst (shl_align mx ex ez) + fst (shl_align my ey ez)) ez ltac:(lia))
    as (m & e' & Er & Hm & He' & Hn & Hv).
  exists m, e'. split; [exact Er|]. split; [exact Hm|]. split; [exact He'|].
  split; [exact Hn|].
  rewrite Pos2Z.inj_add, Z.mul_add_distr_r in Hv.
  rewrite !quanta_aligned in Hv by lia. lia.
Qed.

Lemma near_sub (mx my : positive) (ex ey : Z) :
  bounded F32.prec F32.emax mx ex = true ->
  bounded F32.prec F32.emax my ey = true ->
  Z.pos my * 2 ^ (ey + 149) <= Z.pos mx * 2 ^ (ex + 149) ->
  near (F32.sub (S754_finite false mx ex) (S754_finite false my ey))
       (Z.pos mx * 2 ^ (ex + 149) - Z.pos my * 2 ^ (ey + 149)) 1.
Proof.
  intros Hx Hy Hle.
  destruct (bounded_mantissa _ _ Hx) as (Hex & _).
  destruct (bounded_mantissa _ _ Hy) as (Hey & _).
  unfold F32.sub, SFsub. cbn [cond_Zopp].
  set (ez := Z.min ex ey).
  pose proof (quanta_aligned mx ex ez ltac:(lia)) as Ux.
  pose proof (quanta_aligned my ey ez ltac:(lia)) as Uy.
  pose proof (pow2_pos (ez + 149) ltac:(lia)) as HK.
  set (X := Z.pos (fst (shl_align mx ex ez))) in *.
  set (Y := Z.pos (fst (shl_align my ey ez))) in *.
  rewrite <- Ux, <- Uy in *.
  destruct (X - Y) as [|q|q] eqn:E.
  - exists 0, (-149). split; [reflexivity|]. split; [lia|]. split; [lia|].
    split; [now left|]. cbn. nia.
  - cbn [binary_normalize].
    destruct (binary_round_spec q ez ltac:(lia))
      as (m & e' & Er & Hm & He' & Hn & Hv).
    exists m, e'. split; [exact Er|]. split; [exact Hm|]. split; [exact He'|].
    split; [exact Hn|].
    rewrite <- E in Hv. rewrite Z.mul_sub_distr_r in Hv. lia.
  - exfalso. nia.
Qed.

Lemma bounded_exponent (m : positive) (e : Z) :
  bounded F32.prec F32.emax m e = true -> e <= 104.
Proof.
  unfold bounded. intros H. apply andb_true_iff in H as [_ H].
  apply Z.leb_le in H. exact H.
Qed.

Lemma bounded_of_size (p : positive) (e : Z) :
  Z.pos p < 2 ^ 24 -> -149 <= e <= 104 -> (e = -149 \/ 2 ^ 23 <= Z.pos p) ->
  bounded F32.prec F32.emax p e = true.
Proof.
  intros Hp He Hn. unfold bounded, canonical_mantissa.
  apply andb_true_iff. split; [| apply Z.leb_le; exact (proj2 He)].
  apply Z.eqb_eq.
  pose proof (Zdigits2_le (Z.pos p) 24 ltac:(lia) ltac:(lia)) as Hd.
  cbn [Zdigits2] in Hd.
  unfold fexp, emin, F32.prec, F32.emax.
  destruct Hn as [-> | Hn]; [lia|].
  pose proof (Zdigits2_ge (Z.pos p) 23 Hn ltac:(lia)) as Hd'.
  cbn [Zdigits2] in Hd'. lia.
Qed.

Lemma near_zero (den : Z) : 0 <= den -> near (S754_zero false) 0 den.
Proof.
  intros H. exists 0, (-149). split; [reflexivity|]. split; [lia|].
  split; [lia|]. split; [now left|]. cbn. lia.
Qed.

Lemma near_self (m : positive) (e : Z) :
  bounded F32.prec F32.emax m e = true ->
  near (S754_finite false m e) (Z.pos m * 2 ^ (e + 149)) 1.
Proof.
  intros Hb. destruct (bounded_mantissa _ _ Hb) as (He & Hm & Hn).
  pose proof (bounded_exponent _ _ Hb) as He'.
  exists (Z.pos m), e. split.
  - unfold result_of. now replace (e <=? 104) with true by lia.
  - split; [lia|]. split; [lia|]. split.
    + destruct (Z.eq_dec e (-149)); [now left | right; apply Hn; lia].
    + pose proof (pow2_pos (e + 149) ltac:(lia)). nia.
Qed.

Lemma near_mul (mx my : positive) (ex ey : Z) :
  bounded F32.prec F32.emax mx ex = true ->
  bounded F32.prec F32.emax my ey = true ->
  near (F32.mul (S754_finite false mx ex) (S754_finite false my ey))
       ((Z.pos mx * 2 ^ (ex + 149)) * (Z.pos my * 2 ^ (ey + 149))) (2 ^ 149).
Proof.
  intros Hx Hy.
  destruct (bounded_mantissa _ _ Hx) as (Hex & Hmx & Hnx).
  destruct (bounded_mantissa _ _ Hy) as (Hey & Hmy & Hny).
  unfold F32.mul, SFmul. cbn [xorb].
  destruct (binary_round_aux_spec (Z.pos (mx * my)) (ex + ey) loc_Exact ltac:(lia))
    as (m & e & Er & Hm & Hee & He & Hn & Hlo & Hhi).
  { unfold fexp, emin, F32.prec, F32.emax.
    destruct (Z.eq_dec ex (-149)) as [Ex | Ex];
      destruct (Z.eq_dec ey (-149)) as [Ey | Ey]; try lia.
    - specialize (Hny ltac:(lia)).
      pose proof (Zdigits2_ge (Z.pos (mx * my)) 23 ltac:(nia) ltac:(lia)). lia.
    - specialize (Hnx ltac:(lia)).
      pose proof (Zdigits2_ge (Z.pos (mx * my)) 23 ltac:(nia) ltac:(lia)). lia.
    - specialize (Hnx ltac:(lia)).
      pose proof (Zdigits2_ge (Z.pos (mx * my)) 23 ltac:(nia) ltac:(lia)). lia. }
  exists m, e. split; [exact Er|]. split; [exact Hm|]. split; [exact He|].
  split; [exact Hn|].
  set (A := 2 ^ (e - (ex + ey))) in *.
  set (T := 2 ^ (ex + 149) * 2 ^ (ey + 149)).
  assert (HT : 0 < T).
  { unfold T. pose proof (pow2_pos (ex + 149) ltac:(lia)).
    pose proof (pow2_pos (ey + 149) ltac:(lia)). nia. }
  assert (E1 : 2 ^ (e + 149) * 2 ^ 149 = A * T).
  { unfold A, T. rewrite <- !pow2_split by lia. f_equal. lia. }
  rewrite Pos2Z.inj_mul in Hlo, Hhi.
  replace ((m - 1) * 2 ^ (e + 149) * 2 ^ 149) with ((m - 1) * A * T)
    by (rewrite <- !Z.mul_assoc, E1; ring).
  replace ((m + 1) * 2 ^ (e + 149) * 2 ^ 149) with ((m + 1) * A * T)
    by (rewrite <- !Z.mul_assoc, E1; ring).
  replace (Z.pos mx * 2 ^ (ex + 149) * (Z.pos my * 2 ^ (ey + 149)))
    with (Z.pos mx * Z.pos my * T) by (unfold T; ring).
  split; apply Z.mul_le_mono_nonneg_r; lia.
Qed.

(** Inequalities between multiples of powers of two can be moved to
    other exponents. *)
Lemma pow2_scale_le (a b p q p' q' : Z) :
  a * 2 ^ p <= b * 2 ^ q ->
  0 <= p -> 0 <= q -> 0 <= p' -> 0 <= q' -> p' - p = q' - q ->
  a * 2 ^ p' <= b * 2 ^ q'.
Proof.
  intros H Hp Hq Hp' Hq' E.
  destruct (Z.le_gt_cases p p') as [Hk | Hk].
  - replace p' with (p + (p' - p)) by lia.
    replace q' with (q + (p' - p)) by lia.
    rewrite (pow2_split p), (pow2_split q) by lia.
    pose proof (pow2_pos (p' - p) ltac:(lia)).
    rewrite !Z.mul_assoc. apply Z.mul_le_mono_nonneg_r; lia.
  - replace p with (p' + (p - p')) in H by lia.
    replace q with (q' + (p - p')) in H by lia.
    rewrite (pow2_split p'), (pow2_split q') in H by lia.
    pose proof (pow2_pos (p - p') ltac:(lia)) as HK.
    rewrite !Z.mul_assoc in H.
    now apply Z.mul_le_mono_pos_r in H.
Qed.

Lemma near_div (mx my : positive) (ex ey : Z) :
  bounded F32.prec F32.emax mx ex = true ->
  bounded F32.prec F32.emax my ey = true ->
  near (F32.div (S754_finite false mx ex) (S754_finite false my ey))
       ((Z.pos mx * 2 ^ (ex + 149)) * 2 ^ 149) (Z.pos my * 2 ^ (ey + 149)).
Proof.
  intros Hx Hy.
  destruct (bounded_mantissa _ _ Hx) as (Hex & Hmx & Hnx).
  destruct (bounded_mantissa _ _ Hy) as (Hey & Hmy & Hny).
  unfold F32.div, SFdiv, SFdiv_core_binary. cbn [xorb].
  set (d1 := Zdigits2 (Z.pos mx)). set (d2 := Zdigits2 (Z.pos my)).
  set (e' := Z.min (fexp F32.prec F32.emax (d1 + ex - (d2 + ey))) (ex - ey)).
  set (s := ex - ey - e').
  assert (Hs : 0 <= s) by (unfold s, e'; lia).
  set (m' := match s with
             | 0 => Z.pos mx
             | Z.pos _ => Z.shiftl (Z.pos mx) s
             | Z.neg _ => 0
             end).
  assert (Em' : m' = Z.pos mx * 2 ^ s).
  { unfold m'. destruct s as [|ps|ps] eqn:Es; [cbn; lia | | lia].
    apply Z.shiftl_mul_pow2. lia. }
  clearbody m'.
  pose proof (Z_div_mod m' (Z.pos my) ltac:(lia)) as Hdiv.
  destruct (Z.div_eucl m' (Z.pos my)) as [q r].
  destruct Hdiv as [Eq Hr].
  pose proof (pow2_pos s Hs) as H2s.
  assert (Hq : 0 <= q) by nia.
  pose proof (Zdigits2_bounds (Z.pos mx) ltac:(lia)) as [Hd1 _]. fold d1 in Hd1.
  pose proof (Zdigits2_bounds (Z.pos my) ltac:(lia)) as [_ Hd2]. fold d2 in Hd2.
  assert (Hd1p : 1 <= d1) by (unfold d1; cbn; lia).
  assert (Hd2p : 1 <= d2) by (unfold d2; cbn; lia).
  assert (Hdq : d1 + s - d2 <= Zdigits2 q).
  { pose proof (Zdigits2_nonneg q) as Hq0.
    assert (Hq1 : q + 1 <= 2 ^ Zdigits2 q).
    { destruct (Z.eq_dec q 0) as [-> | Hqn]; [cbn; lia|].
      pose proof (Zdigits2_bounds q ltac:(lia)). lia. }
    destruct (Z.le_gt_cases (d1 + s - d2) (Zdigits2 q)) as [|Hgt]; [assumption|].
    exfalso.
    assert (Hp : 2 ^ (d2 + Zdigits2 q) <= 2 ^ (d1 - 1 + s))
      by (apply Z.pow_le_mono_r; lia).
    rewrite (pow2_split d2), (pow2_split (d1 - 1)) in Hp by lia.
    pose proof (pow2_pos d2 ltac:(lia)).
    pose proof (pow2_pos (Zdigits2 q) Hq0).
    pose proof (pow2_pos (d1 - 1) ltac:(lia)).
    assert (m' < 2 ^ d2 * 2 ^ Zdigits2 q) by nia.
    assert (2 ^ (d1 - 1) * 2 ^ s <= m') by nia.
    lia. }
  destruct (binary_round_aux_spec q e' (new_location (Z.pos my) r) Hq)
    as (m & e & Er & Hm & Hee & He & Hn & Hlo & Hhi).
  { unfold fexp, emin, F32.prec, F32.emax in *. unfold s in Hdq. lia. }
  exists m, e. split; [exact Er|]. split; [exact Hm|]. split; [exact He|].
  split; [exact Hn|].
  set (D := e - e') in *.
  assert (HD : 0 <= D) by (unfold D; lia).
  pose proof (pow2_pos D HD) as H2D.
  assert (L1 : (m - 1) * Z.pos my * 2 ^ D <= Z.pos mx * 2 ^ s) by nia.
  assert (L2 : Z.pos mx * 2 ^ s <= (m + 1) * Z.pos my * 2 ^ D) by nia.
  assert (Ex1 : e + 149 + (ey + 149) - D = ex + 298 - s) by (unfold D, s; lia).
  apply (pow2_scale_le _ _ D s (e + 149 + (ey + 149)) (ex + 298)) in L1;
    try lia.
  apply (pow2_scale_le _ _ s D (ex + 298) (e + 149 + (ey + 149))) in L2;
    try lia.
  rewrite (pow2_split (e + 149) (ey + 149)) in L1, L2 by lia.
  replace (ex + 298) with ((ex + 149) + 149) in L1, L2 by lia.
  rewrite (pow2_split (ex + 149) 149) in L1, L2 by lia.
  set (P1 := 2 ^ (e + 149)) in *. set (P2 := 2 ^ (ey + 149)) in *.
  set (P3 := 2 ^ (ex + 149)) in *. set (P4 := 2 ^ 149) in *.
  clearbody P1 P2 P3 P4. split; lia.
Qed.

(** A rounding that is not too large is a float, within one unit in its
    last place of what it rounds. *)
Lemma near_finite (r : float) (num den : Z) :
  near r num den ->
  0 < den ->
  num < (2 ^ 277 - 2 ^ 254) * den ->
  ordinary r /\
  exists ulp,
    0 < ulp /\ (ulp = 1 \/ 2 ^ 23 * ulp <= quanta r) /\
    (quanta r - ulp) * den <= num <= (quanta r + ulp) * den.
Proof.
  intros (m & e & -> & Hm & He & Hn & Hlo & Hhi) Hden Hnum.
  pose proof (pow2_pos (e + 149) ltac:(lia)) as Hu.
  destruct m as [|p|p]; [| | lia].
  - split; [now left|]. exists 1. split; [lia|]. split; [now left|].
    destruct Hn as [-> | Hn]; [| lia]. cbn in *. lia.
  - assert (He104 : e <= 104).
    { destruct (Z.le_gt_cases e 104) as [|Hgt]; [assumption | exfalso].
      destruct Hn as [-> | Hn]; [lia|].
      assert (Hp : 2 ^ 254 <= 2 ^ (e + 149)) by (apply Z.pow_le_mono_r; lia).
      change (2 ^ 23) with 8388608 in Hn.
      assert ((2 ^ 277 - 2 ^ 254) * den <= (Z.pos p - 1) * 2 ^ (e + 149) * den).
      { apply Z.mul_le_mono_nonneg_r; [lia|].
        change (2 ^ 277 - 2 ^ 254) with (8388607 * 2 ^ 254).
        apply Z.mul_le_mono_nonneg; lia. }
      lia. }
    unfold result_of. replace (e <=? 104) with true by lia.
    split.
    + right. exists p, e. split; [reflexivity|].
      apply bounded_of_size; lia.
    + exists (2 ^ (e + 149)). split; [exact Hu|]. split.
      * destruct Hn as [-> | Hn]; [now left | right].
        cbn [quanta cond_Zopp].
        apply Z.mul_le_mono_nonneg_r; lia.
      * cbn [quanta cond_Zopp].
        replace ((Z.pos p * 2 ^ (e + 149) - 2 ^ (e + 149)) * den)
          with ((Z.pos p - 1) * 2 ^ (e + 149) * den) by ring.
        replace ((Z.pos p * 2 ^ (e + 149) + 2 ^ (e + 149)) * den)
          with ((Z.pos p + 1) * 2 ^ (e + 149) * den) by ring.
        lia.
Qed.

Lemma ordinary_quanta (x : float) : ordinary x -> 0 <= quanta x.
Proof.
  intros [-> | (m & e & -> & Hb)]; [reflexivity|].
  destruct (bounded_mantissa _ _ Hb) as (He & _).
  pose proof (pow2_pos (e + 149) ltac:(lia)). cbn. nia.
Qed.

Lemma ordinary_valid (x : float) : ordinary x -> valid x = true.
Proof. intros [-> | (m & e & -> & Hb)]; [reflexivity | exact Hb]. Qed.

Lemma near_sub_ordinary (x y : float) :
  ordinary x -> ordinary y -> quanta y <= quanta x ->
  near (F32.sub x y) (quanta x - quanta y) 1.
Proof.
  intros [-> | (mx & ex & -> & Hx)] [-> | (my & ey & -> & Hy)] Hle.
  - apply near_zero. lia.
  - exfalso. destruct (bounded_mantissa _ _ Hy) as (He & _).
    pose proof (pow2_pos (ey + 149) ltac:(lia)). cbn in Hle. nia.
  - cbn [quanta]. rewrite Z.sub_0_r. now apply near_self.
  - now apply near_sub.
Qed.

Lemma near_add_ordinary (x y : float) :
  ordinary x -> ordinary y ->
  near (F32.add x y) (quanta x + quanta y) 1.
Proof.
  intros [-> | (mx & ex & -> & Hx)] [-> | (my & ey & -> & Hy)].
  - apply near_zero. lia.
  - now apply near_self.
  - cbn [quanta]. rewrite Z.add_0_r. now apply near_self.
  - now apply near_add.
Qed.

Lemma near_mul_ordinary (x : float) (my : positive) (ey : Z) :
  ordinary x -> bounded F32.prec F32.emax my ey = true ->
  near (F32.mul x (S754_finite false my ey))
       (quanta x * (Z.pos my * 2 ^ (ey + 149))) (2 ^ 149).
Proof.
  intros [-> | (mx & ex & -> & Hx)] Hy.
  - apply near_zero. lia.
  - now apply near_mul.
Qed.

Lemma near_div_ordinary (x : float) (my : positive) (ey : Z) :
  ordinary x -> bounded F32.prec F32.emax my ey = true ->
  near (F32.div x (S754_finite false my ey))
       (quanta x * 2 ^ 149) (Z.pos my * 2 ^ (ey + 149)).
Proof.
  intros [-> | (mx & ex & -> & Hx)] Hy.
  - destruct (bounded_mantissa _ _ Hy) as (He & _).
    pose proof (pow2_pos (ey + 149) ltac:(lia)).
    apply near_zero. nia.
  - now apply near_div.
Qed.

(** The comparisons of floats are those of their values. *)
Lemma compare_quanta (mx my : positive) (ex ey : Z) :
  bounded F32.prec F32.emax mx ex = true ->
  bounded F32.prec F32.emax my ey = true ->
  SFcompare (S754_finite false mx ex) (S754_finite false my ey)
  = Some (Z.compare (Z.pos mx * 2 ^ (ex + 149)) (Z.pos my * 2 ^ (ey + 149))).
Proof.
  intros Hx Hy. cbn [SFcompare]. f_equal.
  rewrite <- (magnitude_compare mx my ex ey Hx Hy).
  destruct (bounded_mantissa _ _ Hx) as (Hex & _).
  destruct (bounded_mantissa _ _ Hy) as (Hey & _).
  rewrite <- (quanta_aligned mx ex (Z.min ex ey)) by lia.
  rewrite <- (quanta_aligned my ey (Z.min ex ey)) by lia.
  pose proof (pow2_pos (Z.min ex ey + 149) ltac:(lia)) as HK.
  set (X := Z.pos (fst (shl_align mx ex (Z.min ex ey)))).
  set (Y := Z.pos (fst (shl_align my ey (Z.min ex ey)))).
  set (K := 2 ^ (Z.min ex ey + 149)) in *. clearbody X Y K.
  destruct (Z.compare_spec X Y), (Z.compare_spec (X * K) (Y * K));
    try reflexivity; exfalso; nia.
Qed.

Lemma leb_quanta (x y : float) :
  ordinary x -> ordinary y -> F32.leb x y = true -> quanta x <= quanta y.
Proof.
  intros Hx Hy.
  pose proof (ordinary_quanta x Hx). pose proof (ordinary_quanta y Hy).
  destruct Hx as [-> | (mx & ex & -> & Hx)], Hy as [-> | (my & ey & -> & Hy)];
    try (cbn [quanta] in *; lia).
  - discriminate.
  - unfold F32.leb, SFleb. rewrite (compare_quanta _ _ _ _ Hx Hy).
    cbn [quanta cond_Zopp].
    destruct (Z.compare_spec (Z.pos mx * 2 ^ (ex + 149)) (Z.pos my * 2 ^ (ey + 149)));
      try discriminate; lia.
Qed.

Lemma ltb_quanta (x y : float) :
  ordinary x -> ordinary y -> F32.ltb x y = true -> quanta x < quanta y.
Proof.
  intros [-> | (mx & ex & -> & Hx)] [-> | (my & ey & -> & Hy)];
    try discriminate.
  - intros _. destruct (bounded_mantissa _ _ Hy) as (He & _).
    pose proof (pow2_pos (ey + 149) ltac:(lia)). cbn. nia.
  - unfold F32.ltb, SFltb. rewrite (compare_quanta _ _ _ _ Hx Hy).
    cbn [quanta cond_Zopp].
    destruct (Z.compare_spec (Z.pos mx * 2 ^ (ex + 149)) (Z.pos my * 2 ^ (ey + 149)));
      try discriminate; lia.
Qed.

(** The conversion of [u] dollars out of the balance [b] and back, at
    the rate 1.10f, each of the four operations rounded. *)
Ltac literal t :=
  let v := eval vm_compute in t in change t with v in *.

Lemma round_trip_bound (b u : float) :
  ordinary b -> ordinary u ->
  quanta u <= quanta b -> quanta b < 2 ^ 276 ->
  let rate := eur initial_exchangeRates in
  let b' := F32.add (F32.sub b u) (F32.mul (F32.div u rate) rate) in
  ordinary b' /\
  2 ^ 20 * Z.abs (quanta b' - quanta b) <= quanta b + 2 ^ 23.
Proof.
  intros Hb Hu Hle Hmax rate b'.
  assert (Hrate : bounded F32.prec F32.emax 9227469 (-23) = true) by reflexivity.
  change rate with (S754_finite false 9227469 (-23)) in b'.
  pose proof (ordinary_quanta b Hb) as Hb0.
  pose proof (ordinary_quanta u Hu) as Hu0.
  pose proof (near_sub_ordinary b u Hb Hu Hle) as Ns.
  pose proof (near_div_ordinary u 9227469 (-23) Hu Hrate) as Nq.
  set (s := F32.sub b u) in *.
  set (q := F32.div u (S754_finite false 9227469 (-23))) in *.
  set (B := quanta b) in *. set (U := quanta u) in *.
  literal (2 ^ 276). literal (Z.pos 9227469 * 2 ^ (-23 + 149)). literal (2 ^ 149).
  (* the debit *)
  destruct (near_finite _ _ _ Ns) as (Hs & us & Hus & Hns & Hs1);
    [lia | literal (2 ^ 277 - 2 ^ 254); lia |].
  pose proof (ordinary_quanta _ Hs) as Hs0.
  (* the quanta bought *)
  destruct (near_finite _ _ _ Nq) as (Hq & uq & Huq & Hnq & Hq1);
    [lia | literal (2 ^ 277 - 2 ^ 254); lia |].
  pose proof (ordinary_quanta _ Hq) as Hq0.
  (* the dollars they give back *)
  pose proof (near_mul_ordinary q 9227469 (-23) Hq Hrate) as Np.
  set (p := F32.mul q (S754_finite false 9227469 (-23))) in *.
  literal (Z.pos 9227469 * 2 ^ (-23 + 149)). literal (2 ^ 149). literal (2 ^ 23).
  set (S := quanta s) in *. set (Q := quanta q) in *.
  destruct (near_finite _ _ _ Np) as (Hp & up & Hup & Hnp & Hp1);
    [lia | literal (2 ^ 277 - 2 ^ 254); lia |].
  pose proof (ordinary_quanta _ Hp) as Hp0.
  (* the credit *)
  pose proof (near_add_ordinary s p Hs Hp) as Nb.
  fold b' in Nb. fold S in Nb.
  set (P := quanta p) in *.
  destruct (near_finite _ _ _ Nb) as (Hb' & ub & Hub & Hnb & Hb1);
    [lia | literal (2 ^ 277 - 2 ^ 254); lia |].
  split; [exact Hb'|].
  literal (2 ^ 20). literal (2 ^ 23).
  set (B' := quanta b') in *.
  clearbody B' B U S Q P. lia.
Qed.

Lemma ordinary_number (x : float) :
  ordinary x -> is_number x = true /\ is_infinity x = false.
Proof.
  intros [-> | (m & e & -> & Hb)]; [split; reflexivity|].
  split; [| reflexivity]. unfold is_number, valid. cbn. now rewrite Hb.
Qed.

(** A positive amount within a balance that is below a finite bound, and
    that balance, are finite and positive. *)
Lemma ordinary_of_order (u b : float) (mc : positive) (ec : Z) :
  valid u = true -> valid b = true ->
  F32.ltb F32.zero u = true ->
  F32.leb u b = true ->
  F32.ltb b (S754_finite false mc ec) = true ->
  ordinary u /\ ordinary b.
Proof.
  intros Vu Vb H0 Hle Hlt.
  destruct u as [su|[]| |[] mu eu]; try discriminate H0;
    destruct b as [sb|[]| |[] mb eb]; try discriminate Hle; try discriminate Hlt.
  split; right; eauto.
Qed.

(** ** The round trip through EUR *)

(** Claim C8, amended.  On an account whose balance is below 2^127,
    USD -> EUR of a positive amount [usd] within the balance, followed by
    EUR -> USD of the units just credited, at the rate 1.10f that the
    program keeps, succeeds twice when the units pass the holdings guard.
    It leaves the balance [(balance - usd) + (usd / rate) * rate], each
    operation rounded to single precision: a number that differs from the
    balance before by no more than its [2^-20]th part and [2^-146] (eight
    quanta). *)
Theorem eur_round_trip (w : World) (user : Account) (usd : float)
        (l1 l2 l3 l4 l5 : Line) (rest : list Line) :
  let rate := eur (exchangeRates w) in
  let bought := F32.div usd rate in
  well_formed w ->
  logged_in w user ->
  rate = eur initial_exchangeRates ->
  stdin w = l1 :: l2 :: l3 :: l4 :: l5 :: rest ->
  scan_d l1 = Some 1 -> scan_f l2 = Some usd ->
  scan_d l3 = Some 4 -> scan_d l4 = Some 1 -> scan_f l5 = Some bought ->
  valid (balance user) = true ->
  valid usd = true ->
  F32.ltb F32.zero usd = true ->
  F32.leb usd (balance user) = true ->
  F32.ltb (balance user) (F32.of_int (2 ^ 127)) = true ->
  F32.leb bought (F32.add (eur (currencies user)) bought) = true ->
  exists w1 w2 user1 user2,
    manageForexWallet w = Some (tt, w1) /\
    logged_in w1 user1 /\
    eur (currencies user1) = F32.add (eur (currencies user)) bought /\
    manageForexWallet w1 = Some (tt, w2) /\
    logged_in w2 user2 /\
    stdout w2 = stdout w ++ [OutSuccess; OutSuccess] /\
    balance user2
    = F32.add (F32.sub (balance user) usd) (F32.mul bought rate) /\
    is_number (balance user2) = true /\
    is_infinity (balance user2) = false /\
    2 ^ 20 * Z.abs (quanta (balance user2) - quanta (balance user))
    <= quanta (balance user) + 2 ^ 23.
Proof.
  intros rate bought Hw Hu Hrate Hin H1 H2 H3 H4 H5 Vb Vu Hpos Hle Hmax Hhold.
  change (F32.of_int (2 ^ 127)) with (S754_finite false 8388608 104) in Hmax.
  destruct (ordinary_of_order _ _ _ _ Vu Vb Hpos Hle Hmax) as [Ou Ob].
  assert (Oc : ordinary (S754_finite false 8388608 104))
    by (right; eexists _, _; split; reflexivity).
  pose proof (leb_quanta _ _ Ou Ob Hle) as Qle.
  pose proof (ltb_quanta _ _ Ob Oc Hmax) as Qmax.
  change (quanta (S754_finite false 8388608 104)) with (2 ^ 276) in Qmax.
  assert (Hguard : F32.ltb (balance user) usd = false).
  { destruct (F32.ltb (balance user) usd) eqn:E; [| reflexivity].
    pose proof (ltb_quanta _ _ Ob Ou E). lia. }
  destruct (eur_there_and_back w user usd l1 l2 l3 l4 l5 rest Hw Hu Hin
              H1 H2 H3 H4 H5 Hguard Hhold)
    as (w1 & w2 & user1 & user2 & E1 & Hu1 & He1 & E2 & Hu2 & Ho & Hb).
  exists w1, w2, user1, user2.
  do 6 (split; [assumption|]). split; [exact Hb|].
  destruct (round_trip_bound (balance user) usd Ob Ou Qle Qmax) as [Or Hbound].
  fold rate bought in Hb. unfold bought in Hb. rewrite Hrate in Hb.
  rewrite <- Hb in Or, Hbound.
  destruct (ordinary_number _ Or) as [Hn Hi].
  split; [exact Hn|]. split; [exact Hi | exact Hbound].
Qed.

(** Claim C8, instances of [eur_round_trip] on a new account: with 50
    dollars the roundings cancel and the balance is 1000 again; with
    35.47 dollars it ends one unit in the last place above 1000. *)
Lemma eur_round_trip_witness :
  let w := state_after 2 fifty_there_and_back in
  let cents := F32.div (F32.of_int 3547) (F32.of_int 100) in
  let v := state_after 2
             (alice ++ [number 1; decimal "35.47" 35 cents; number 4; number 1;
                        decimal "32.245457" 32
                                (F32.div cents (eur initial_exchangeRates))]) in
  (exists w1 w2 user2,
     manageForexWallet w = Some (tt, w1) /\
     manageForexWallet w1 = Some (tt, w2) /\
     logged_in w2 user2 /\
     balance user2 = STARTING_BALANCE) /\
  (exists v1 v2 user2,
     manageForexWallet v = Some (tt, v1) /\
     manageForexWallet v1 = Some (tt, v2) /\
     logged_in v2 user2 /\
     balance user2 = S754_finite false 16384001 (-14) /\
     quanta (balance user2) - quanta STARTING_BALANCE = 2 ^ 135 /\
     2 ^ 20 * Z.abs (quanta (balance user2) - quanta STARTING_BALANCE)
     <= quanta STARTING_BALANCE + 2 ^ 23).
Proof.
  intros w cents v. split.
  - assert (Hw : well_formed w) by evaluate_well_formed.
    assert (Hu : logged_in w alice_account) by evaluate_logged_in.
    destruct (eur_round_trip w alice_account (F32.of_int 50)
                (number 1) (number 50) (number 4) (number 1)
                (decimal "45.454544" 45
                         (F32.div (F32.of_int 50) (eur initial_exchangeRates)))
                [] Hw Hu)
      as (w1 & w2 & user1 & user2 & E1 & _ & _ & E2 & Hu2 & _ & Hb & _);
      [evaluate .. |].
    exists w1, w2, user2. split; [exact E1|]. split; [exact E2|].
    split; [exact Hu2|]. rewrite Hb. evaluate.
  - assert (Hw : well_formed v) by evaluate_well_formed.
    assert (Hu : logged_in v alice_account) by evaluate_logged_in.
    destruct (eur_round_trip v alice_account cents
                (number 1) (decimal "35.47" 35 cents) (number 4) (number 1)
                (decimal "32.245457" 32
                         (F32.div cents (eur initial_exchangeRates)))
                [] Hw Hu)
      as (v1 & v2 & user1 & user2 & E1 & _ & _ & E2 & Hu2 & _ & Hb & _ & _ & Hbound);
      [evaluate .. |].
    exists v1, v2, user2. split; [exact E1|]. split; [exact E2|].
    split; [exact Hu2|].
    assert (Eb : balance user2 = S754_finite false 16384001 (-14))
      by (rewrite Hb; evaluate).
    split; [exact Eb|]. split; [rewrite Eb; evaluate | exact Hbound].
Defined.
